(** * Endpoint routing for Aurora DSQL: a shallow embedding

    This development models the two connection managers of the repository,

    - [Simple]: [DSQLConnectionManager]       (dsql_connection_manager.py)
    - [Hybrid]: [DSQLHybridConnectionManager] (hybrid_failover_approach.py)

    as executable functions in a state-and-exception monad.  Everything
    outside the process (the clock, DNS, TCP sockets, Route 53, the DSQL
    token service and the PostgreSQL driver) is an abstract [World] whose
    operations thread a world state; a simulated world at the end of the
    file makes the definitions run on concrete inputs.

    Conventions.
    - A Python float is a [pyfloat]: a rational or [float('inf')].  The
      arithmetic on floats is that of a [Float64] instance: every
      operation returns the float its instance chooses for the exact
      result, so no general statement depends on how results are rounded;
      the runs on concrete inputs use arithmetic that does not round,
      and one of them the rounding of binary64.  Comparisons of floats
      are exact.
    - An endpoint dictionary is a record with optional fields; the
      endpoint objects of [self.endpoints] live in a store (a list) and
      every other list of endpoints ([healthy_endpoints], the sorted
      list) holds references, that is indices into the store, so that a
      write through one alias is seen through all of them.
    - [sorted] and [list.sort] are the stable ascending sort on keys. *)

From Stdlib Require Import QArith Ascii.
From stdpp Require Import base gmap strings list fin_maps sorting pretty.

Set Default Proof Using "Type".

(** ** Python values *)

(** [float]: a finite value or [float('inf')]. *)
Inductive pyfloat : Type :=
  | Fin (q : Q)
  | Inf.

Definition float_ltb (a b : pyfloat) : bool :=
  match a, b with
  | Fin x, Fin y => negb (Qle_bool y x)
  | Fin _, Inf => true
  | Inf, _ => false
  end.

Definition float_eqb (a b : pyfloat) : bool :=
  match a, b with
  | Fin x, Fin y => Qeq_bool x y
  | Inf, Inf => true
  | _, _ => false
  end.

Definition Qltb (a b : Q) : bool := negb (Qle_bool b a).

(** The arithmetic on finite floats that the managers use.  The operands
    are readings of the clock and their differences; overflow and NaN are
    not modelled. *)
Class Float64 : Type := {
  (** [x - y] *)
  fsub : Q → Q → Q;
  (** [x * y] *)
  fmul : Q → Q → Q;
  (** [x / y] *)
  fdiv : Q → Q → Q;
  (** [sum(xs)] *)
  fsum : list Q → Q;
}.

(** Values that occur in connection parameters. *)
Inductive pyval : Type :=
  | PStr (s : string)
  | PInt (z : Z).

Global Instance pyval_eq_dec : EqDecision pyval.
Proof. solve_decision. Defined.

(** Exceptions that reach the managers' callers, and [str(e)]. *)
Inductive exn : Type :=
  | KeyError (key : string)
  | ValueError (msg : string)
  | Exception (msg : string).

Definition str_exn (e : exn) : string :=
  match e with
  | KeyError k => "'" +:+ k +:+ "'"
  | ValueError m => m
  | Exception m => m
  end.

(** The result of an external call: it returns, or raises an exception
    whose [str] is [msg]. *)
Inductive io (A : Type) : Type :=
  | Done (a : A)
  | Fails (msg : string).
Arguments Done {A} a.
Arguments Fails {A} msg.

(** ** Strings *)

Definition ascii_lower (c : ascii) : ascii :=
  let n := nat_of_ascii c in
  if (65 <=? n)%nat && (n <=? 90)%nat then ascii_of_nat (n + 32) else c.

Fixpoint lower (s : string) : string :=
  match s with
  | EmptyString => EmptyString
  | String c s' => String (ascii_lower c) (lower s')
  end.

(** [s.startswith(p)] *)
Definition startswith (s p : string) : bool := String.prefix p s.

(** ["\n".join(l)] and friends *)
Fixpoint join (sep : string) (l : list string) : string :=
  match l with
  | [] => ""
  | [x] => x
  | x :: l' => x +:+ sep +:+ join sep l'
  end.

Definition newline : string := String (ascii_of_nat 10) EmptyString.

(** ** Endpoints *)

(** An endpoint dictionary.  [hostname] and [region] are indexed without a
    default by both managers; the other configuration keys may be absent.
    [latency] and [is_healthy] are the two keys the managers write. *)
Record endpoint : Type := Endpoint {
  hostname : string;
  region : string;
  port : option Z;
  cluster_id : option string;
  priority : option Z;
  health_check_id : option string;
  latency : option pyfloat;
  is_healthy : option bool;
}.

Global Instance endpoint_inhabited : Inhabited endpoint :=
  populate (Endpoint "" "" None None None None None None).

Definition set_latency (v : pyfloat) (e : endpoint) : endpoint :=
  Endpoint (hostname e) (region e) (port e) (cluster_id e) (priority e)
           (health_check_id e) (Some v) (is_healthy e).

Definition set_is_healthy (b : bool) (e : endpoint) : endpoint :=
  Endpoint (hostname e) (region e) (port e) (cluster_id e) (priority e)
           (health_check_id e) (latency e) (Some b).

(** The configuration part of an endpoint: every field but the two
    mutable ones. *)
Definition same_config (e e' : endpoint) : Prop :=
  hostname e = hostname e' ∧ region e = region e' ∧ port e = port e' ∧
  cluster_id e = cluster_id e' ∧ priority e = priority e' ∧
  health_check_id e = health_check_id e'.

(** A reference to an endpoint object: its index in [self.endpoints]. *)
Abbreviation ref := nat.

(** An open connection remembers the parameters it was opened with. *)
Record connection : Type := Connection { dsn : gmap string pyval }.

(** ** The world outside the process *)

Class World (W : Type) : Type := {
  (** [time.time()] *)
  time_time : W → Q * W;
  (** [socket.gethostbyname(hostname)]; it raises [socket.gaierror] when
      the name does not resolve *)
  gethostbyname : string → W → io string * W;
  (** create a socket, [settimeout], [connect((host, port))], [close]; it
      raises on a timeout, a refused connection or any other error *)
  socket_connect : string → Z → Q → W → io () * W;
  (** [route53.get_health_check_status(HealthCheckId=id)]: the [Status] of
      the [StatusReport] of every observation (the empty string where
      absent) *)
  get_health_check_status : string → W → io (list string) * W;
  (** [sts.get_caller_identity()] *)
  get_caller_identity : W → io () * W;
  (** [dsql.generate_db_connect_admin_auth_token(hostname, region)] *)
  generate_db_connect_admin_auth_token : string → string → W → io string * W;
  (** [psycopg2.connect] applied to the keyword arguments [conn_params] *)
  psycopg2_connect : gmap string pyval → W → io () * W;
}.

(** ** State and exceptions *)

Inductive outcome (A : Type) : Type :=
  | Ret (a : A)
  | Raise (e : exn).
Arguments Ret {A} a.
Arguments Raise {A} e.

(** The state of a run: the world and the manager object ([self]). *)
Record state (W Mgr : Type) : Type := State { world : W; self : Mgr }.
Arguments State {W Mgr} world self.
Arguments world {W Mgr} s.
Arguments self {W Mgr} s.

Definition M (Σ A : Type) : Type := Σ → outcome A * Σ.

Definition ret {Σ A} (a : A) : M Σ A := λ s, (Ret a, s).
Definition raise {Σ A} (e : exn) : M Σ A := λ s, (Raise e, s).
Definition bind {Σ A B} (m : M Σ A) (k : A → M Σ B) : M Σ B :=
  λ s, match m s with
       | (Ret a, s') => k a s'
       | (Raise e, s') => (Raise e, s')
       end.

(** [try: m  except Exception as e: h e] *)
Definition try_except {Σ A} (m : M Σ A) (h : exn → M Σ A) : M Σ A :=
  λ s, match m s with
       | (Ret a, s') => (Ret a, s')
       | (Raise e, s') => h e s'
       end.

Declare Scope monad_scope.
Delimit Scope monad_scope with monad.
Notation "x <- m ;; k" := (bind m (λ x, k))
  (at level 100, m at next level, right associativity) : monad_scope.
Notation "m ;;; k" := (bind m (λ _, k))
  (at level 100, right associativity) : monad_scope.

Section StateOps.
Context {W Mgr : Type}.
Local Open Scope monad_scope.

Definition get_self : M (state W Mgr) Mgr := λ s, (Ret (self s), s).
Definition modify_self (f : Mgr → Mgr) : M (state W Mgr) () :=
  λ s, (Ret (), State (world s) (f (self s))).

(** Run an operation of the world. *)
Definition call {A} (op : W → A * W) : M (state W Mgr) A :=
  λ s, let '(a, w) := op (world s) in (Ret a, State w (self s)).

(** Run an external call and let its failure surface as an exception. *)
Definition call_io {A} (op : W → io A * W) : M (state W Mgr) A :=
  r <- call op ;;
  match r with
  | Done a => ret a
  | Fails msg => raise (Exception msg)
  end.

(** [for x in l: body x] *)
Fixpoint for_each {A} (l : list A) (body : A → M (state W Mgr) ())
  : M (state W Mgr) () :=
  match l with
  | [] => ret ()
  | x :: l' => body x ;;; for_each l' body
  end.
End StateOps.

(** ** Stable sorting by a key *)

Section Sorting.
Context {A K : Type} (key : A → K) (ltb : K → K → bool).

(** Insertion in front of a sorted list: [x] stays in front of every
    element whose key is not strictly smaller. *)
Fixpoint insert_by (x : A) (l : list A) : list A :=
  match l with
  | [] => [x]
  | y :: l' => if ltb (key y) (key x) then y :: insert_by x l'
               else x :: y :: l'
  end.

Definition sort_by (l : list A) : list A := foldr insert_by [] l.
End Sorting.

(** The outcome of a [try] block that returns from inside its body:
    [inl] the returned value, [inr] the exception caught. *)
Definition catch {Σ A} (m : M Σ A) : M Σ (A + exn) :=
  try_except (bind m (λ a, ret (inl a))) (λ e, ret (inr e)).

(** [d[key]] on an optional field: [KeyError] when it is absent. *)
Definition item {Σ A} (key : string) (v : option A) : M Σ A :=
  match v with
  | Some a => ret a
  | None => raise (KeyError key)
  end.

(** * dsql_connection_manager.py *)

Module Simple.

Record manager : Type := Manager {
  endpoints : list endpoint;
  connection_settings : gmap string pyval;
}.

(** The keyword arguments built for one endpoint, before the configured
    settings are merged in. *)
Definition core_params (endpoint : endpoint) (database user token : string)
    (connect_timeout : Z) : gmap string pyval :=
  {[ "host" := PStr (hostname endpoint);
     "port" := PInt (default 5432%Z (port endpoint));
     "database" := PStr database;
     "user" := PStr user;
     "password" := PStr token;
     "connect_timeout" := PInt connect_timeout;
     "sslmode" := PStr "require" ]}.

(** [for key, value in self.connection_settings.items(): ...] *)
Definition add_settings (connection_settings conn_params : gmap string pyval)
    : gmap string pyval :=
  map_fold
    (λ key value conn_params,
       if decide (conn_params !! key = None ∧ key ≠ "connect_timeout")
       then <[key := value]> conn_params
       else conn_params)
    conn_params connection_settings.

Definition conn_params (self : manager) (endpoint : endpoint)
    (database user token : string) (connect_timeout : Z) : gmap string pyval :=
  add_settings (connection_settings self)
               (core_params endpoint database user token connect_timeout).

Definition error_message (last_exception : option exn) : string :=
  let error_msg := "Failed to connect to any endpoint" in
  match last_exception with
  | Some e => error_msg +:+ ": " +:+ str_exn e
  | None => error_msg
  end.

Section WithWorld.
Context `{World W} `{Float64}.
Local Open Scope monad_scope.
Abbreviation St := (state W manager).

Definition deref (i : ref) : M St endpoint :=
  self <- get_self ;; ret (endpoints self !!! i).

Definition update (i : ref) (f : endpoint → endpoint) : M St () :=
  modify_self (λ self,
    Manager (alter f i (endpoints self)) (connection_settings self)).

(** The three [except] clauses ([socket.gaierror], [(socket.timeout,
    ConnectionRefusedError)], [Exception]) return the same pair. *)
Definition _measure_endpoint (hostname : string) (port : Z)
    : M St (pyfloat * bool) :=
  try_except
    (ip_address <- call_io (gethostbyname hostname) ;;
     start_time <- call time_time ;;
     call_io (socket_connect ip_address port 2) ;;;
     now <- call time_time ;;
     let latency := fmul (fsub now start_time) 1000 in
     ret (Fin latency, true))
    (λ _, ret (Inf, false)).

Definition check_endpoint (i : ref) : M St () :=
  endpoint <- deref i ;;
  r <- _measure_endpoint (hostname endpoint) (default 5432%Z (port endpoint)) ;;
  update i (set_latency r.1) ;;;
  update i (set_is_healthy r.2).

Definition _check_endpoints : M St () :=
  self <- get_self ;;
  for_each (seq 0 (length (endpoints self))) check_endpoint.

Definition _generate_auth_token (hostname region : string) : M St string :=
  try_except
    (call_io get_caller_identity ;;;
     call_io (generate_db_connect_admin_auth_token hostname region))
    (λ e, raise e).

(** The body of the [try] in the connection loop. *)
Definition attempt (database user : string) (connect_timeout : Z) (i : ref)
    : M St connection :=
  endpoint <- deref i ;;
  token <- _generate_auth_token (hostname endpoint) (region endpoint) ;;
  self <- get_self ;;
  let conn_params :=
    conn_params self endpoint database user token connect_timeout in
  call_io (psycopg2_connect conn_params) ;;;
  ret (Connection conn_params).

Fixpoint try_endpoints (database user : string) (connect_timeout : Z)
    (target_endpoints : list ref) (last_exception : option exn)
    : M St connection :=
  match target_endpoints with
  | [] => raise (Exception (error_message last_exception))
  | i :: rest =>
      r <- catch (attempt database user connect_timeout i) ;;
      match r with
      | inl conn => ret conn
      | inr e => try_endpoints database user connect_timeout rest (Some e)
      end
  end.

Definition healthy_of (endpoints : list endpoint) : list ref :=
  filter (λ i, default false (is_healthy (endpoints !!! i)) = true)
         (seq 0 (length endpoints)).

Definition latency_key (endpoints : list endpoint) (i : ref) : pyfloat :=
  default Inf (latency (endpoints !!! i)).

Definition targets_of (endpoints : list endpoint) : list ref :=
  let healthy_endpoints := healthy_of endpoints in
  match healthy_endpoints with
  | [] => seq 0 (length endpoints)
  | _ => sort_by (latency_key endpoints) float_ltb healthy_endpoints
  end.

Definition get_connection (database user : string) (connect_timeout : Z)
    : M St connection :=
  _check_endpoints ;;;
  self <- get_self ;;
  try_endpoints database user connect_timeout
                (targets_of (endpoints self)) None.
End WithWorld.
End Simple.

(** * hybrid_failover_approach.py *)

Module Hybrid.

Record manager : Type := Manager {
  endpoints : list endpoint;
  connection_settings : gmap string pyval;
  health_check_ttl : Z;
  latency_test_timeout : Q;
  latency_test_retries : Z;
  connection_timeout : Z;
  health_check_cache : gmap string (bool * Q);
  dsql_available : bool;
}.

(** The settings [__init__] installs when it is given a list of
    endpoints rather than a configuration file. *)
Definition default_connection_settings (connection_timeout : Z)
    : gmap string pyval :=
  {[ "connect_timeout" := PInt connection_timeout;
     "application_name" := PStr "dsql-hybrid-router";
     "keepalives" := PInt 1;
     "keepalives_idle" := PInt 30;
     "keepalives_interval" := PInt 10;
     "keepalives_count" := PInt 3 ]}.

(** [__init__], with the contents of the configuration file, when one is
    named, already read: its endpoints and its connection settings. *)
Definition init (endpoints : list endpoint)
    (config_file : option (list endpoint * gmap string pyval))
    (health_check_ttl : Z) (latency_test_timeout : Q)
    (latency_test_retries connection_timeout : Z) (dsql_available : bool)
    : outcome manager :=
  let new endpoints connection_settings :=
    Manager endpoints connection_settings health_check_ttl
            latency_test_timeout latency_test_retries connection_timeout
            ∅ dsql_available in
  match config_file with
  | Some (config_endpoints, config_settings) =>
      match config_endpoints with
      | [] => Raise (ValueError "No endpoints found in configuration file")
      | _ => Ret (new config_endpoints config_settings)
      end
  | None =>
      match endpoints with
      | [] => Raise (ValueError "Either endpoints or config_file must be provided")
      | _ => Ret (new endpoints (default_connection_settings connection_timeout))
      end
  end.

Definition set_endpoints (f : list endpoint → list endpoint) (self : manager)
    : manager :=
  Manager (f (endpoints self)) (connection_settings self)
          (health_check_ttl self) (latency_test_timeout self)
          (latency_test_retries self) (connection_timeout self)
          (health_check_cache self) (dsql_available self).

Definition set_cache (f : gmap string (bool * Q) → gmap string (bool * Q))
    (self : manager) : manager :=
  Manager (endpoints self) (connection_settings self)
          (health_check_ttl self) (latency_test_timeout self)
          (latency_test_retries self) (connection_timeout self)
          (f (health_check_cache self)) (dsql_available self).

(** [status.lower().startswith('success')] *)
Definition is_success (status : string) : bool :=
  startswith (lower status) "success".

(** The cached verdict for [health_check_id] that is still within the
    TTL at time [now], if any. *)
Definition cached_result `{Float64} (self : manager) (health_check_id : string)
    (now : Q) : option bool :=
  match health_check_cache self !! health_check_id with
  | Some (cached_result, timestamp) =>
      if Qltb (fsub now timestamp) (inject_Z (health_check_ttl self))
      then Some cached_result else None
  | None => None
  end.

(** [sum(latencies) / len(latencies)] *)
Definition average `{Float64} (latencies : list Q) : Q :=
  fdiv (fsum latencies) (inject_Z (Z.of_nat (length latencies))).

(** The sort key [(x['latency'], x.get('priority', 999))] and the order
    of Python tuples on it. *)
Definition rank_key (endpoints : list endpoint) (i : ref) : pyfloat * Z :=
  let x := endpoints !!! i in
  (default Inf (latency x), default 999%Z (priority x)).

Definition key_ltb (a b : pyfloat * Z) : bool :=
  if float_eqb a.1 b.1 then (a.2 <? b.2)%Z else float_ltb a.1 b.1.

Definition rank (endpoints : list endpoint) (healthy_endpoints : list ref)
    : list ref :=
  sort_by (rank_key endpoints) key_ltb healthy_endpoints.

(** The dictionary display [{'host': ..., ..., **self.connection_settings}]:
    the settings are unpacked last and replace the keys written before. *)
Definition core_params (endpoint_hostname : string) (endpoint_port : Z)
    (database username auth_token : string) : gmap string pyval :=
  {[ "host" := PStr endpoint_hostname;
     "port" := PInt endpoint_port;
     "database" := PStr database;
     "user" := PStr username;
     "password" := PStr auth_token ]}.

Definition conn_params (self : manager) (endpoint_hostname : string)
    (endpoint_port : Z) (database username auth_token : string)
    : gmap string pyval :=
  map_fold (λ key value conn_params, <[key := value]> conn_params)
    (core_params endpoint_hostname endpoint_port database username auth_token)
    (connection_settings self).

Definition failure_message (endpoint : endpoint) (e : exn) : string :=
  "Failed to connect to " +:+ hostname endpoint +:+ ": " +:+ str_exn e.

Definition all_failed_message (errors : list string) : string :=
  "Failed to connect to any DSQL endpoint:" +:+ newline +:+ join newline errors.

Section WithWorld.
Context `{World W} `{Float64}.
Local Open Scope monad_scope.
Abbreviation St := (state W manager).

Definition deref (i : ref) : M St endpoint :=
  self <- get_self ;; ret (endpoints self !!! i).

Definition update (i : ref) (f : endpoint → endpoint) : M St () :=
  modify_self (set_endpoints (alter f i)).

Definition check_route53_health (health_check_id : string) : M St bool :=
  now <- call time_time ;;
  self <- get_self ;;
  match cached_result self health_check_id now with
  | Some cached => ret cached
  | None =>
      try_except
        (observations <- call_io (get_health_check_status health_check_id) ;;
         match observations with
         | [] => ret false
         | _ =>
             let success_count := length (filter (λ s, is_success s = true) observations) in
             let is_healthy := (0 <? success_count)%nat in
             modify_self (set_cache <[health_check_id := (is_healthy, now)]>) ;;;
             ret is_healthy
         end)
        (λ _, ret false)
  end.

Definition check_direct_health (endpoint : endpoint) : M St bool :=
  try_except
    (port <- item "port" (port endpoint) ;;
     self <- get_self ;;
     call_io (socket_connect (hostname endpoint) port
                             (latency_test_timeout self)) ;;;
     ret true)
    (λ _, ret false).

Definition is_endpoint_healthy (endpoint : endpoint) : M St bool :=
  match health_check_id endpoint with
  | Some id =>
      if decide (id = "") then check_direct_health endpoint
      else check_route53_health id
  | None => check_direct_health endpoint
  end.

(** The loop [for i in range(self.latency_test_retries)], whose body is
    a [try] that appends to [latencies] and an [except Exception] that
    only logs. *)
Fixpoint measure_attempts (n : nat) (hostname : string) (port : Z)
    (timeout : Q) (latencies : list Q) : M St (list Q) :=
  match n with
  | O => ret latencies
  | S n' =>
      latencies <-
        try_except
          (start_time <- call time_time ;;
           call_io (socket_connect hostname port timeout) ;;;
           now <- call time_time ;;
           let latency := fsub now start_time in
           ret (latencies ++ [latency]))
          (λ _, ret latencies) ;;
      measure_attempts n' hostname port timeout latencies
  end.

Definition measure_latency (endpoint : endpoint) : M St pyfloat :=
  port <- item "port" (port endpoint) ;;
  self <- get_self ;;
  latencies <- measure_attempts (Z.to_nat (latency_test_retries self))
                 (hostname endpoint) port (latency_test_timeout self) [] ;;
  match latencies with
  | [] => ret Inf
  | _ => ret (Fin (average latencies))
  end.

Fixpoint collect_healthy (l : list ref) (healthy_endpoints : list ref)
    : M St (list ref) :=
  match l with
  | [] => ret healthy_endpoints
  | i :: l' =>
      endpoint <- deref i ;;
      healthy <- is_endpoint_healthy endpoint ;;
      collect_healthy l'
        (if healthy : bool then healthy_endpoints ++ [i]
         else healthy_endpoints)
  end.

Definition get_healthy_endpoints : M St (list ref) :=
  self <- get_self ;;
  collect_healthy (seq 0 (length (endpoints self))) [].

Definition generate_auth_token (cluster_id region : string) : M St string :=
  self <- get_self ;;
  if dsql_available self then
    try_except
      (let hostname := cluster_id +:+ ".dsql." +:+ region +:+ ".on.aws" in
       call_io (generate_db_connect_admin_auth_token hostname region))
      (λ e, raise e)
  else ret ("test-auth-token-" +:+ cluster_id +:+ "-" +:+ region).

Definition measure_endpoint (i : ref) : M St () :=
  endpoint <- deref i ;;
  latency <- measure_latency endpoint ;;
  update i (set_latency latency).

(** The body of the [try] in the connection loop. *)
Definition attempt (database username : string) (i : ref)
    : M St connection :=
  endpoint <- deref i ;;
  cluster_id <- item "cluster_id" (cluster_id endpoint) ;;
  auth_token <- generate_auth_token cluster_id (region endpoint) ;;
  port <- item "port" (port endpoint) ;;
  self <- get_self ;;
  let conn_params :=
    conn_params self (hostname endpoint) port database username auth_token in
  call_io (psycopg2_connect conn_params) ;;;
  ret (Connection conn_params).

Fixpoint try_endpoints (database username : string)
    (ranked : list ref) (errors : list string) : M St connection :=
  match ranked with
  | [] => raise (Exception (all_failed_message errors))
  | i :: rest =>
      r <- catch (attempt database username i) ;;
      match r with
      | inl conn => ret conn
      | inr e =>
          endpoint <- deref i ;;
          let error_msg := failure_message endpoint e in
          try_endpoints database username rest (errors ++ [error_msg])
      end
  end.

Definition get_connection (database username : string) : M St connection :=
  healthy_endpoints <- get_healthy_endpoints ;;
  match healthy_endpoints with
  | [] => raise (Exception "No healthy DSQL endpoints available")
  | _ =>
      for_each healthy_endpoints measure_endpoint ;;;
      self <- get_self ;;
      try_endpoints database username
                    (rank (endpoints self) healthy_endpoints) []
  end.

(** [get_best_endpoint]: the head of the same ranking, or [None]. *)
Definition get_best_endpoint : M St (option ref) :=
  healthy_endpoints <- get_healthy_endpoints ;;
  match healthy_endpoints with
  | [] => ret None
  | _ =>
      for_each healthy_endpoints measure_endpoint ;;;
      self <- get_self ;;
      ret (head (rank (endpoints self) healthy_endpoints))
  end.
End WithWorld.
End Hybrid.

(** * A simulated world

    A deterministic world to run the managers on concrete inputs: a clock
    that advances by the duration of every TCP connect, a table of
    round-trip times indexed by the number of connects made so far (so that
    the network may change between two probes), and fixed answers of DNS,
    Route 53, the token service and the database driver.  The world keeps
    the list of keyword arguments of every [psycopg2.connect] call. *)

Module Sim.

Record world : Type := Sim {
  now : Q;
  dials : nat;
  dns : string → option string;
  rtt : nat → string → option Q;
  route53 : string → io (list string);
  sts : io ();
  mint : string → string → io string;
  driver : gmap string pyval → io ();
  opened : list (gmap string pyval);
}.

Definition dial (host : string) (timeout : Q) (w : world) : bool * world :=
  match rtt w (dials w) host with
  | Some d =>
      (true, Sim (now w + d) (S (dials w)) (dns w) (rtt w) (route53 w)
                 (sts w) (mint w) (driver w) (opened w))
  | None =>
      (false, Sim (now w + timeout) (S (dials w)) (dns w) (rtt w) (route53 w)
                  (sts w) (mint w) (driver w) (opened w))
  end.

Definition open (params : gmap string pyval) (w : world) : io () * world :=
  (driver w params,
   Sim (now w) (dials w) (dns w) (rtt w) (route53 w) (sts w) (mint w)
       (driver w) (opened w ++ [params])).

Definition resolve (host : string) (w : world) : io string * world :=
  (match dns w host with
   | Some ip_address => Done ip_address
   | None => Fails "Name or service not known"
   end, w).

Definition connect (host : string) (timeout : Q) (w : world) : io () * world :=
  ((if (dial host timeout w).1 then Done () else Fails "timed out"),
   (dial host timeout w).2).

(** Arithmetic without rounding. *)
Definition exact : Float64 := {|
  fsub := Qminus;
  fmul := Qmult;
  fdiv := Qdiv;
  fsum := foldl Qplus 0%Q;
|}.

Global Instance sim_world : World world := {
  time_time w := (now w, w);
  gethostbyname host w := resolve host w;
  socket_connect host _ timeout w := connect host timeout w;
  get_health_check_status id w := (route53 w id, w);
  get_caller_identity w := (sts w, w);
  generate_db_connect_admin_auth_token host region w := (mint w host region, w);
  psycopg2_connect params w := open params w;
}.
End Sim.

(** * Facts about the stable sort *)

Section SortFacts.
Context {A K : Type} (key : A → K) (ltb : K → K → bool).

(** [x] may stand in front of [y]. *)
Definition key_le (x y : A) : Prop := ltb (key y) (key x) = false.

(** The key of [x] is tied with [k]. *)
Definition tied (k : K) (x : A) : Prop :=
  ltb (key x) k = false ∧ ltb k (key x) = false.

Global Instance tied_dec k x : Decision (tied k x).
Proof. unfold tied. apply _. Defined.

Lemma insert_by_perm x l : insert_by key ltb x l ≡ₚ x :: l.
Proof.
  induction l as [|y l IH]; simpl; [done|].
  destruct (ltb (key y) (key x)); [|done].
  rewrite IH. apply Permutation_swap.
Qed.

Lemma sort_by_perm l : sort_by key ltb l ≡ₚ l.
Proof.
  induction l as [|x l IH]; simpl; [done|].
  rewrite insert_by_perm. by rewrite IH.
Qed.

Lemma sort_by_nil_inv l : sort_by key ltb l = [] → l = [].
Proof.
  intros Hs. apply Permutation_nil_r. rewrite <- Hs. symmetry. apply sort_by_perm.
Qed.

Hypothesis ltb_asym : ∀ a b, ltb a b = true → ltb b a = false.
Hypothesis ltb_ntrans :
  ∀ a b c, ltb b a = false → ltb c b = false → ltb c a = false.

Lemma insert_by_sorted x l :
  StronglySorted key_le l → StronglySorted key_le (insert_by key ltb x l).
Proof using ltb_asym ltb_ntrans.
  induction 1 as [|y l Hl IH Hy]; simpl.
  - repeat constructor.
  - destruct (ltb (key y) (key x)) eqn:Hyx.
    + constructor; [done|]. rewrite insert_by_perm. constructor; [|done].
      unfold key_le. by apply ltb_asym.
    + constructor; [by constructor|]. constructor; [done|].
      eapply Forall_impl; [exact Hy|]. intros z Hz. unfold key_le in *.
      by eapply ltb_ntrans.
Qed.

Lemma sort_by_sorted l : StronglySorted key_le (sort_by key ltb l).
Proof using ltb_asym ltb_ntrans.
  induction l as [|x l IH]; simpl; [constructor|]. by apply insert_by_sorted.
Qed.

Lemma insert_by_stable k x l :
  filter (tied k) (insert_by key ltb x l) = filter (tied k) (x :: l).
Proof using ltb_ntrans.
  induction l as [|y l IH]; simpl; [done|].
  destruct (ltb (key y) (key x)) eqn:Hyx; [|done].
  rewrite !filter_cons in *.
  destruct (decide (tied k y)) as [Hy|Hy]; rewrite IH;
    destruct (decide (tied k x)) as [Hx|Hx]; try done.
  destruct Hx as [Hx1 Hx2], Hy as [Hy1 Hy2].
  rewrite (ltb_ntrans _ _ _ Hx2 Hy1) in Hyx. done.
Qed.

(** Stability: the elements tied on any key keep their input order. *)
Lemma sort_by_stable k l :
  filter (tied k) (sort_by key ltb l) = filter (tied k) l.
Proof using ltb_ntrans.
  induction l as [|x l IH]; simpl; [done|].
  rewrite insert_by_stable, !filter_cons. by rewrite IH.
Qed.

(** In a sorted list a strictly smaller key never comes second. *)
Lemma sorted_no_inversion l l1 l2 l3 x y :
  StronglySorted key_le l → l = l1 ++ y :: l2 ++ x :: l3 →
  ltb (key x) (key y) = false.
Proof.
  intros Hs ->. apply StronglySorted_app_1_r in Hs.
  apply StronglySorted_inv in Hs as [_ Hall].
  rewrite Forall_app, Forall_cons in Hall. by destruct Hall as (_ & ? & _).
Qed.
End SortFacts.

(** * The order of floats and of ranking keys *)

Definition float_lt (a b : pyfloat) : Prop :=
  match a, b with
  | Fin x, Fin y => (x < y)%Q
  | Fin _, Inf => True
  | Inf, _ => False
  end.

Definition float_eq (a b : pyfloat) : Prop :=
  match a, b with
  | Fin x, Fin y => (x == y)%Q
  | Inf, Inf => True
  | _, _ => False
  end.

Lemma Qle_bool_false x y : Qle_bool x y = false ↔ (y < x)%Q.
Proof.
  rewrite <- not_true_iff_false, Qle_bool_iff. split.
  - apply Qnot_le_lt.
  - apply Qlt_not_le.
Qed.

Lemma float_ltb_true a b : float_ltb a b = true ↔ float_lt a b.
Proof.
  destruct a as [x|], b as [y|]; simpl; try tauto; try done.
  rewrite negb_true_iff. apply Qle_bool_false.
Qed.

Lemma float_ltb_false a b : float_ltb a b = false ↔ ¬ float_lt a b.
Proof. rewrite <- float_ltb_true. symmetry. apply not_true_iff_false. Qed.

Lemma float_eqb_true a b : float_eqb a b = true ↔ float_eq a b.
Proof.
  destruct a as [x|], b as [y|]; simpl; try tauto; try done.
  apply Qeq_bool_iff.
Qed.

Lemma float_eqb_false a b : float_eqb a b = false ↔ ¬ float_eq a b.
Proof. rewrite <- float_eqb_true. symmetry. apply not_true_iff_false. Qed.

Lemma float_lt_trichotomy a b : float_lt a b ∨ float_eq a b ∨ float_lt b a.
Proof.
  destruct a as [x|], b as [y|]; simpl; try tauto.
  destruct (Q_dec x y) as [[?|?]|?]; tauto.
Qed.

Lemma float_lt_irrefl a b : float_lt a b → float_eq a b → False.
Proof.
  destruct a as [x|], b as [y|]; simpl; try tauto.
  intros Hlt Heq. rewrite Heq in Hlt. by apply Qlt_irrefl in Hlt.
Qed.

Lemma float_lt_asym a b : float_lt a b → float_lt b a → False.
Proof.
  destruct a as [x|], b as [y|]; simpl; try tauto.
  intros H1 H2. apply (Qlt_irrefl x). by eapply Qlt_trans.
Qed.

Lemma float_lt_trans a b c : float_lt a b → float_lt b c → float_lt a c.
Proof.
  destruct a as [x|], b as [y|], c as [z|]; simpl; try tauto. apply Qlt_trans.
Qed.

Lemma float_eq_sym a b : float_eq a b → float_eq b a.
Proof. destruct a, b; simpl; try tauto. apply Qeq_sym. Qed.

Lemma float_eq_trans a b c : float_eq a b → float_eq b c → float_eq a c.
Proof. destruct a, b, c; simpl; try tauto. apply Qeq_trans. Qed.

Lemma float_lt_eq_l a b c : float_eq a b → float_lt a c → float_lt b c.
Proof.
  destruct a, b, c; simpl; try tauto. intros Heq. by rewrite Heq.
Qed.

Lemma float_lt_eq_r a b c : float_eq a b → float_lt c a → float_lt c b.
Proof.
  destruct a, b, c; simpl; try tauto. intros Heq. by rewrite Heq.
Qed.

Lemma float_ltb_asym a b : float_ltb a b = true → float_ltb b a = false.
Proof.
  rewrite float_ltb_true, float_ltb_false. intros ??. by eapply float_lt_asym.
Qed.

Lemma float_ltb_ntrans a b c :
  float_ltb b a = false → float_ltb c b = false → float_ltb c a = false.
Proof.
  rewrite !float_ltb_false. intros Hba Hcb Hca.
  destruct (float_lt_trichotomy a b) as [Hab|[Hab|Hab]]; [| |done].
  - destruct (float_lt_trichotomy b c) as [Hbc|[Hbc|Hbc]]; [| |done].
    + eapply float_lt_asym; [exact Hca|]. by eapply float_lt_trans.
    + apply Hba. eapply float_lt_eq_l; [apply float_eq_sym, Hbc|done].
  - apply Hcb. by eapply float_lt_eq_r.
Qed.

(** The order of the tuples [(latency, priority)]. *)
Definition key_lt (a b : pyfloat * Z) : Prop :=
  float_lt a.1 b.1 ∨ (float_eq a.1 b.1 ∧ (a.2 < b.2)%Z).

Lemma key_ltb_true a b : Hybrid.key_ltb a b = true ↔ key_lt a b.
Proof.
  unfold Hybrid.key_ltb, key_lt.
  destruct (float_eqb a.1 b.1) eqn:Heq.
  - apply float_eqb_true in Heq. rewrite Z.ltb_lt. split; [tauto|].
    intros [Hlt|?]; [|tauto]. by destruct (float_lt_irrefl _ _ Hlt Heq).
  - apply float_eqb_false in Heq. rewrite float_ltb_true. tauto.
Qed.

Lemma key_ltb_false a b : Hybrid.key_ltb a b = false ↔ ¬ key_lt a b.
Proof. rewrite <- key_ltb_true. symmetry. apply not_true_iff_false. Qed.

Lemma key_ltb_asym a b :
  Hybrid.key_ltb a b = true → Hybrid.key_ltb b a = false.
Proof.
  rewrite key_ltb_true, key_ltb_false. unfold key_lt.
  intros [H1|[H1 H2]] [H3|[H3 H4]].
  - by eapply float_lt_asym.
  - eapply float_lt_irrefl; [exact H1|]. by apply float_eq_sym.
  - eapply float_lt_irrefl; [exact H3|]. by apply float_eq_sym.
  - lia.
Qed.

Lemma key_ltb_false_le a b :
  Hybrid.key_ltb b a = false ↔
  float_lt a.1 b.1 ∨ (float_eq a.1 b.1 ∧ (a.2 ≤ b.2)%Z).
Proof.
  rewrite key_ltb_false. unfold key_lt. split.
  - intros Hn. destruct (float_lt_trichotomy a.1 b.1) as [?|[Heq|?]]; [tauto| |tauto].
    right. split; [done|]. apply float_eq_sym in Heq.
    destruct (decide (b.2 < a.2)%Z); [tauto|lia].
  - intros [Hlt|[Heq Hle]] [Hlt'|[Heq' Hlt']].
    + by eapply float_lt_asym.
    + eapply float_lt_irrefl; [exact Hlt|]. by apply float_eq_sym.
    + eapply float_lt_irrefl; [exact Hlt'|]. by apply float_eq_sym.
    + lia.
Qed.

Lemma key_ltb_ntrans a b c :
  Hybrid.key_ltb b a = false → Hybrid.key_ltb c b = false →
  Hybrid.key_ltb c a = false.
Proof.
  rewrite !key_ltb_false_le.
  intros [Hab|[Hab Hab2]] [Hbc|[Hbc Hbc2]].
  - left. by eapply float_lt_trans.
  - left. by eapply float_lt_eq_r.
  - left. eapply float_lt_eq_l; [apply float_eq_sym, Hab|done].
  - right. split; [by eapply float_eq_trans|lia].
Qed.

(** * Reasoning about runs *)

(** [for x in l: ys.append(f x)], sequentially. *)
Fixpoint map_m {Σ A B} (f : A → M Σ B) (l : list A) : M Σ (list B) :=
  match l with
  | [] => ret []
  | x :: l' => bind (f x) (λ y, bind (map_m f l') (λ ys, ret (y :: ys)))
  end.

Section MonadFacts.
Context {Σ : Type}.
Implicit Types s : Σ.

Lemma bind_ret_eq {A B} (m : M Σ A) (k : A → M Σ B) s a s1 :
  m s = (Ret a, s1) → bind m k s = k a s1.
Proof. unfold bind. by intros ->. Qed.

Lemma bind_raise_eq {A B} (m : M Σ A) (k : A → M Σ B) s e s1 :
  m s = (Raise e, s1) → bind m k s = (Raise e, s1).
Proof. unfold bind. by intros ->. Qed.

Lemma bind_inv {A B} (m : M Σ A) (k : A → M Σ B) s r s' :
  bind m k s = (r, s') →
  (∃ a s1, m s = (Ret a, s1) ∧ k a s1 = (r, s')) ∨
  (∃ e, m s = (Raise e, s') ∧ r = Raise e).
Proof.
  unfold bind. destruct (m s) as [[a|e] s1]; intros Heq.
  - left. eauto.
  - right. exists e. by simplify_eq.
Qed.

Lemma catch_ret_eq {A} (m : M Σ A) s a s1 :
  m s = (Ret a, s1) → catch m s = (Ret (inl a), s1).
Proof. unfold catch, try_except, bind. by intros ->. Qed.

Lemma catch_raise_eq {A} (m : M Σ A) s e s1 :
  m s = (Raise e, s1) → catch m s = (Ret (inr e), s1).
Proof. unfold catch, try_except, bind. by intros ->. Qed.

Lemma catch_inv {A} (m : M Σ A) s r s' :
  catch m s = (r, s') →
  (∃ a, m s = (Ret a, s') ∧ r = Ret (inl a)) ∨
  (∃ e, m s = (Raise e, s') ∧ r = Ret (inr e)).
Proof.
  unfold catch, try_except, bind, ret.
  destruct (m s) as [[a|e] s1]; intros; simplify_eq; eauto.
Qed.

(** ** Invariants *)

(** [I] is kept by every run of [m], whatever its outcome. *)
Definition stable (I : Σ → Prop) {A} (m : M Σ A) : Prop :=
  ∀ s r s', I s → m s = (r, s') → I s'.

Lemma stable_ret I {A} (a : A) : stable I (ret a).
Proof. intros s r s' HI [= <- <-]. done. Qed.

Lemma stable_raise I {A} e : stable I (raise (A:=A) e).
Proof. intros s r s' HI [= <- <-]. done. Qed.

Lemma stable_bind I {A B} (m : M Σ A) (k : A → M Σ B) :
  stable I m → (∀ a, stable I (k a)) → stable I (bind m k).
Proof.
  intros Hm Hk s r s' HI Hrun.
  apply bind_inv in Hrun as [(a & s1 & Hm1 & Hk1)|(e & Hm1 & _)]; [|eauto].
  eapply Hk; [|done]. eauto.
Qed.

Lemma stable_try_except I {A} (m : M Σ A) h :
  stable I m → (∀ e, stable I (h e)) → stable I (try_except m h).
Proof.
  intros Hm Hh s r s' HI. unfold try_except.
  destruct (m s) as [[a|e] s1] eqn:Hrun.
  - intros [= <- <-]. eauto.
  - intros Hrun'. eapply Hh; [|done]. eauto.
Qed.

Lemma stable_catch I {A} (m : M Σ A) : stable I m → stable I (catch m).
Proof.
  intros Hm. apply stable_try_except.
  - apply stable_bind; [done|]. intros. apply stable_ret.
  - intros. apply stable_ret.
Qed.

Lemma stable_item I {A} key (v : option A) : stable I (item key v).
Proof. destruct v; [apply stable_ret|apply stable_raise]. Qed.

Lemma stable_map_m_in I {A B} (f : A → M Σ B) l :
  (∀ x, x ∈ l → stable I (f x)) → stable I (map_m f l).
Proof.
  induction l as [|x l IH]; intros Hf; simpl; [apply stable_ret|].
  apply stable_bind; [apply Hf; left|]. intros y.
  apply stable_bind; [|intros ys; apply stable_ret].
  apply IH. intros z Hz. apply Hf. by right.
Qed.

Lemma stable_map_m I {A B} (f : A → M Σ B) l :
  (∀ x, stable I (f x)) → stable I (map_m f l).
Proof. intros Hf. apply stable_map_m_in. auto. Qed.

(** ** Runs that cannot raise *)

Definition noraise {A} (m : M Σ A) : Prop :=
  ∀ s, ∃ a s', m s = (Ret a, s').

Lemma noraise_ret {A} (a : A) : noraise (ret a).
Proof. intros s. by exists a, s. Qed.

Lemma noraise_bind {A B} (m : M Σ A) (k : A → M Σ B) :
  noraise m → (∀ a, noraise (k a)) → noraise (bind m k).
Proof.
  intros Hm Hk s. destruct (Hm s) as (a & s1 & Hrun).
  destruct (Hk a s1) as (b & s2 & Hrun'). exists b, s2.
  by rewrite (bind_ret_eq _ _ _ _ _ Hrun).
Qed.

Lemma noraise_try_except {A} (m : M Σ A) h :
  (∀ e, noraise (h e)) → noraise (try_except m h).
Proof.
  intros Hh s. unfold try_except. destruct (m s) as [[a|e] s1]; [eauto|].
  apply Hh.
Qed.

Lemma noraise_catch {A} (m : M Σ A) : noraise (catch m).
Proof. apply noraise_try_except. intros e. apply noraise_ret. Qed.

Lemma noraise_map_m {A B} (f : A → M Σ B) l :
  (∀ x, noraise (f x)) → noraise (map_m f l).
Proof.
  intros Hf. induction l as [|x l IH]; simpl; [apply noraise_ret|].
  apply noraise_bind; [done|]. intros y.
  apply noraise_bind; [done|]. intros ys. apply noraise_ret.
Qed.

Lemma map_m_length {A B} (f : A → M Σ B) l s ys s' :
  map_m f l s = (Ret ys, s') → length ys = length l.
Proof.
  revert s ys. induction l as [|x l IH]; simpl; intros s ys Hrun.
  - by injection Hrun as <- _.
  - apply bind_inv in Hrun as [(y & s1 & _ & Hrun)|(? & _ & ?)]; [|done].
    apply bind_inv in Hrun as [(ys' & s2 & Hrun & Hret)|(? & _ & ?)]; [|done].
    injection Hret as <- <-. simpl. f_equal. eauto.
Qed.
End MonadFacts.

Section StateFacts.
Context {W Mgr : Type}.
Implicit Types s : state W Mgr.

Lemma stable_get_self I : stable I (get_self (W:=W) (Mgr:=Mgr)).
Proof. intros s r s' HI [= <- <-]. done. Qed.

Lemma stable_modify_self (I : state W Mgr → Prop) f :
  (∀ s, I s → I (State (world s) (f (self s)))) → stable I (modify_self f).
Proof. intros Hf s r s' HI [= <- <-]. eauto. Qed.

Lemma stable_call (I : state W Mgr → Prop) {A} (op : W → A * W) :
  (∀ s, I s → I (State (op (world s)).2 (self s))) → stable I (call op).
Proof.
  intros Hop s r s' HI. unfold call. specialize (Hop s HI).
  destruct (op (world s)) as [a w]. intros [= <- <-]. done.
Qed.

Lemma stable_call_io (I : state W Mgr → Prop) {A} (op : W → io A * W) :
  (∀ s, I s → I (State (op (world s)).2 (self s))) → stable I (call_io op).
Proof.
  intros Hop. apply stable_bind; [by apply stable_call|].
  intros [a|msg]; [apply stable_ret|apply stable_raise].
Qed.

Lemma stable_for_each_in I {A} (l : list A) (body : A → M (state W Mgr) ()) :
  (∀ x, x ∈ l → stable I (body x)) → stable I (for_each l body).
Proof.
  induction l as [|x l IH]; intros Hb; simpl; [apply stable_ret|].
  apply stable_bind; [apply Hb; left|]. intros _.
  apply IH. intros z Hz. apply Hb. by right.
Qed.

Lemma stable_for_each I {A} (l : list A) (body : A → M (state W Mgr) ()) :
  (∀ x, stable I (body x)) → stable I (for_each l body).
Proof. intros Hb. apply stable_for_each_in. auto. Qed.

(** What follows a read of [self] may rely on the invariant of the
    state that was read. *)
Lemma stable_bind_get_self (I : state W Mgr → Prop) {B}
    (k : Mgr → M (state W Mgr) B) :
  (∀ s0, I s0 → ∀ r s', k (self s0) s0 = (r, s') → I s') →
  stable I (bind get_self k).
Proof. intros Hk s r s' HI Hrun. by eapply Hk. Qed.

Lemma noraise_get_self : noraise (get_self (W:=W) (Mgr:=Mgr)).
Proof. intros s. by eexists _, _. Qed.

Lemma noraise_modify_self f : noraise (modify_self (W:=W) (Mgr:=Mgr) f).
Proof. intros s. by eexists _, _. Qed.

Lemma noraise_call {A} (op : W → A * W) : noraise (call (Mgr:=Mgr) op).
Proof.
  intros s. unfold call. destruct (op (world s)) as [a w]. by eexists _, _.
Qed.

Lemma noraise_for_each {A} (l : list A) (body : A → M (state W Mgr) ()) :
  (∀ x, noraise (body x)) → noraise (for_each l body).
Proof.
  intros Hb. induction l as [|x l IH]; simpl; [apply noraise_ret|].
  apply noraise_bind; [done|]. by intros _.
Qed.

(** An invariant of the manager object alone is kept by every call
    into the world. *)
Definition on_self (J : Mgr → Prop) : state W Mgr → Prop := λ s, J (self s).

Lemma on_self_call J {A} (op : W → A * W) : stable (on_self J) (call op).
Proof. apply stable_call. intros s. done. Qed.

Lemma on_self_call_io J {A} (op : W → io A * W) :
  stable (on_self J) (call_io op).
Proof. apply stable_call_io. intros s. done. Qed.
End StateFacts.

(** One step of a proof that a run keeps an invariant of [self]. *)
Ltac stable_step :=
  first
    [ apply stable_ret | apply stable_raise | apply stable_get_self
    | apply on_self_call | apply on_self_call_io | apply stable_item
    | apply stable_catch
    | apply stable_bind; [|intros ?]
    | apply stable_try_except; [|intros ?]
    | match goal with
      | |- stable _ (match ?x with _ => _ end) => destruct x
      end ].

Ltac noraise_step :=
  first
    [ apply noraise_ret | apply noraise_get_self | apply noraise_call
    | apply noraise_modify_self | apply noraise_catch
    | apply noraise_try_except; intros ?
    | apply noraise_bind; [|intros ?]
    | match goal with
      | |- noraise (match ?x with _ => _ end) => destruct x
      end ].

Section SelfFacts.
Context {W Mgr : Type}.

(** A run that keeps every invariant of [self] leaves [self] as it was. *)
Lemma stable_self_eq {A} (m : M (state W Mgr) A) s r s' :
  (∀ J, stable (on_self J) m) → m s = (r, s') → self s' = self s.
Proof. intros Hm Hrun. by apply (Hm (λ x, x = self s) s r s'). Qed.
End SelfFacts.

(** * Facts about [Simple] *)

Section SimpleFacts.
Context `{World W} `{Float64}.
Abbreviation SSt := (state W Simple.manager).
Implicit Types (st : SSt) (J : Simple.manager → Prop).

(** What [_check_endpoints] stores for a measurement [(latency, is_healthy)]. *)
Definition write_measurement (e : endpoint) (r : pyfloat * bool) : endpoint :=
  set_is_healthy r.2 (set_latency r.1 e).

(** The attempts on the endpoints of [l], one after the other, each with
    its result: [inl] a connection, [inr] the exception caught. *)
Definition simple_attempts (database user : string) (connect_timeout : Z)
    (l : list ref) : M SSt (list (connection + exn)) :=
  map_m (λ i, catch (Simple.attempt database user connect_timeout i)) l.

Lemma simple_measure_self J hostname port :
  stable (on_self J) (Simple._measure_endpoint hostname port).
Proof. unfold Simple._measure_endpoint. repeat stable_step. Qed.

Lemma simple_measure_noraise hostname port :
  noraise (Simple._measure_endpoint hostname port).
Proof. unfold Simple._measure_endpoint. repeat noraise_step. Qed.

Lemma simple_token_self J hostname region :
  stable (on_self J) (Simple._generate_auth_token hostname region).
Proof. unfold Simple._generate_auth_token. repeat stable_step. Qed.

Lemma simple_attempt_self J database user connect_timeout i :
  stable (on_self J) (Simple.attempt database user connect_timeout i).
Proof.
  unfold Simple.attempt, Simple.deref.
  repeat first [apply simple_token_self | stable_step].
Qed.

Lemma simple_attempts_self J database user connect_timeout l :
  stable (on_self J) (simple_attempts database user connect_timeout l).
Proof.
  apply stable_map_m. intros i. apply stable_catch, simple_attempt_self.
Qed.
End SimpleFacts.

Section SimpleRuns.
Context `{World W} `{Float64}.
Abbreviation SSt := (state W Simple.manager).
Implicit Types (st : SSt) (J : Simple.manager → Prop).
Local Open Scope monad_scope.

(** The body of the loop of [_check_endpoints], returning what it
    measured and stored. *)
Definition simple_check_one (i : ref) : M SSt (pyfloat * bool) :=
  endpoint <- Simple.deref i ;;
  r <- Simple._measure_endpoint (hostname endpoint)
                               (default 5432%Z (port endpoint)) ;;
  Simple.update i (set_latency r.1) ;;;
  Simple.update i (set_is_healthy r.2) ;;;
  ret r.

(** [_check_endpoints], returning the measurements in list order. *)
Definition simple_checked : M SSt (list (pyfloat * bool)) :=
  self <- get_self ;;
  map_m simple_check_one (seq 0 (length (Simple.endpoints self))).

Lemma simple_check_one_run i st :
  ∃ r (s1 : SSt),
    let st' := State (world s1)
                 (Simple.Manager
                    (alter (λ e, write_measurement e r) i
                           (Simple.endpoints (self st)))
                    (Simple.connection_settings (self st))) in
    Simple.check_endpoint i st = (Ret (), st') ∧
    simple_check_one i st = (Ret r, st').
Proof.
  destruct (simple_measure_noraise
              (hostname (Simple.endpoints (self st) !!! i))
              (default 5432%Z (port (Simple.endpoints (self st) !!! i))) st)
    as (r & s1 & Hrun).
  exists r, s1.
  assert (self s1 = self st) as Hself
    by (eapply stable_self_eq; [|exact Hrun]; intros; apply simple_measure_self).
  assert (alter (set_is_healthy r.2) i
            (alter (set_latency r.1) i (Simple.endpoints (self s1)))
          = alter (λ e, write_measurement e r) i (Simple.endpoints (self st)))
    as Halter by (rewrite Hself, list_alter_alter_eq; reflexivity).
  simpl. unfold Simple.check_endpoint, simple_check_one, Simple.deref.
  unfold bind, get_self, ret, Simple.update, modify_self. simpl.
  rewrite Hrun. simpl. by rewrite Halter, Hself.
Qed.

Lemma simple_check_range l2 : ∀ l1 st,
  Simple.endpoints (self st) = l1 ++ l2 →
  ∃ rs st',
    map_m simple_check_one (seq (length l1) (length l2)) st = (Ret rs, st') ∧
    for_each (seq (length l1) (length l2)) Simple.check_endpoint st
      = (Ret (), st') ∧
    length rs = length l2 ∧
    Simple.endpoints (self st') = l1 ++ zip_with write_measurement l2 rs ∧
    Simple.connection_settings (self st') = Simple.connection_settings (self st).
Proof.
  induction l2 as [|e l2 IH]; intros l1 st Heps.
  - exists [], st. simpl. rewrite Heps. done.
  - destruct (simple_check_one_run (length l1) st)
      as (r & s1 & Hcheck & Hone). simpl in Hcheck, Hone.
    set (st1 := State (world s1) _) in *.
    destruct (IH (l1 ++ [write_measurement e r]) st1)
      as (rs & st' & IH1 & IH2 & IH3 & IH4 & IH5).
    { simpl. rewrite Heps. rewrite <- (Nat.add_0_r (length l1)).
      rewrite alter_app_r. simpl. by rewrite <- app_assoc. }
    rewrite length_app, Nat.add_1_r in IH1, IH2.
    exists (r :: rs), st'. simpl. split_and!.
    + rewrite (bind_ret_eq _ _ _ _ _ Hone), (bind_ret_eq _ _ _ _ _ IH1). done.
    + rewrite (bind_ret_eq _ _ _ _ _ Hcheck). done.
    + by rewrite IH3.
    + by rewrite IH4, <- app_assoc.
    + done.
Qed.

(** [_check_endpoints] never raises, and stores in every endpoint the
    measurement made for it. *)
Lemma simple_check_endpoints_run st :
  ∃ rs st',
    simple_checked st = (Ret rs, st') ∧
    Simple._check_endpoints st = (Ret (), st') ∧
    length rs = length (Simple.endpoints (self st)) ∧
    Simple.endpoints (self st')
      = zip_with write_measurement (Simple.endpoints (self st)) rs ∧
    Simple.connection_settings (self st') = Simple.connection_settings (self st).
Proof.
  destruct (simple_check_range (Simple.endpoints (self st)) [] st eq_refl)
    as (rs & st' & ?); exists rs, st'. done.
Qed.

Lemma simple_get_connection_eq database user connect_timeout st st1 :
  Simple._check_endpoints st = (Ret (), st1) →
  Simple.get_connection database user connect_timeout st
  = Simple.try_endpoints database user connect_timeout
      (Simple.targets_of (Simple.endpoints (self st1))) None st1.
Proof.
  intros Hcheck. unfold Simple.get_connection.
  by rewrite (bind_ret_eq _ _ _ _ _ Hcheck).
Qed.

Lemma simple_try_all_fail database user connect_timeout l :
  ∀ last_exception errs st st',
  simple_attempts database user connect_timeout l st
    = (Ret (inr <$> errs), st') →
  Simple.try_endpoints database user connect_timeout l last_exception st
  = (Raise (Exception (Simple.error_message
                         (match last errs with
                          | Some e => Some e
                          | None => last_exception
                          end))), st').
Proof.
  induction l as [|i l IH]; intros last_exception errs st st'; simpl.
  - intros [= Herrs <-]. by destruct errs.
  - intros Hrun.
    apply bind_inv in Hrun as [(y & s1 & Hi & Hrun)|(? & _ & ?)]; [|done].
    apply bind_inv in Hrun as [(ys & s2 & Hl & Hret)|(? & _ & ?)]; [|done].
    injection Hret as Hret <-. destruct errs as [|e errs]; [done|].
    injection Hret as -> ->.
    rewrite (bind_ret_eq _ _ _ _ _ Hi). rewrite (IH _ _ _ _ Hl).
    rewrite last_cons. by destruct (last errs).
Qed.

Lemma simple_try_first_success database user connect_timeout pre :
  ∀ i post last_exception errs st st1 c st2,
  simple_attempts database user connect_timeout pre st
    = (Ret (inr <$> errs), st1) →
  Simple.attempt database user connect_timeout i st1 = (Ret c, st2) →
  Simple.try_endpoints database user connect_timeout (pre ++ i :: post)
                       last_exception st
  = (Ret c, st2).
Proof.
  induction pre as [|j pre IH]; intros i post last_exception errs st st1 c st2; simpl.
  - intros [= _ <-] Hi. by rewrite (bind_ret_eq _ _ _ _ _ (catch_ret_eq _ _ _ _ Hi)).
  - intros Hrun Hi.
    apply bind_inv in Hrun as [(y & s1 & Hj & Hrun)|(? & _ & ?)]; [|done].
    apply bind_inv in Hrun as [(ys & s2 & Hl & Hret)|(? & _ & ?)]; [|done].
    injection Hret as Hret <-. destruct errs as [|e errs]; [done|].
    injection Hret as -> ->.
    rewrite (bind_ret_eq _ _ _ _ _ Hj). eauto.
Qed.
End SimpleRuns.

(** * Facts about [Hybrid] *)

Section HybridFacts.
Context `{World W} `{Float64}.
Abbreviation HSt := (state W Hybrid.manager).
Implicit Types (st : HSt) (J : Hybrid.manager → Prop).
Local Open Scope monad_scope.

(** The attempts on the endpoints of [l], one after the other, each with
    its result: [inl] a connection, [inr] the exception caught. *)
Definition hybrid_attempts (database username : string) (l : list ref)
    : M HSt (list (connection + exn)) :=
  map_m (λ i, catch (Hybrid.attempt database username i)) l.

(** The body of the measuring loop of [get_connection], returning the
    latency it measured and stored. *)
Definition hybrid_measure_one (i : ref) : M HSt pyfloat :=
  endpoint <- Hybrid.deref i ;;
  latency <- Hybrid.measure_latency endpoint ;;
  Hybrid.update i (set_latency latency) ;;;
  ret latency.

Definition hybrid_measured (l : list ref) : M HSt (list pyfloat) :=
  map_m hybrid_measure_one l.

(** The configuration of a manager: everything but its endpoints and
    its health-check cache. *)
Definition settings_of (m : Hybrid.manager) :=
  (Hybrid.connection_settings m, Hybrid.health_check_ttl m,
   Hybrid.latency_test_timeout m, Hybrid.latency_test_retries m,
   Hybrid.connection_timeout m, Hybrid.dsql_available m).

(** [m] differs from [m0] at most in the cache and in the [latency] of
    the endpoints referenced in [S]. *)
Definition latency_frame (S : list ref) (m0 m : Hybrid.manager) : Prop :=
  settings_of m = settings_of m0 ∧
  length (Hybrid.endpoints m) = length (Hybrid.endpoints m0) ∧
  ∀ j, Hybrid.endpoints m !!! j = Hybrid.endpoints m0 !!! j ∨
       (j ∈ S ∧ ∃ v, Hybrid.endpoints m !!! j
                      = set_latency v (Hybrid.endpoints m0 !!! j)).

Definition cache_blind J : Prop := ∀ m f, J m → J (Hybrid.set_cache f m).

Lemma latency_frame_refl S m : latency_frame S m m.
Proof. split_and!; [done..|]. intros j. by left. Qed.


Lemma latency_frame_cache_blind S m0 : cache_blind (latency_frame S m0).
Proof. intros m f (? & ? & ?). by split_and!. Qed.

Lemma latency_frame_update S m0 m i v :
  i ∈ S → latency_frame S m0 m →
  latency_frame S m0 (Hybrid.set_endpoints (alter (set_latency v) i) m).
Proof.
  intros Hi (Hs & Hlen & Hj). split_and!; [done|simpl; by rewrite length_alter|].
  intros j. simpl. rewrite list_lookup_total_alter.
  case_decide as Hij; [|done]. destruct Hij as [<- _].
  right. split; [done|]. exists v.
  destruct (Hj i) as [->|(_ & v' & ->)]; done.
Qed.

(** ** Invariants of the parts *)

Lemma hybrid_direct_self J endpoint :
  stable (on_self J) (Hybrid.check_direct_health endpoint).
Proof. unfold Hybrid.check_direct_health. repeat stable_step. Qed.

Lemma hybrid_route53_stable J id :
  cache_blind J → stable (on_self J) (Hybrid.check_route53_health id).
Proof.
  intros HJ. unfold Hybrid.check_route53_health.
  repeat first [stable_step
               | apply stable_modify_self; intros ? ?; unfold on_self in *;
                 simpl; by apply HJ].
Qed.

Lemma hybrid_is_healthy_stable J endpoint :
  cache_blind J → stable (on_self J) (Hybrid.is_endpoint_healthy endpoint).
Proof.
  intros HJ. unfold Hybrid.is_endpoint_healthy.
  repeat first [apply hybrid_direct_self | by apply hybrid_route53_stable
               | stable_step].
Qed.

Lemma hybrid_collect_stable J l : ∀ acc,
  cache_blind J → stable (on_self J) (Hybrid.collect_healthy l acc).
Proof.
  induction l as [|i l IH]; intros acc HJ; simpl; [apply stable_ret|].
  unfold Hybrid.deref.
  repeat first [by apply hybrid_is_healthy_stable | by apply IH | stable_step].
Qed.

Lemma hybrid_get_healthy_stable J :
  cache_blind J → stable (on_self J) Hybrid.get_healthy_endpoints.
Proof.
  intros HJ. unfold Hybrid.get_healthy_endpoints.
  repeat first [by apply hybrid_collect_stable | stable_step].
Qed.

Lemma hybrid_measure_attempts_self J n hostname port timeout : ∀ latencies,
  stable (on_self J)
         (Hybrid.measure_attempts n hostname port timeout latencies).
Proof.
  induction n as [|n IH]; intros latencies; simpl; [apply stable_ret|].
  repeat first [apply IH | stable_step].
Qed.

Lemma hybrid_measure_latency_self J endpoint :
  stable (on_self J) (Hybrid.measure_latency endpoint).
Proof.
  unfold Hybrid.measure_latency.
  repeat first [apply hybrid_measure_attempts_self | stable_step].
Qed.

Lemma hybrid_token_self J cluster_id region :
  stable (on_self J) (Hybrid.generate_auth_token cluster_id region).
Proof. unfold Hybrid.generate_auth_token. repeat stable_step. Qed.

Lemma hybrid_attempt_self J database username i :
  stable (on_self J) (Hybrid.attempt database username i).
Proof.
  unfold Hybrid.attempt, Hybrid.deref.
  repeat first [apply hybrid_token_self | stable_step].
Qed.

Lemma hybrid_attempts_self J database username l :
  stable (on_self J) (hybrid_attempts database username l).
Proof.
  apply stable_map_m. intros i. apply stable_catch, hybrid_attempt_self.
Qed.


Lemma hybrid_measure_one_frame S m0 i :
  i ∈ S → stable (on_self (latency_frame S m0)) (hybrid_measure_one i).
Proof.
  intros Hi. unfold hybrid_measure_one, Hybrid.deref, Hybrid.update.
  repeat first [apply hybrid_measure_latency_self | stable_step
               | apply stable_modify_self; intros ? ?; unfold on_self in *;
                 simpl; by apply latency_frame_update ].
Qed.


(** ** Health evaluation cannot raise *)

Lemma hybrid_direct_noraise endpoint :
  noraise (Hybrid.check_direct_health endpoint).
Proof. unfold Hybrid.check_direct_health. repeat noraise_step. Qed.

Lemma hybrid_route53_noraise id : noraise (Hybrid.check_route53_health id).
Proof. unfold Hybrid.check_route53_health. repeat noraise_step. Qed.

Lemma hybrid_is_healthy_noraise endpoint :
  noraise (Hybrid.is_endpoint_healthy endpoint).
Proof.
  unfold Hybrid.is_endpoint_healthy.
  repeat first [apply hybrid_direct_noraise | apply hybrid_route53_noraise
               | noraise_step].
Qed.
End HybridFacts.

Section HybridRuns.
Context `{World W} `{Float64}.
Abbreviation HSt := (state W Hybrid.manager).
Implicit Types (st : HSt) (J : Hybrid.manager → Prop).
Local Open Scope monad_scope.

Lemma hybrid_collect_run l : ∀ acc st,
  ∃ hs st',
    Hybrid.collect_healthy l acc st = (Ret (acc ++ hs), st') ∧ sublist hs l.
Proof.
  induction l as [|i l IH]; intros acc st; simpl.
  - exists [], st. by rewrite app_nil_r.
  - unfold Hybrid.deref, get_self. unfold bind at 1 2. unfold ret at 1.
    destruct (hybrid_is_healthy_noraise (Hybrid.endpoints (self st) !!! i) st)
      as (h & s1 & Hh).
    rewrite (bind_ret_eq _ _ _ _ _ Hh).
    destruct (IH (if h then acc ++ [i] else acc) s1) as (hs & st' & Hrun & Hsub).
    rewrite Hrun. destruct h.
    + exists (i :: hs), st'. rewrite <- app_assoc. split; [done|].
      by apply sublist_skip.
    + exists hs, st'. split; [done|]. by apply sublist_cons.
Qed.

(** [get_healthy_endpoints] cannot raise; it returns references into
    [self.endpoints], in list order and without repetition, and changes
    nothing but the cache. *)
Lemma hybrid_get_healthy_run st :
  ∃ healthy st1,
    Hybrid.get_healthy_endpoints st = (Ret healthy, st1) ∧
    sublist healthy (seq 0 (length (Hybrid.endpoints (self st)))) ∧
    latency_frame [] (self st) (self st1).
Proof.
  destruct (hybrid_collect_run (seq 0 (length (Hybrid.endpoints (self st)))) [] st)
    as (healthy & st1 & Hrun & Hsub).
  exists healthy, st1.
  assert (Hybrid.get_healthy_endpoints st = (Ret healthy, st1)) as Hget by done.
  split_and!; [done..|].
  eapply (hybrid_get_healthy_stable (latency_frame [] (self st))); [| |exact Hget].
  - apply latency_frame_cache_blind.
  - apply latency_frame_refl.
Qed.

Lemma sublist_seq_NoDup (l : list nat) n : sublist l (seq 0 n) → NoDup l.
Proof. intros Hsub. eapply sublist_NoDup; [|exact Hsub]. apply NoDup_seq. Qed.

Lemma sublist_seq_lt (l : list nat) n i : sublist l (seq 0 n) → i ∈ l → i < n.
Proof.
  intros Hsub Hi. apply (sublist_subseteq _ _ Hsub) in Hi.
  apply elem_of_seq in Hi. lia.
Qed.

(** The measuring loop and its instrumented form run alike. *)
Lemma hybrid_measure_endpoint_eq i st :
  Hybrid.measure_endpoint i st
  = (match (hybrid_measure_one i st).1 with
     | Ret _ => Ret ()
     | Raise e => Raise e
     end, (hybrid_measure_one i st).2).
Proof.
  unfold Hybrid.measure_endpoint, hybrid_measure_one, Hybrid.deref, Hybrid.update.
  unfold bind, get_self, ret, modify_self. simpl.
  by destruct (Hybrid.measure_latency _ st) as [[lat|e] s1].
Qed.

Lemma hybrid_for_each_measure_eq l : ∀ st,
  for_each l Hybrid.measure_endpoint st
  = (match (hybrid_measured l st).1 with
     | Ret _ => Ret ()
     | Raise e => Raise e
     end, (hybrid_measured l st).2).
Proof.
  induction l as [|i l IH]; intros st; simpl; [done|].
  unfold hybrid_measured; simpl. unfold bind.
  rewrite hybrid_measure_endpoint_eq.
  destruct (hybrid_measure_one i st) as [[lat|e] s1]; simpl; [|done].
  rewrite IH. unfold hybrid_measured, ret.
  by destruct (map_m hybrid_measure_one l s1) as [[lats|e] s2].
Qed.

Lemma hybrid_measure_one_inv i st lat st' :
  hybrid_measure_one i st = (Ret lat, st') →
  ∃ s1, Hybrid.measure_latency (Hybrid.endpoints (self st) !!! i) st
          = (Ret lat, s1) ∧
        st' = State (world s1)
                (Hybrid.set_endpoints (alter (set_latency lat) i) (self st)).
Proof.
  unfold hybrid_measure_one, Hybrid.deref, Hybrid.update.
  unfold bind, get_self, ret, modify_self. simpl.
  destruct (Hybrid.measure_latency _ st) as [[lat'|e] s1] eqn:Hm; [|done].
  intros [= -> <-]. exists s1. split; [done|]. do 2 f_equal.
  eapply stable_self_eq; [|exact Hm]. intros. apply hybrid_measure_latency_self.
Qed.

(** After the measuring loop, the [latency] of every measured endpoint
    is the value [measure_latency] returned for it. *)
Lemma hybrid_measured_store l : ∀ st lats st',
  hybrid_measured l st = (Ret lats, st') →
  NoDup l → (∀ i, i ∈ l → i < length (Hybrid.endpoints (self st))) →
  ∀ k i lat, l !! k = Some i → lats !! k = Some lat →
    latency (Hybrid.endpoints (self st') !!! i) = Some lat.
Proof.
  induction l as [|j l IH]; intros st lats st' Hrun Hnd Hlt k i lat Hk Hlat;
    [done|].
  simpl in Hrun.
  apply bind_inv in Hrun as [(v & s1 & Hone & Hrun)|(? & _ & ?)]; [|done].
  apply bind_inv in Hrun as [(vs & s2 & Hrest & Hret)|(? & _ & ?)]; [|done].
  injection Hret as <- <-. apply NoDup_cons in Hnd as [Hj Hnd].
  apply hybrid_measure_one_inv in Hone as (s0 & _ & ->).
  destruct k as [|k]; simpl in Hk, Hlat.
  - injection Hk as <-. injection Hlat as <-.
    pose proof (stable_map_m_in
                  (on_self (latency_frame l
                     (Hybrid.set_endpoints (alter (set_latency v) j) (self st))))
                  hybrid_measure_one l
                  (λ x Hx, hybrid_measure_one_frame _ _ x Hx)
                  (State (world s0)
                     (Hybrid.set_endpoints (alter (set_latency v) j) (self st)))
                  _ _ (latency_frame_refl _ _) Hrest)
      as (_ & _ & Hframe).
    destruct (Hframe j) as [->|[? _]]; [|done]. simpl.
    rewrite list_lookup_total_alter_eq; [done|]. apply Hlt. left.
  - eapply (IH _ _ _ Hrest); [done| |done..].
    intros x Hx. simpl. rewrite length_alter. apply Hlt. by right.
Qed.

Lemma hybrid_get_connection_none database username st st1 :
  Hybrid.get_healthy_endpoints st = (Ret [], st1) →
  Hybrid.get_connection database username st
  = (Raise (Exception "No healthy DSQL endpoints available"), st1).
Proof.
  intros Hh. unfold Hybrid.get_connection.
  by rewrite (bind_ret_eq _ _ _ _ _ Hh).
Qed.

Lemma hybrid_get_connection_eq database username st healthy st1 lats st2 :
  Hybrid.get_healthy_endpoints st = (Ret healthy, st1) →
  healthy ≠ [] →
  hybrid_measured healthy st1 = (Ret lats, st2) →
  Hybrid.get_connection database username st
  = Hybrid.try_endpoints database username
      (Hybrid.rank (Hybrid.endpoints (self st2)) healthy) [] st2.
Proof.
  intros Hh Hne Hm. unfold Hybrid.get_connection.
  rewrite (bind_ret_eq _ _ _ _ _ Hh). destruct healthy as [|i l]; [done|].
  assert (for_each (i :: l) Hybrid.measure_endpoint st1 = (Ret (), st2)) as Hf
    by (by rewrite hybrid_for_each_measure_eq, Hm).
  by rewrite (bind_ret_eq _ _ _ _ _ Hf).
Qed.

Lemma hybrid_get_connection_raise database username st healthy st1 e st2 :
  Hybrid.get_healthy_endpoints st = (Ret healthy, st1) →
  hybrid_measured healthy st1 = (Raise e, st2) →
  Hybrid.get_connection database username st = (Raise e, st2).
Proof.
  intros Hh Hm. unfold Hybrid.get_connection.
  rewrite (bind_ret_eq _ _ _ _ _ Hh). destruct healthy as [|i l]; [done|].
  assert (for_each (i :: l) Hybrid.measure_endpoint st1 = (Raise e, st2)) as Hf
    by (by rewrite hybrid_for_each_measure_eq, Hm).
  by rewrite (bind_raise_eq _ _ _ _ _ Hf).
Qed.

(** The message recorded for the failure of the attempt on [i]. *)
Definition failure_of (endpoints : list endpoint) (i : ref) (e : exn) : string :=
  Hybrid.failure_message (endpoints !!! i) e.

Lemma hybrid_try_all_fail database username l :
  ∀ errors errs st st',
  hybrid_attempts database username l st = (Ret (inr <$> errs), st') →
  Hybrid.try_endpoints database username l errors st
  = (Raise (Exception (Hybrid.all_failed_message
       (errors ++ zip_with (failure_of (Hybrid.endpoints (self st))) l errs))),
     st').
Proof.
  induction l as [|i l IH]; intros errors errs st st'; simpl.
  - intros [= Herrs <-]. destruct errs; [|done]. by rewrite app_nil_r.
  - intros Hrun.
    apply bind_inv in Hrun as [(y & s1 & Hi & Hrun)|(? & _ & ?)]; [|done].
    apply bind_inv in Hrun as [(ys & s2 & Hl & Hret)|(? & _ & ?)]; [|done].
    injection Hret as Hret <-. destruct errs as [|e errs]; [done|].
    injection Hret as -> ->.
    assert (self s1 = self st) as Hself.
    { eapply stable_self_eq; [|exact Hi]. intros.
      apply stable_catch, hybrid_attempt_self. }
    rewrite (bind_ret_eq _ _ _ _ _ Hi).
    unfold Hybrid.deref, get_self. unfold bind at 1 2. unfold ret at 1.
    rewrite (IH _ _ _ _ Hl), Hself. simpl. by rewrite <- app_assoc.
Qed.

Lemma hybrid_try_first_success database username pre :
  ∀ i post errors errs st st1 c st2,
  hybrid_attempts database username pre st = (Ret (inr <$> errs), st1) →
  Hybrid.attempt database username i st1 = (Ret c, st2) →
  Hybrid.try_endpoints database username (pre ++ i :: post) errors st
  = (Ret c, st2).
Proof.
  induction pre as [|j pre IH]; intros i post errors errs st st1 c st2; simpl.
  - intros [= _ <-] Hi.
    by rewrite (bind_ret_eq _ _ _ _ _ (catch_ret_eq _ _ _ _ Hi)).
  - intros Hrun Hi.
    apply bind_inv in Hrun as [(y & s1 & Hj & Hrun)|(? & _ & ?)]; [|done].
    apply bind_inv in Hrun as [(ys & s2 & Hl & Hret)|(? & _ & ?)]; [|done].
    injection Hret as Hret <-. destruct errs as [|e errs]; [done|].
    injection Hret as -> ->.
    rewrite (bind_ret_eq _ _ _ _ _ Hj).
    unfold Hybrid.deref, get_self. unfold bind at 1 2. unfold ret at 1.
    eauto.
Qed.
End HybridRuns.

(** * Connection parameters *)

Section ConnParams.
Implicit Types (settings core : gmap string pyval).

Lemma hybrid_conn_params_union self hostname port database username token :
  Hybrid.conn_params self hostname port database username token
  = Hybrid.connection_settings self
    ∪ Hybrid.core_params hostname port database username token.
Proof.
  unfold Hybrid.conn_params.
  apply (map_fold_weak_ind (λ r m, r = m ∪ _)).
  - by rewrite (left_id_L ∅ (∪)).
  - intros key value m r Hnone ->. by rewrite insert_union_l.
Qed.

Lemma hybrid_conn_params_lookup self hostname port database username token key :
  Hybrid.conn_params self hostname port database username token !! key
  = match Hybrid.connection_settings self !! key with
    | Some value => Some value
    | None => Hybrid.core_params hostname port database username token !! key
    end.
Proof.
  rewrite hybrid_conn_params_union, lookup_union.
  destruct (Hybrid.connection_settings self !! key) as [v|]; simpl.
  - by destruct (Hybrid.core_params _ _ _ _ _ !! key).
  - by rewrite (left_id_L None _).
Qed.

Lemma simple_add_settings_lookup settings core key :
  Simple.add_settings settings core !! key
  = match core !! key with
    | Some value => Some value
    | None => if decide (key = "connect_timeout") then None
              else settings !! key
    end.
Proof.
  unfold Simple.add_settings. revert key.
  apply (map_fold_weak_ind (λ r m, ∀ key, r !! key = match core !! key with
     | Some value => Some value
     | None => if decide (key = "connect_timeout") then None else m !! key
     end)).
  - intros key. rewrite lookup_empty. destruct (core !! key); [done|].
    by case_decide.
  - intros k v m r Hnone IH key.
    destruct (decide (r !! k = None ∧ k ≠ "connect_timeout")) as [[Hr Hk]|Hno].
    + destruct (decide (key = k)) as [->|Hne].
      * rewrite !lookup_insert_eq. specialize (IH k). rewrite Hr in IH.
        destruct (core !! k); [done|]. by rewrite decide_False.
      * rewrite !lookup_insert_ne by done. apply IH.
    + rewrite IH. destruct (core !! key) as [c|] eqn:Hcore; [done|].
      case_decide; [done|].
      destruct (decide (key = k)) as [->|Hne]; [|by rewrite lookup_insert_ne].
      exfalso. apply Hno. split; [|done].
      rewrite IH, Hcore, decide_False by done. done.
Qed.

Lemma simple_conn_params_lookup self endpoint database user token timeout key :
  Simple.conn_params self endpoint database user token timeout !! key
  = match Simple.core_params endpoint database user token timeout !! key with
    | Some value => Some value
    | None => if decide (key = "connect_timeout") then None
              else Simple.connection_settings self !! key
    end.
Proof. apply simple_add_settings_lookup. Qed.

Lemma simple_conn_params_sslmode self endpoint database user token timeout :
  Simple.conn_params self endpoint database user token timeout !! "sslmode"
  = Some (PStr "require").
Proof. by rewrite simple_conn_params_lookup. Qed.

Lemma simple_conn_params_host self endpoint database user token timeout :
  Simple.conn_params self endpoint database user token timeout !! "host"
  = Some (PStr (hostname endpoint)).
Proof. by rewrite simple_conn_params_lookup. Qed.

Lemma hybrid_conn_params_sslmode self hostname port database username token :
  Hybrid.conn_params self hostname port database username token !! "sslmode"
  = Hybrid.connection_settings self !! "sslmode".
Proof.
  rewrite hybrid_conn_params_lookup.
  by destruct (Hybrid.connection_settings self !! "sslmode").
Qed.
End ConnParams.

(** * Recording the connection attempts

    Any world can be wrapped into one that also keeps, in call order, the
    keyword arguments of every [psycopg2.connect] call made in it. *)

Module Recorded.
Record world (W : Type) : Type := Rec {
  inner : W;
  attempts : list (gmap string pyval);
}.
Arguments Rec {W} inner attempts.
Arguments inner {W} w.
Arguments attempts {W} w.

Section Wrap.
Context `{World W} `{Float64}.

Definition lift {A} (op : W → A * W) (w : world W) : A * world W :=
  (((op (inner w)).1), Rec (op (inner w)).2 (attempts w)).

Definition connect (params : gmap string pyval) (w : world W)
    : io () * world W :=
  ((psycopg2_connect params (inner w)).1,
   Rec (psycopg2_connect params (inner w)).2 (attempts w ++ [params])).

Global Instance recorded_world : World (world W) := {
  time_time := lift time_time;
  gethostbyname hostname := lift (gethostbyname hostname);
  socket_connect host port timeout := lift (socket_connect host port timeout);
  get_health_check_status id := lift (get_health_check_status id);
  get_caller_identity := lift get_caller_identity;
  generate_db_connect_admin_auth_token hostname region :=
    lift (generate_db_connect_admin_auth_token hostname region);
  psycopg2_connect := connect;
}.
End Wrap.
End Recorded.

Section Traces.
Context `{World W} `{Float64} {Mgr : Type}.
Abbreviation RSt := (state (Recorded.world W) Mgr).
Implicit Types (P : gmap string pyval → Prop) (s : RSt).

(** Since the attempts [before], only attempts that satisfy [P] were
    made. *)
Definition only_attempts (before : list (gmap string pyval)) P : RSt → Prop :=
  λ s, ∃ new, Recorded.attempts (world s) = before ++ new ∧ Forall P new.

Lemma only_attempts_init s P : only_attempts (Recorded.attempts (world s)) P s.
Proof. exists []. by rewrite app_nil_r. Qed.

Lemma only_attempts_self before P s m :
  only_attempts before P s → only_attempts before P (State (world s) m).
Proof. done. Qed.

Lemma only_attempts_lift before P {A} (op : W → A * W) s :
  only_attempts before P s →
  only_attempts before P (State (Recorded.lift op (world s)).2 (self s)).
Proof. done. Qed.

Lemma only_attempts_connect before P params s :
  P params → only_attempts before P s →
  only_attempts before P (State (Recorded.connect params (world s)).2 (self s)).
Proof.
  intros Hp (new & Hnew & Hall). exists (new ++ [params]). simpl.
  rewrite Hnew, app_assoc. split; [done|].
  apply Forall_app. split; [done|]. by constructor.
Qed.
End Traces.

(** One step of a proof that a run makes only attempts that satisfy [P]. *)
Ltac trace_step :=
  first
    [ apply stable_ret | apply stable_raise | apply stable_get_self
    | apply stable_item | apply stable_catch
    | apply stable_modify_self; intros ? ?; by apply only_attempts_self
    | apply stable_call; intros ? ?; by apply only_attempts_lift
    | apply stable_call_io; intros ? ?; by apply only_attempts_lift
    | apply stable_bind; [|intros ?]
    | apply stable_try_except; [|intros ?]
    | match goal with
      | |- stable _ (match ?x with _ => _ end) => destruct x
      end ].

Section SimpleTrace.
Context `{World W} `{Float64}.
Implicit Types (P : gmap string pyval → Prop).

Definition requires_tls (params : gmap string pyval) : Prop :=
  params !! "sslmode" = Some (PStr "require").

Lemma simple_get_connection_trace before database user connect_timeout :
  stable (only_attempts (Mgr:=Simple.manager) before requires_tls)
         (Simple.get_connection (W:=Recorded.world W)
                                database user connect_timeout).
Proof.
  assert (∀ l last,
    stable (only_attempts (Mgr:=Simple.manager) before requires_tls)
           (Simple.try_endpoints (W:=Recorded.world W)
              database user connect_timeout l last)) as Htry.
  { induction l as [|i l IH]; intros last; simpl; [apply stable_raise|].
    unfold Simple.attempt, Simple._generate_auth_token, Simple.deref.
    repeat first
      [ apply IH
      | apply stable_call_io; intros ? ?; apply only_attempts_connect;
        [apply simple_conn_params_sslmode|done]
      | trace_step ]. }
  unfold Simple.get_connection, Simple._check_endpoints.
  repeat first
    [ apply Htry
    | apply stable_for_each; intros ?;
      unfold Simple.check_endpoint, Simple._measure_endpoint, Simple.deref,
             Simple.update
    | trace_step ].
Qed.
End SimpleTrace.

Section HybridTrace.
Context `{World W} `{Float64}.
Abbreviation RHSt := (state (Recorded.world W) Hybrid.manager).
Implicit Types (s : RHSt) (settings : gmap string pyval).

(** The [sslmode] argument is the one of the configured settings. *)
Definition tls_as_configured settings (params : gmap string pyval) : Prop :=
  params !! "sslmode" = settings !! "sslmode".

(** The settings are [settings], and since the attempts [before] every
    attempt passed the [sslmode] configured there. *)
Definition configured settings (before : list (gmap string pyval))
    : RHSt → Prop :=
  λ s, Hybrid.connection_settings (self s) = settings ∧
       only_attempts before (tls_as_configured settings) s.

Lemma configured_cache settings before s f :
  configured settings before s →
  configured settings before (State (world s) (Hybrid.set_cache f (self s))).
Proof. done. Qed.

Lemma configured_endpoints settings before s f :
  configured settings before s →
  configured settings before
             (State (world s) (Hybrid.set_endpoints f (self s))).
Proof. done. Qed.

Lemma configured_lift settings before {A} (op : W → A * W) s :
  configured settings before s →
  configured settings before (State (Recorded.lift op (world s)).2 (self s)).
Proof. done. Qed.

Lemma configured_connect settings before params s :
  tls_as_configured settings params →
  configured settings before s →
  configured settings before
             (State (Recorded.connect params (world s)).2 (self s)).
Proof.
  intros Hp [Hs Ha]. split; [done|]. by apply only_attempts_connect.
Qed.

Ltac configured_step :=
  first
    [ apply stable_ret | apply stable_raise | apply stable_get_self
    | apply stable_item | apply stable_catch
    | apply stable_modify_self; intros ? ?; by apply configured_cache
    | apply stable_modify_self; intros ? ?; by apply configured_endpoints
    | apply stable_call; intros ? ?; by apply configured_lift
    | apply stable_call_io; intros ? ?; by apply configured_lift
    | apply stable_bind; [|intros ?]
    | apply stable_try_except; [|intros ?]
    | match goal with
      | |- stable _ (match ?x with _ => _ end) => destruct x
      end ].

Lemma hybrid_attempt_trace settings before database username i :
  stable (configured settings before)
         (Hybrid.attempt (W:=Recorded.world W) database username i).
Proof.
  unfold Hybrid.attempt, Hybrid.deref, Hybrid.generate_auth_token.
  repeat first
    [ apply stable_bind_get_self; intros s0 HI0 r s' Hrun;
      eapply (stable_bind (configured settings before)); [| |exact HI0|exact Hrun];
      [ apply stable_call_io; intros ? ?; apply configured_connect; [|done];
        unfold tls_as_configured; rewrite hybrid_conn_params_sslmode;
        by rewrite (proj1 HI0)
      | intros ?; apply stable_ret ]
    | configured_step ].
Qed.

Lemma hybrid_get_connection_trace settings before database username :
  stable (configured settings before)
         (Hybrid.get_connection (W:=Recorded.world W) database username).
Proof.
  assert (∀ l errors,
    stable (configured settings before)
           (Hybrid.try_endpoints (W:=Recorded.world W)
              database username l errors)) as Htry.
  { induction l as [|i l IH]; intros errors; simpl; [apply stable_raise|].
    unfold Hybrid.deref.
    repeat first [apply IH | apply hybrid_attempt_trace | configured_step]. }
  assert (∀ n hostname port timeout latencies,
    stable (configured settings before)
           (Hybrid.measure_attempts (W:=Recorded.world W)
              n hostname port timeout latencies)) as Hattempts.
  { induction n as [|n IH]; intros; simpl; [apply stable_ret|].
    repeat first [apply IH | configured_step]. }
  assert (∀ l acc,
    stable (configured settings before)
           (Hybrid.collect_healthy (W:=Recorded.world W) l acc)) as Hcollect.
  { induction l as [|i l IH]; intros acc; simpl; [apply stable_ret|].
    unfold Hybrid.deref, Hybrid.is_endpoint_healthy,
           Hybrid.check_route53_health, Hybrid.check_direct_health.
    repeat first [apply IH | configured_step]. }
  unfold Hybrid.get_connection, Hybrid.get_healthy_endpoints.
  repeat first
    [ apply Htry | apply Hcollect | apply Hattempts
    | apply stable_for_each; intros ?;
      unfold Hybrid.measure_endpoint, Hybrid.measure_latency, Hybrid.deref,
             Hybrid.update
    | configured_step ].
Qed.
End HybridTrace.

(** * Measuring *)

Section Measuring.
Context `{World W} `{Float64}.
Abbreviation HSt := (state W Hybrid.manager).
Abbreviation SSt := (state W Simple.manager).

(** [n] TCP connects to [host:port], one after the other: for each, the
    elapsed time when it succeeds and [None] when it fails. *)
Fixpoint dial_results (n : nat) (host : string) (port : Z) (timeout : Q)
    (w : W) : list (option Q) * W :=
  match n with
  | O => ([], w)
  | S n' =>
      let '(start_time, w1) := time_time w in
      match socket_connect host port timeout w1 with
      | (Done _, w2) =>
          let '(now, w3) := time_time w2 in
          let '(rest, w') := dial_results n' host port timeout w3 in
          (Some (fsub now start_time) :: rest, w')
      | (Fails _, w2) =>
          let '(rest, w') := dial_results n' host port timeout w2 in
          (None :: rest, w')
      end
  end.

(** The arithmetic mean. *)
Definition mean (l : list Q) : Q :=
  (foldr Qplus 0 l / inject_Z (Z.of_nat (length l)))%Q.

Lemma foldl_Qplus_foldr (l : list Q) (a : Q) :
  (foldl Qplus a l == a + foldr Qplus 0 l)%Q.
Proof.
  revert a. induction l as [|x l IH]; intros a; simpl.
  - by rewrite Qplus_0_r.
  - rewrite IH. by rewrite Qplus_assoc.
Qed.

(** With arithmetic that does not round, [sum(l) / len(l)] is the mean. *)
Lemma average_mean (l : list Q) : (@Hybrid.average Sim.exact l == mean l)%Q.
Proof.
  unfold Hybrid.average, mean. simpl. by rewrite foldl_Qplus_foldr, Qplus_0_l.
Qed.

Lemma dial_results_length n host port timeout w :
  length (dial_results n host port timeout w).1 = n.
Proof.
  revert w. induction n as [|n IH]; intros w; simpl; [done|].
  destruct (time_time w) as [start_time w1].
  destruct (socket_connect host port timeout w1) as [[[]|msg] w2].
  - destruct (time_time w2) as [now w3]. specialize (IH w3).
    destruct (dial_results n host port timeout w3). simpl in *. by rewrite IH.
  - specialize (IH w2).
    destruct (dial_results n host port timeout w2). simpl in *. by rewrite IH.
Qed.

Lemma hybrid_measure_attempts_run n host port timeout :
  ∀ latencies (st : HSt),
  Hybrid.measure_attempts n host port timeout latencies st
  = (Ret (latencies
          ++ omap id (dial_results n host port timeout (world st)).1),
     State (dial_results n host port timeout (world st)).2 (self st)).
Proof.
  induction n as [|n IH]; intros latencies [w m]; simpl.
  - by rewrite app_nil_r.
  - unfold bind at 1. unfold try_except, call_io, bind, call, ret, raise. simpl.
    destruct (time_time w) as [start_time w1]. simpl.
    destruct (socket_connect host port timeout w1) as [[[]|msg] w2]; simpl.
    + destruct (time_time w2) as [now w3]. simpl. rewrite IH. simpl.
      destruct (dial_results n host port timeout w3). simpl.
      by rewrite <- app_assoc.
    + rewrite IH. simpl. by destruct (dial_results n host port timeout w2).
Qed.

Lemma hybrid_measure_latency_run (st : HSt) endpoint p :
  port endpoint = Some p →
  let n := Z.to_nat (Hybrid.latency_test_retries (self st)) in
  let r := dial_results n (hostname endpoint) p
                        (Hybrid.latency_test_timeout (self st)) (world st) in
  Hybrid.measure_latency endpoint st
  = (Ret (match omap id r.1 with
          | [] => Inf
          | _ => Fin (Hybrid.average (omap id r.1))
          end), State r.2 (self st)).
Proof.
  intros Hp. simpl. unfold Hybrid.measure_latency. rewrite Hp. simpl.
  unfold bind at 1. simpl. unfold bind at 1. unfold get_self at 1.
  rewrite (bind_ret_eq _ _ _ _ _ (hybrid_measure_attempts_run _ _ _ _ _ _)).
  simpl. by destruct (omap id _).
Qed.

Lemma hybrid_measure_latency_no_port (st : HSt) endpoint :
  port endpoint = None →
  Hybrid.measure_latency endpoint st = (Raise (KeyError "port"), st).
Proof. intros Hp. unfold Hybrid.measure_latency. by rewrite Hp. Qed.

Lemma simple_measure_endpoint_run (st : SSt) hostname port :
  Simple._measure_endpoint hostname port st
  = match gethostbyname hostname (world st) with
    | (Fails _, w1) => (Ret (Inf, false), State w1 (self st))
    | (Done ip_address, w1) =>
        let '(start_time, w2) := time_time w1 in
        match socket_connect ip_address port 2 w2 with
        | (Done _, w3) =>
            let '(now, w4) := time_time w3 in
            (Ret (Fin (fmul (fsub now start_time) 1000), true),
             State w4 (self st))
        | (Fails _, w3) => (Ret (Inf, false), State w3 (self st))
        end
    end.
Proof.
  destruct st as [w m].
  unfold Simple._measure_endpoint, try_except, call_io, bind, call, ret, raise.
  simpl.
  destruct (gethostbyname hostname w) as [[ip|msg] w1]; simpl; [|done].
  destruct (time_time w1) as [start_time w2]. simpl.
  destruct (socket_connect ip port 2 w2) as [[[]|msg] w3]; simpl; [|done].
  by destruct (time_time w3) as [now w4].
Qed.

(** ** The Route 53 check *)

Lemma success_count_existsb (observations : list string) :
  (0 <? length (filter (λ s, Hybrid.is_success s = true) observations))%nat
  = existsb Hybrid.is_success observations.
Proof.
  induction observations as [|s l IH]; simpl; [done|].
  rewrite filter_cons.
  destruct (decide (Hybrid.is_success s = true)) as [Hs|Hs].
  - by rewrite Hs.
  - apply not_true_is_false in Hs. by rewrite Hs.
Qed.

Lemma hybrid_route53_miss (st : HSt) id now w1 response w2 :
  time_time (world st) = (now, w1) →
  Hybrid.cached_result (self st) id now = None →
  get_health_check_status id w1 = (response, w2) →
  Hybrid.check_route53_health id st
  = match response with
    | Done (status :: rest) =>
        let is_healthy := existsb Hybrid.is_success (status :: rest) in
        (Ret is_healthy,
         State w2 (Hybrid.set_cache <[id := (is_healthy, now)]> (self st)))
    | Done [] | Fails _ => (Ret false, State w2 (self st))
    end.
Proof.
  intros Hnow Hmiss Hresp. destruct st as [w m]. simpl in Hnow, Hmiss.
  destruct response as [[|status rest]|msg]; cbv beta iota zeta.
  2: rewrite <- (success_count_existsb (status :: rest)).
  all: unfold Hybrid.check_route53_health, bind, call, get_self; simpl;
    rewrite Hnow; simpl; rewrite Hmiss;
    unfold try_except, call_io, bind, call; simpl; rewrite Hresp; done.
Qed.

Lemma hybrid_route53_hit (st : HSt) id now w1 cached :
  time_time (world st) = (now, w1) →
  Hybrid.cached_result (self st) id now = Some cached →
  Hybrid.check_route53_health id st = (Ret cached, State w1 (self st)).
Proof.
  intros Hnow Hhit. destruct st as [w m]. simpl in *.
  unfold Hybrid.check_route53_health, bind, call, get_self. simpl.
  rewrite Hnow. simpl. by rewrite Hhit.
Qed.
End Measuring.

(** * What a successful attempt returns *)

Section Attempts.
Context `{World W} `{Float64}.
Abbreviation HSt := (state W Hybrid.manager).
Abbreviation SSt := (state W Simple.manager).

Lemma simple_attempt_inv database user connect_timeout i (st st' : SSt) c :
  Simple.attempt database user connect_timeout i st = (Ret c, st') →
  ∃ token,
    c = Connection (Simple.conn_params (self st)
                      (Simple.endpoints (self st) !!! i)
                      database user token connect_timeout).
Proof.
  unfold Simple.attempt, Simple.deref. unfold bind at 1 2. unfold get_self at 1.
  unfold ret at 1. intros Hrun.
  apply bind_inv in Hrun as [(token & s1 & Htok & Hrun)|(? & _ & ?)]; [|done].
  assert (self s1 = self st) as Hself
    by (eapply stable_self_eq; [|exact Htok]; intros; apply simple_token_self).
  unfold bind at 1 in Hrun. unfold get_self at 1 in Hrun.
  apply bind_inv in Hrun as [([] & s2 & _ & Hret)|(? & _ & ?)]; [|done].
  injection Hret as <- _. exists token. by rewrite Hself.
Qed.

Lemma hybrid_attempt_inv database username i (st st' : HSt) c :
  Hybrid.attempt database username i st = (Ret c, st') →
  ∃ token p,
    port (Hybrid.endpoints (self st) !!! i) = Some p ∧
    c = Connection (Hybrid.conn_params (self st)
                      (hostname (Hybrid.endpoints (self st) !!! i)) p
                      database username token).
Proof.
  unfold Hybrid.attempt, Hybrid.deref. unfold bind at 1 2. unfold get_self at 1.
  unfold ret at 1. intros Hrun.
  apply bind_inv in Hrun as [(cid & s1 & Hcid & Hrun)|(? & _ & ?)]; [|done].
  assert (s1 = st) as ->.
  { destruct (cluster_id _); by injection Hcid as _ ->. }
  apply bind_inv in Hrun as [(token & s1 & Htok & Hrun)|(? & _ & ?)]; [|done].
  assert (self s1 = self st) as Hself
    by (eapply stable_self_eq; [|exact Htok]; intros; apply hybrid_token_self).
  apply bind_inv in Hrun as [(p & s2 & Hp & Hrun)|(? & _ & ?)]; [|done].
  destruct (port _) as [p'|] eqn:Hport; [|done]. injection Hp as -> ->.
  unfold bind at 1 in Hrun. unfold get_self at 1 in Hrun.
  apply bind_inv in Hrun as [([] & s3 & _ & Hret)|(? & _ & ?)]; [|done].
  injection Hret as <- _. exists token, p. by rewrite Hself.
Qed.

Lemma simple_try_endpoints_self J database user connect_timeout l :
  ∀ last_exception,
  stable (on_self J)
    (Simple.try_endpoints database user connect_timeout l last_exception).
Proof.
  induction l as [|i l IH]; intros last_exception; simpl; [apply stable_raise|].
  repeat first [apply simple_attempt_self | apply IH | stable_step].
Qed.
End Attempts.

(** * Ranked lists and measured values *)

Section Ranked.
Context `{World W} `{Float64}.
Abbreviation HSt := (state W Hybrid.manager).
Abbreviation SSt := (state W Simple.manager).

(** In a stable sort, whatever follows an element has no smaller key. *)
Lemma sort_by_split_le {A K} (key : A → K) (ltb : K → K → bool) l pre x post :
  (∀ a b, ltb a b = true → ltb b a = false) →
  (∀ a b c, ltb b a = false → ltb c b = false → ltb c a = false) →
  sort_by key ltb l = pre ++ x :: post →
  x ∈ l ∧ ∀ y, y ∈ post → ltb (key y) (key x) = false.
Proof.
  intros Hasym Hntrans Hsplit. split.
  - rewrite <- (sort_by_perm key ltb l), Hsplit. set_solver.
  - pose proof (sort_by_sorted key ltb Hasym Hntrans l) as Hsorted.
    rewrite Hsplit in Hsorted. apply StronglySorted_app_1_r in Hsorted.
    apply StronglySorted_inv in Hsorted as [_ Hall].
    rewrite Forall_forall in Hall. intros y Hy. by apply Hall.
Qed.

Lemma omap_id_length {A} (l : list (option A)) :
  length (omap id l) ≤ length l.
Proof.
  induction l as [|[a|] l IH]; [done| |]; cbn [omap list_omap id length];
    simpl in *; lia.
Qed.

(** A value is what [measure_latency] returns after at most [n]
    attempts: the infinite sentinel, or the average of the elapsed
    times of the attempts that succeeded. *)
Definition averaged (n : nat) (v : pyfloat) : Prop :=
  v = Inf ∨
  ∃ successes : list Q,
    successes ≠ [] ∧ length successes ≤ n ∧ v = Fin (Hybrid.average successes).

Lemma hybrid_measure_latency_averaged (st st' : HSt) endpoint v :
  Hybrid.measure_latency endpoint st = (Ret v, st') →
  averaged (Z.to_nat (Hybrid.latency_test_retries (self st))) v.
Proof.
  destruct (port endpoint) as [p|] eqn:Hp.
  - rewrite (hybrid_measure_latency_run st endpoint p Hp). simpl.
    intros [= <- _].
    pose proof (dial_results_length
                  (Z.to_nat (Hybrid.latency_test_retries (self st)))
                  (hostname endpoint) p
                  (Hybrid.latency_test_timeout (self st)) (world st)) as Hlen.
    pose proof (omap_id_length
                  (dial_results
                     (Z.to_nat (Hybrid.latency_test_retries (self st)))
                     (hostname endpoint) p
                     (Hybrid.latency_test_timeout (self st)) (world st)).1)
      as Hle.
    destruct (omap id _) as [|q qs] eqn:Hs; [by left|right].
    exists (q :: qs). split_and!; [done|lia|done].
  - by rewrite (hybrid_measure_latency_no_port st endpoint Hp).
Qed.

Lemma hybrid_measured_averaged l : ∀ (st st' : HSt) lats,
  hybrid_measured l st = (Ret lats, st') →
  Forall (averaged (Z.to_nat (Hybrid.latency_test_retries (self st)))) lats.
Proof.
  induction l as [|i l IH]; intros st st' lats Hrun; simpl in Hrun.
  - injection Hrun as <- _. constructor.
  - apply bind_inv in Hrun as [(v & s1 & Hone & Hrun)|(? & _ & ?)]; [|done].
    apply bind_inv in Hrun as [(vs & s2 & Hrest & Hret)|(? & _ & ?)]; [|done].
    injection Hret as <- _.
    apply hybrid_measure_one_inv in Hone as (s0 & Hm & ->).
    constructor.
    + by eapply hybrid_measure_latency_averaged.
    + apply (IH _ _ _ Hrest).
Qed.

(** What the health evaluation returns refers to endpoints of the
    store, each once. *)
Lemma hybrid_get_healthy_refs (st st1 : HSt) healthy :
  Hybrid.get_healthy_endpoints st = (Ret healthy, st1) →
  NoDup healthy ∧
  (∀ i, i ∈ healthy → i < length (Hybrid.endpoints (self st1))) ∧
  latency_frame [] (self st) (self st1).
Proof.
  intros Hget.
  destruct (hybrid_get_healthy_run st) as (healthy' & st1' & Hget' & Hsub & Hfr).
  rewrite Hget in Hget'. injection Hget' as <- <-.
  split_and!; [by eapply sublist_seq_NoDup| |done].
  intros i Hi. destruct Hfr as (_ & -> & _). by eapply sublist_seq_lt.
Qed.
End Ranked.

(** * The specification, claim by claim *)

Section Claims.
Context `{World W} `{Float64}.
Abbreviation HSt := (state W Hybrid.manager).
Abbreviation SSt := (state W Simple.manager).

(** C7 (as amended).  Ranking is the stable ascending sort of the
    references it is given.  In the hybrid manager the key is the pair
    (latency, priority) in the order of Python tuples, a missing priority
    counting as 999: the result is a permutation of the input, no
    endpoint stands behind one with a strictly greater key, endpoints
    tied on the key keep their input order, and among endpoints of equal
    latency one that declares a priority below 999 has a strictly
    smaller key than one that declares none (while one that declares a
    priority above 999 has a strictly greater key).  In the simple
    manager the key is the latency alone, a missing latency counting as
    infinite; priorities play no part. *)
Theorem C7_ranking_is_stable_sort (endpoints : list endpoint) (l : list ref) :
  (Hybrid.rank endpoints l ≡ₚ l ∧
   StronglySorted (key_le (Hybrid.rank_key endpoints) Hybrid.key_ltb)
                  (Hybrid.rank endpoints l) ∧
   (∀ k, filter (tied (Hybrid.rank_key endpoints) Hybrid.key_ltb k)
                (Hybrid.rank endpoints l)
         = filter (tied (Hybrid.rank_key endpoints) Hybrid.key_ltb k) l) ∧
   (∀ i j p,
      float_eq (default Inf (latency (endpoints !!! i)))
               (default Inf (latency (endpoints !!! j))) →
      priority (endpoints !!! i) = Some p →
      priority (endpoints !!! j) = None →
      ((p < 999)%Z →
         Hybrid.key_ltb (Hybrid.rank_key endpoints i)
                        (Hybrid.rank_key endpoints j) = true) ∧
      ((999 < p)%Z →
         Hybrid.key_ltb (Hybrid.rank_key endpoints j)
                        (Hybrid.rank_key endpoints i) = true))) ∧
  (let sorted := sort_by (Simple.latency_key endpoints) float_ltb l in
   sorted ≡ₚ l ∧
   StronglySorted (key_le (Simple.latency_key endpoints) float_ltb) sorted ∧
   (∀ k, filter (tied (Simple.latency_key endpoints) float_ltb k) sorted
         = filter (tied (Simple.latency_key endpoints) float_ltb k) l)).
Proof.
  split; [split_and!|split_and!].
  - apply sort_by_perm.
  - apply sort_by_sorted; [apply key_ltb_asym|apply key_ltb_ntrans].
  - intros k. apply sort_by_stable, key_ltb_ntrans.
  - intros i j p Heq Hi Hj. unfold Hybrid.rank_key. rewrite Hi, Hj. simpl.
    split; intros Hp; apply key_ltb_true; right; simpl.
    + done.
    + split; [by apply float_eq_sym|done].
  - apply sort_by_perm.
  - apply sort_by_sorted; [apply float_ltb_asym|apply float_ltb_ntrans].
  - intros k. apply sort_by_stable, float_ltb_ntrans.
Qed.


(** C5 (as amended).  On a cache miss, when the Route 53 call returns a
    non-empty list of observations the endpoint is healthy iff some
    status starts with "success" (case-insensitively), and that verdict
    is written to the cache with the time read at the start of the call;
    when the call returns no observation, or raises, the verdict is
    "unhealthy" and the cache is left as it was. *)
Theorem C5_cache_write_on_miss (st : HSt) id now w1 response w2 :
  time_time (world st) = (now, w1) →
  Hybrid.cached_result (self st) id now = None →
  get_health_check_status id w1 = (response, w2) →
  Hybrid.check_route53_health id st
  = match response with
    | Done (status :: rest) =>
        let is_healthy := existsb Hybrid.is_success (status :: rest) in
        (Ret is_healthy,
         State w2 (Hybrid.set_cache <[id := (is_healthy, now)]> (self st)))
    | Done [] | Fails _ => (Ret false, State w2 (self st))
    end.
Proof. apply hybrid_route53_miss. Qed.

(** C8 (as amended).  The hybrid manager's [measure_latency] takes an
    endpoint and returns one float, without a flag.  It raises
    [KeyError('port')] when the endpoint has no port.  Otherwise it makes
    [latency_test_retries] TCP connects with the timeout
    [latency_test_timeout], one after the other whatever their outcome (a
    connect that raises is caught and counts as failed), and it returns
    [float('inf')] when none succeeded and otherwise
    [sum(latencies) / len(latencies)] over the elapsed times of those
    that succeeded, computed in floating point: their arithmetic mean
    when the arithmetic does not round.  The simple manager's
    [_measure_endpoint] takes a hostname and a port, no timeout and no
    retry count: it resolves the name and makes a single connect with a
    timeout of 2 seconds, and returns the elapsed time in milliseconds
    with [True], or [float('inf')] with [False] when the name does not
    resolve or the connect fails; it never raises. *)
Theorem C8_latency_measurement :
  (∀ (st : HSt) endpoint,
     let n := Z.to_nat (Hybrid.latency_test_retries (self st)) in
     match port endpoint with
     | None =>
         Hybrid.measure_latency endpoint st = (Raise (KeyError "port"), st)
     | Some p =>
         let r := dial_results n (hostname endpoint) p
                    (Hybrid.latency_test_timeout (self st)) (world st) in
         let successes := omap id r.1 in
         length r.1 = n ∧
         Hybrid.measure_latency endpoint st
         = (Ret (match successes with
                 | [] => Inf
                 | _ => Fin (fdiv (fsum successes)
                                  (inject_Z (Z.of_nat (length successes))))
                 end), State r.2 (self st))
     end) ∧
  (∀ successes, (@Hybrid.average Sim.exact successes == mean successes)%Q) ∧
  (∀ (st : SSt) hostname port,
     Simple._measure_endpoint hostname port st
     = match gethostbyname hostname (world st) with
       | (Fails _, w1) => (Ret (Inf, false), State w1 (self st))
       | (Done ip_address, w1) =>
           let r := dial_results 1 ip_address port 2 w1 in
           (Ret (match r.1 with
                 | [Some elapsed] => (Fin (fmul elapsed 1000), true)
                 | _ => (Inf, false)
                 end), State r.2 (self st))
       end).
Proof.
  split_and!.
  - intros st endpoint. cbv zeta.
    destruct (port endpoint) as [p|] eqn:Hp.
    + split; [apply dial_results_length|].
      by rewrite (hybrid_measure_latency_run st endpoint p Hp).
    + by apply hybrid_measure_latency_no_port.
  - apply average_mean.
  - intros st hostname port. rewrite simple_measure_endpoint_run.
    destruct (gethostbyname hostname (world st)) as [[ip|msg] w1]; [|done].
    simpl. destruct (time_time w1) as [start_time w2].
    destruct (socket_connect ip port 2 w2) as [[[]|msg] w3]; [|done].
    by destruct (time_time w3) as [now w4].
Qed.

(** Where the [sslmode] argument of an attempt comes from, in any world
    that records the arguments of every [psycopg2.connect] call.  The
    simple manager writes [sslmode='require'] itself ("DSQL requires
    SSL"), whatever the endpoints and the configured settings.  The hybrid
    manager writes none, so that what its attempts pass is what its
    [connection_settings] hold under that name. *)
Lemma sslmode_of_attempts :
  (∀ (st : state (Recorded.world W) Simple.manager) database user timeout,
     ∃ new,
       Recorded.attempts
         (world (Simple.get_connection database user timeout st).2)
       = Recorded.attempts (world st) ++ new ∧
       Forall (λ params, params !! "sslmode" = Some (PStr "require")) new) ∧
  (∀ (st : state (Recorded.world W) Hybrid.manager) database username,
     ∃ new,
       Recorded.attempts
         (world (Hybrid.get_connection database username st).2)
       = Recorded.attempts (world st) ++ new ∧
       Forall (λ params,
                 params !! "sslmode"
                 = Hybrid.connection_settings (self st) !! "sslmode") new).
Proof.
  split.
  - intros st database user timeout.
    eapply (simple_get_connection_trace _ database user timeout st);
      [apply only_attempts_init|apply surjective_pairing].
  - intros st database username.
    eapply (hybrid_get_connection_trace _ _ database username st);
      [|apply surjective_pairing].
    split; [done|]. apply only_attempts_init.
Qed.

(** C1 (as amended).  [get_connection] returns the connection opened by
    the first endpoint of the ranked list whose attempt (minting a token
    and opening the connection) succeeds, every endpoint ranked before
    it having failed.  The ranked list holds the endpoints reported
    healthy, sorted by ascending latency (simple manager; the whole list
    in input order when none is healthy) or by ascending (latency,
    priority) (hybrid manager), so every endpoint ranked behind the
    winner has no smaller key.  The connection is made to the winner's
    hostname, unless the hybrid manager's settings configure a host. *)
Theorem C1_first_success_in_ranked_order :
  (∀ (st st1 st2 st3 : SSt) database user timeout pre i post errs c,
     Simple._check_endpoints st = (Ret (), st1) →
     Simple.targets_of (Simple.endpoints (self st1)) = pre ++ i :: post →
     simple_attempts database user timeout pre st1
       = (Ret (inr <$> errs), st2) →
     Simple.attempt database user timeout i st2 = (Ret c, st3) →
     Simple.get_connection database user timeout st = (Ret c, st3) ∧
     dsn c !! "host"
       = Some (PStr (hostname (Simple.endpoints (self st1) !!! i))) ∧
     (Simple.healthy_of (Simple.endpoints (self st1)) ≠ [] →
      i ∈ Simple.healthy_of (Simple.endpoints (self st1)) ∧
      ∀ j, j ∈ post →
        float_ltb (Simple.latency_key (Simple.endpoints (self st1)) j)
                  (Simple.latency_key (Simple.endpoints (self st1)) i)
        = false)) ∧
  (∀ (st st1 st2 st3 st4 : HSt) database username healthy lats
     pre i post errs c,
     Hybrid.get_healthy_endpoints st = (Ret healthy, st1) →
     hybrid_measured healthy st1 = (Ret lats, st2) →
     Hybrid.rank (Hybrid.endpoints (self st2)) healthy = pre ++ i :: post →
     hybrid_attempts database username pre st2 = (Ret (inr <$> errs), st3) →
     Hybrid.attempt database username i st3 = (Ret c, st4) →
     Hybrid.get_connection database username st = (Ret c, st4) ∧
     i ∈ healthy ∧
     (∀ j, j ∈ post →
        Hybrid.key_ltb (Hybrid.rank_key (Hybrid.endpoints (self st2)) j)
                       (Hybrid.rank_key (Hybrid.endpoints (self st2)) i)
        = false) ∧
     dsn c !! "host"
       = match Hybrid.connection_settings (self st2) !! "host" with
         | Some host => Some host
         | None => Some (PStr (hostname (Hybrid.endpoints (self st2) !!! i)))
         end).
Proof.
  split.
  - intros st st1 st2 st3 database user timeout pre i post errs c
           Hcheck Htargets Hpre Hi.
    assert (self st2 = self st1) as Hself.
    { eapply stable_self_eq; [|exact Hpre]. intros.
      apply simple_attempts_self. }
    split_and!.
    + rewrite (simple_get_connection_eq _ _ _ _ _ Hcheck), Htargets.
      by eapply simple_try_first_success.
    + apply simple_attempt_inv in Hi as (token & ->). simpl.
      by rewrite simple_conn_params_host, Hself.
    + intros Hne. unfold Simple.targets_of in Htargets.
      destruct (Simple.healthy_of _) as [|h hs] eqn:Hh; [done|].
      eapply sort_by_split_le in Htargets;
        [done|apply float_ltb_asym|apply float_ltb_ntrans].
  - intros st st1 st2 st3 st4 database username healthy lats
           pre i post errs c Hget Hmeasured Hrank Hpre Hi.
    assert (self st3 = self st2) as Hself.
    { eapply stable_self_eq; [|exact Hpre]. intros.
      apply hybrid_attempts_self. }
    assert (healthy ≠ []) as Hne.
    { intros ->. by destruct pre. }
    unfold Hybrid.rank in Hrank.
    pose proof (sort_by_split_le _ _ _ _ _ _ key_ltb_asym key_ltb_ntrans Hrank)
      as [Hin Hpost].
    split_and!; [|done|done|].
    + rewrite (hybrid_get_connection_eq _ _ _ _ _ _ _ Hget Hne Hmeasured).
      unfold Hybrid.rank. rewrite Hrank.
      by eapply hybrid_try_first_success.
    + apply hybrid_attempt_inv in Hi as (token & p & Hp & ->). simpl.
      rewrite hybrid_conn_params_lookup, Hself.
      by destruct (Hybrid.connection_settings (self st2) !! "host").
Qed.

(** C2 (as amended).  When the health evaluation reports no endpoint
    healthy, the simple manager does not fail at once: it tries every
    endpoint in input order, and returns the connection of the first one
    whose attempt succeeds.  The hybrid manager fails at once with "No
    healthy DSQL endpoints available", in the state the health
    evaluation left: it makes no latency measurement and no connection
    attempt. *)
Theorem C2_no_endpoint_healthy :
  (∀ (st st1 : SSt) database user timeout,
     Simple._check_endpoints st = (Ret (), st1) →
     Simple.healthy_of (Simple.endpoints (self st1)) = [] →
     Simple.get_connection database user timeout st
     = Simple.try_endpoints database user timeout
         (seq 0 (length (Simple.endpoints (self st1)))) None st1 ∧
     ∀ pre i post errs st2 c st3,
       seq 0 (length (Simple.endpoints (self st1))) = pre ++ i :: post →
       simple_attempts database user timeout pre st1
         = (Ret (inr <$> errs), st2) →
       Simple.attempt database user timeout i st2 = (Ret c, st3) →
       Simple.get_connection database user timeout st = (Ret c, st3)) ∧
  (∀ (st st1 : HSt) database username,
     Hybrid.get_healthy_endpoints st = (Ret [], st1) →
     Hybrid.get_connection database username st
     = (Raise (Exception "No healthy DSQL endpoints available"), st1)).
Proof.
  split.
  - intros st st1 database user timeout Hcheck Hnone.
    assert (Simple.get_connection database user timeout st
            = Simple.try_endpoints database user timeout
                (seq 0 (length (Simple.endpoints (self st1)))) None st1)
      as Heq.
    { rewrite (simple_get_connection_eq _ _ _ _ _ Hcheck).
      unfold Simple.targets_of. by rewrite Hnone. }
    split; [done|].
    intros pre i post errs st2 c st3 Hsplit Hpre Hi.
    rewrite Heq, Hsplit. by eapply simple_try_first_success.
  - intros st st1 database username Hget.
    by apply hybrid_get_connection_none.
Qed.

(** C3 (as amended).  When the attempt on every ranked endpoint fails,
    the hybrid manager raises an exception whose message lists, after a
    header line, one line per attempted endpoint, in ranked order, each
    naming the endpoint's hostname and its failure.  The simple manager
    raises an exception whose message carries the failure of the last
    attempted endpoint only, without its hostname. *)
Theorem C3_all_attempts_fail :
  (∀ (st st1 st2 st3 : HSt) database username healthy lats errs,
     Hybrid.get_healthy_endpoints st = (Ret healthy, st1) →
     healthy ≠ [] →
     hybrid_measured healthy st1 = (Ret lats, st2) →
     hybrid_attempts database username
       (Hybrid.rank (Hybrid.endpoints (self st2)) healthy) st2
       = (Ret (inr <$> errs), st3) →
     length errs = length healthy ∧
     Hybrid.get_connection database username st
     = (Raise (Exception (Hybrid.all_failed_message
          (zip_with (failure_of (Hybrid.endpoints (self st2)))
                    (Hybrid.rank (Hybrid.endpoints (self st2)) healthy)
                    errs))), st3)) ∧
  (∀ (st st1 st2 : SSt) database user timeout errs,
     Simple._check_endpoints st = (Ret (), st1) →
     simple_attempts database user timeout
       (Simple.targets_of (Simple.endpoints (self st1))) st1
       = (Ret (inr <$> errs), st2) →
     length errs
       = length (Simple.targets_of (Simple.endpoints (self st1))) ∧
     Simple.get_connection database user timeout st
     = (Raise (Exception (Simple.error_message (last errs))), st2)).
Proof.
  split.
  - intros st st1 st2 st3 database username healthy lats errs
           Hget Hne Hmeasured Hall.
    split.
    + apply map_m_length in Hall. rewrite length_fmap in Hall.
      rewrite Hall. unfold Hybrid.rank. by rewrite sort_by_perm.
    + rewrite (hybrid_get_connection_eq _ _ _ _ _ _ _ Hget Hne Hmeasured).
      by rewrite (hybrid_try_all_fail _ _ _ _ _ _ _ Hall).
  - intros st st1 st2 database user timeout errs Hcheck Hall.
    split.
    + apply map_m_length in Hall. by rewrite length_fmap in Hall.
    + rewrite (simple_get_connection_eq _ _ _ _ _ Hcheck).
      rewrite (simple_try_all_fail _ _ _ _ _ _ _ _ Hall).
      by destruct (last errs).
Qed.

(** C6 (as amended).  The hybrid manager ranks the healthy endpoints on
    the latency that [measure_latency] returns for each of them in the
    same call, after the health evaluation: the infinite sentinel or the
    average over the successful ones of [latency_test_retries] connects;
    the probe of the health evaluation plays no part in the key.  The
    simple manager has one measurement only: it ranks on the latency of
    the single probe of [_check_endpoints], the same probe that decides
    [is_healthy]. *)
Theorem C6_latency_used_for_ranking :
  (∀ (st st1 st2 : HSt) database username healthy lats,
     Hybrid.get_healthy_endpoints st = (Ret healthy, st1) →
     healthy ≠ [] →
     hybrid_measured healthy st1 = (Ret lats, st2) →
     Hybrid.get_connection database username st
     = Hybrid.try_endpoints database username
         (Hybrid.rank (Hybrid.endpoints (self st2)) healthy) [] st2 ∧
     length lats = length healthy ∧
     Forall (averaged (Z.to_nat (Hybrid.latency_test_retries (self st)))) lats ∧
     ∀ k i lat,
       healthy !! k = Some i → lats !! k = Some lat →
       (Hybrid.rank_key (Hybrid.endpoints (self st2)) i).1 = lat) ∧
  (∀ (st : SSt),
     ∃ rs st1,
       simple_checked st = (Ret rs, st1) ∧
       length rs = length (Simple.endpoints (self st)) ∧
       (∀ database user timeout,
          Simple.get_connection database user timeout st
          = Simple.try_endpoints database user timeout
              (Simple.targets_of (Simple.endpoints (self st1))) None st1) ∧
       ∀ i r,
         rs !! i = Some r →
         Simple.latency_key (Simple.endpoints (self st1)) i = r.1 ∧
         is_healthy (Simple.endpoints (self st1) !!! i) = Some r.2).
Proof.
  split.
  - intros st st1 st2 database username healthy lats Hget Hne Hmeasured.
    destruct (hybrid_get_healthy_refs _ _ _ Hget)
      as (Hnd & Hlt & (Hsettings & _ & _)).
    split_and!.
    + by eapply hybrid_get_connection_eq.
    + by eapply map_m_length.
    + assert (Hybrid.latency_test_retries (self st)
              = Hybrid.latency_test_retries (self st1)) as ->
        by (by injection Hsettings).
      by eapply hybrid_measured_averaged.
    + intros k i lat Hk Hlat. unfold Hybrid.rank_key. simpl.
      by rewrite (hybrid_measured_store _ _ _ _ Hmeasured Hnd Hlt k i lat).
  - intros st.
    destruct (simple_check_endpoints_run st)
      as (rs & st1 & Hchecked & Hcheck & Hlen & Heps & _).
    exists rs, st1. split_and!; [done..| |].
    + intros. by apply simple_get_connection_eq.
    + intros i r Hr. unfold Simple.latency_key. rewrite Heps.
      destruct (lookup_lt_is_Some_2 (Simple.endpoints (self st)) i) as [e He].
      { rewrite <- Hlen. by eapply lookup_lt_Some. }
      rewrite (list_lookup_total_correct _ i (write_measurement e r)); [done|].
      rewrite lookup_zip_with, He. simpl. by rewrite Hr.
Qed.

End Claims.

(** * Concrete runs

    The managers run in the simulated world: the counterexamples to the
    claims that the code does not satisfy as they are written, and an
    instance of every theorem that has premises. *)

Module Examples.
#[local] Existing Instance Sim.exact.

(** The value a run returned ([d] when it raised). *)
Definition returned {A} (d : A) (o : outcome A) : A :=
  match o with
  | Ret a => a
  | Raise _ => d
  end.

Definition ep (host : string) (prio : option Z) (check : option string)
    : endpoint :=
  Endpoint host "us-east-1" (Some 5432%Z) (Some ("cluster-" +:+ host))
           prio check None None.

(** A world where every name resolves and every token is minted. *)
Definition net (rtt : nat → string → option Q)
    (route53 : string → io (list string))
    (driver : gmap string pyval → io ()) : Sim.world :=
  Sim.Sim 0 0 (λ host, Some host) rtt route53 (Done ())
          (λ host _, Done ("token-for-" +:+ host)) driver [].

Definition host_of (params : gmap string pyval) : string :=
  match params !! "host" with
  | Some (PStr host) => host
  | _ => ""
  end.

Definition accept (params : gmap string pyval) : io () := Done ().

Definition refuse (params : gmap string pyval) : io () :=
  Fails ("could not connect to " +:+ host_of params).

Definition refuse_host (host : string) (params : gmap string pyval) : io () :=
  if decide (host_of params = host) then refuse params else Done ().

Definition hybrid (endpoints : list endpoint) : Hybrid.manager :=
  Hybrid.Manager endpoints (Hybrid.default_connection_settings 5)
                 60 2 3 5 ∅ true.

Definition no_connection : connection := Connection ∅.

(** ** C1 *)

(** Two reachable endpoints with the same measured latency; [b] has the
    better priority but [a] comes first in the list. *)
Definition tie : state Sim.world Simple.manager :=
  State (net (λ _ _, Some 1%Q) (λ _, Done []) accept)
        (Simple.Manager [ep "a" (Some 2%Z) None; ep "b" (Some 1%Z) None] ∅).

(** C1, counterexample: both endpoints are reachable and healthy with
    equal latency and [b] declares the lower priority, yet the simple
    manager connects to [a]. *)
Lemma C1_counterexample :
  let r := Simple.get_connection "postgres" "admin" 5 tie in
  let endpoints := Simple.endpoints (self r.2) in
  is_healthy <$> endpoints = [Some true; Some true] ∧
  latency <$> endpoints = [Some (Fin 1000); Some (Fin 1000)] ∧
  priority <$> endpoints = [Some 2%Z; Some 1%Z] ∧
  host_of (dsn (returned no_connection r.1)) = "a" ∧
  ∃ c, r.1 = Ret c.
Proof.
  cbv zeta. split_and!; [vm_compute; reflexivity..|].
  eexists. vm_compute. reflexivity.
Qed.

(** [a] answers in 5 s and [b] in 1 s; the database refuses [b]. *)
Definition b_refused : state Sim.world Hybrid.manager :=
  State (net (λ _ host, if decide (host = "a") then Some 5%Q else Some 1%Q)
             (λ _, Done []) (refuse_host "b"))
        (hybrid [ep "a" (Some 1%Z) None; ep "b" (Some 2%Z) None]).

Definition b_refused_1 := (Hybrid.get_healthy_endpoints b_refused).2.
Definition b_refused_lats :=
  returned [] (hybrid_measured [0; 1]%nat b_refused_1).1.
Definition b_refused_2 := (hybrid_measured [0; 1]%nat b_refused_1).2.
Definition b_refused_3 :=
  (hybrid_attempts "postgres" "admin" [1%nat] b_refused_2).2.
Definition b_refused_4 := (Hybrid.attempt "postgres" "admin" 0%nat b_refused_3).2.
Definition b_refused_c :=
  returned no_connection (Hybrid.attempt "postgres" "admin" 0%nat b_refused_3).1.

Definition tie_1 := (Simple._check_endpoints tie).2.
Definition tie_3 := (Simple.attempt "postgres" "admin" 5 0%nat tie_1).2.
Definition tie_c :=
  returned no_connection (Simple.attempt "postgres" "admin" 5 0%nat tie_1).1.

Lemma C1_witness :
  (Simple.get_connection "postgres" "admin" 5 tie = (Ret tie_c, tie_3) ∧
   dsn tie_c !! "host" = Some (PStr "a")) ∧
  (Hybrid.get_connection "postgres" "admin" b_refused
   = (Ret b_refused_c, b_refused_4) ∧
   dsn b_refused_c !! "host" = Some (PStr "a")).
Proof.
  split.
  - destruct (proj1 C1_first_success_in_ranked_order
                tie tie_1 tie_1 tie_3 "postgres" "admin" 5%Z
                [] 0%nat [1%nat] [] tie_c) as (Hrun & Hhost & _);
      [vm_compute; reflexivity..|].
    split; [exact Hrun|]. rewrite Hhost. vm_compute. reflexivity.
  - destruct (proj2 C1_first_success_in_ranked_order
                b_refused b_refused_1 b_refused_2 b_refused_3 b_refused_4
                "postgres" "admin" [0; 1]%nat b_refused_lats
                [1%nat] 0%nat [] [Exception "could not connect to b"]
                b_refused_c) as (Hrun & _ & _ & Hhost);
      [vm_compute; reflexivity..|].
    split; [exact Hrun|]. rewrite Hhost. vm_compute. reflexivity.
Defined.

(** ** C2 *)

(** Route 53 reports both endpoints down although their ports are open
    and the database would accept the connection. *)
Definition false_negative : state Sim.world Hybrid.manager :=
  State (net (λ _ _, Some 1%Q)
             (λ _, Done ["Failure: connection timed out"]) accept)
        (hybrid [ep "a" (Some 1%Z) (Some "hc-a");
                 ep "b" (Some 2%Z) (Some "hc-b")]).

(** C2, counterexample: no endpoint is reported healthy and both ports are
    open, yet the hybrid manager fails at once, without any attempt. *)
Lemma C2_counterexample :
  let r := Hybrid.get_connection "postgres" "admin" false_negative in
  (Hybrid.get_healthy_endpoints false_negative).1 = Ret [] ∧
  (Sim.dial "a" 2 (world false_negative)).1 = true ∧
  (Sim.dial "b" 2 (world false_negative)).1 = true ∧
  r.1 = Raise (Exception "No healthy DSQL endpoints available") ∧
  Sim.opened (world r.2) = [].
Proof. cbv zeta. split_and!; vm_compute; reflexivity. Qed.

(** The probes time out (nothing is reported healthy) but the database
    accepts connections. *)
Definition probes_blocked : state Sim.world Simple.manager :=
  State (net (λ _ _, None) (λ _, Done []) (refuse_host "a"))
        (Simple.Manager [ep "a" (Some 1%Z) None; ep "b" (Some 2%Z) None] ∅).

Definition probes_blocked_1 := (Simple._check_endpoints probes_blocked).2.
Definition probes_blocked_2 :=
  (simple_attempts "postgres" "admin" 5 [0%nat] probes_blocked_1).2.
Definition probes_blocked_3 :=
  (Simple.attempt "postgres" "admin" 5 1%nat probes_blocked_2).2.
Definition probes_blocked_c :=
  returned no_connection
           (Simple.attempt "postgres" "admin" 5 1%nat probes_blocked_2).1.
Definition false_negative_1 := (Hybrid.get_healthy_endpoints false_negative).2.

Lemma C2_witness :
  (Simple.get_connection "postgres" "admin" 5 probes_blocked
   = (Ret probes_blocked_c, probes_blocked_3) ∧
   host_of (dsn probes_blocked_c) = "b") ∧
  Hybrid.get_connection "postgres" "admin" false_negative
  = (Raise (Exception "No healthy DSQL endpoints available"), false_negative_1).
Proof.
  split.
  - destruct (proj1 C2_no_endpoint_healthy
                probes_blocked probes_blocked_1 "postgres" "admin" 5%Z)
      as (_ & Hfirst); [vm_compute; reflexivity..|].
    split; [|vm_compute; reflexivity].
    apply (Hfirst [0%nat] 1%nat [] [Exception "could not connect to a"]
                  probes_blocked_2); vm_compute; reflexivity.
  - apply (proj2 C2_no_endpoint_healthy). vm_compute. reflexivity.
Defined.

(** ** C3 *)

(** Nothing answers and the database refuses every connection. *)
Definition all_down : state Sim.world Simple.manager :=
  State (net (λ _ _, None) (λ _, Done []) refuse)
        (Simple.Manager [ep "a" (Some 1%Z) None; ep "b" (Some 2%Z) None] ∅).

(** C3, counterexample: two endpoints were attempted and both failed, but
    the error of the simple manager carries the failure of [b] only. *)
Lemma C3_counterexample :
  let r := Simple.get_connection "postgres" "admin" 5 all_down in
  host_of <$> Sim.opened (world r.2) = ["a"; "b"] ∧
  r.1 = Raise (Exception
                 "Failed to connect to any endpoint: could not connect to b").
Proof. cbv zeta. split; vm_compute; reflexivity. Qed.

(** Both endpoints answer the probes and the database refuses both. *)
Definition all_refused : state Sim.world Hybrid.manager :=
  State (net (λ _ host, if decide (host = "a") then Some 5%Q else Some 1%Q)
             (λ _, Done []) refuse)
        (hybrid [ep "a" (Some 1%Z) None; ep "b" (Some 2%Z) None]).

Definition all_refused_1 := (Hybrid.get_healthy_endpoints all_refused).2.
Definition all_refused_lats :=
  returned [] (hybrid_measured [0; 1]%nat all_refused_1).1.
Definition all_refused_2 := (hybrid_measured [0; 1]%nat all_refused_1).2.
Definition all_refused_3 :=
  (hybrid_attempts "postgres" "admin" [1; 0]%nat all_refused_2).2.
Definition all_down_1 := (Simple._check_endpoints all_down).2.
Definition all_down_2 :=
  (simple_attempts "postgres" "admin" 5 [0; 1]%nat all_down_1).2.

Lemma C3_witness :
  Hybrid.get_connection "postgres" "admin" all_refused
  = (Raise (Exception
      ("Failed to connect to any DSQL endpoint:" +:+ newline +:+
       "Failed to connect to b: could not connect to b" +:+ newline +:+
       "Failed to connect to a: could not connect to a")), all_refused_3) ∧
  Simple.get_connection "postgres" "admin" 5 all_down
  = (Raise (Exception
       "Failed to connect to any endpoint: could not connect to b"),
     all_down_2).
Proof.
  split.
  - destruct (proj1 C3_all_attempts_fail
                all_refused all_refused_1 all_refused_2 all_refused_3
                "postgres" "admin" [0; 1]%nat all_refused_lats
                [Exception "could not connect to b";
                 Exception "could not connect to a"]) as (_ & Hrun);
      [vm_compute; reflexivity|done|vm_compute; reflexivity..|].
    rewrite Hrun. vm_compute. reflexivity.
  - destruct (proj2 C3_all_attempts_fail
                all_down all_down_1 all_down_2 "postgres" "admin" 5%Z
                [Exception "could not connect to a";
                 Exception "could not connect to b"]) as (_ & Hrun);
      [vm_compute; reflexivity..|].
    rewrite Hrun. vm_compute. reflexivity.
Defined.

(** ** C4 *)

(** C4, the code at the failing input.  A hybrid manager built by
    [__init__] from a list of endpoints has the default settings, which
    name no [sslmode]: its connection is opened without that argument,
    leaving TLS to the driver's default.  The simple manager, given the
    same endpoint in the same world, passes [sslmode='require']. *)
Lemma C4_default_settings_pass_no_sslmode :
  let endpoint := ep "a" (Some 1%Z) None in
  let w := net (λ _ _, Some 1%Q) (λ _, Done []) accept in
  let sslmodes (opened : list (gmap string pyval)) :=
    (λ params, params !! "sslmode") <$> opened in
  ∃ built,
    Hybrid.init [endpoint] None 60 2 3 5 true = Ret built ∧
    let hybrid_run :=
      Hybrid.get_connection "postgres" "admin" (State w built) in
    let simple_run :=
      Simple.get_connection "postgres" "admin" 5
        (State w (Simple.Manager [endpoint] ∅)) in
    Hybrid.connection_settings built !! "sslmode" = None ∧
    (∃ c, hybrid_run.1 = Ret c ∧ dsn c !! "sslmode" = None) ∧
    sslmodes (Sim.opened (world hybrid_run.2)) = [None] ∧
    (∃ c, simple_run.1 = Ret c) ∧
    sslmodes (Sim.opened (world simple_run.2)) = [Some (PStr "require")].
Proof.
  cbv zeta. eexists. split; [reflexivity|]. split_and!.
  - vm_compute. reflexivity.
  - eexists. split; vm_compute; reflexivity.
  - vm_compute. reflexivity.
  - eexists. vm_compute. reflexivity.
  - vm_compute. reflexivity.
Qed.

(** ** C5 *)

(** Route 53 answers with an empty list of observations. *)
Definition no_observation : state Sim.world Hybrid.manager :=
  State (net (λ _ _, Some 1%Q) (λ _, Done []) accept)
        (hybrid [ep "a" (Some 1%Z) (Some "hc-a")]).

(** C5, counterexample: the cache misses and the external call returns
    (an empty list); the verdict is "unhealthy" and nothing is cached. *)
Lemma C5_counterexample :
  let r := Hybrid.check_route53_health "hc-a" no_observation in
  Hybrid.health_check_cache (self no_observation) !! "hc-a" = None ∧
  (get_health_check_status "hc-a" (world no_observation)).1 = Done [] ∧
  r.1 = Ret false ∧
  Hybrid.health_check_cache (self r.2) !! "hc-a" = None.
Proof. cbv zeta. split_and!; vm_compute; reflexivity. Qed.

Definition observed : state Sim.world Hybrid.manager :=
  State (net (λ _ _, Some 1%Q)
             (λ _, Done ["Failure: timeout"; "SUCCESS: HTTP Status Code 200"])
             accept)
        (hybrid [ep "a" (Some 1%Z) (Some "hc-a")]).

Lemma C5_witness :
  Hybrid.check_route53_health "hc-a" observed
  = (Ret true,
     State (world observed)
           (Hybrid.set_cache <["hc-a" := (true, 0%Q)]> (self observed))).
Proof.
  rewrite (C5_cache_write_on_miss observed "hc-a" 0%Q (world observed)
             (Done ["Failure: timeout"; "SUCCESS: HTTP Status Code 200"])
             (world observed)); reflexivity.
Defined.

(** ** C6 *)

(** The first connect to [a] takes 1 s and every later one 9 s; a connect
    to [b] always takes 5 s. *)
Definition changing (n : nat) (host : string) : option Q :=
  if decide (host = "a")
  then (if decide (n = 0%nat) then Some 1%Q else Some 9%Q)
  else Some 5%Q.

Definition changing_simple : state Sim.world Simple.manager :=
  State (net changing (λ _, Done []) refuse)
        (Simple.Manager [ep "a" (Some 1%Z) None; ep "b" (Some 2%Z) None] ∅).

(** C6, counterexample: averaged over three connects [b] is the faster
    endpoint, but the simple manager makes one connect per endpoint, the
    probe of its health evaluation, and ranks [a] first on it. *)
Lemma C6_counterexample :
  let r := Simple.get_connection "postgres" "admin" 5 changing_simple in
  let averaged host :=
    Hybrid.average
      (omap id (dial_results 3 host 5432 2 (world changing_simple)).1) in
  Qltb (averaged "b") (averaged "a") = true ∧
  Sim.dials (world r.2) = 2%nat ∧
  latency <$> Simple.endpoints (self r.2)
  = [Some (Fin 1000); Some (Fin 5000)] ∧
  host_of <$> Sim.opened (world r.2) = ["a"; "b"].
Proof. cbv zeta. split_and!; vm_compute; reflexivity. Qed.

Definition changing_hybrid : state Sim.world Hybrid.manager :=
  State (net changing (λ _, Done []) refuse)
        (hybrid [ep "a" (Some 1%Z) None; ep "b" (Some 2%Z) None]).

Definition changing_1 := (Hybrid.get_healthy_endpoints changing_hybrid).2.
Definition changing_lats :=
  returned [] (hybrid_measured [0; 1]%nat changing_1).1.
Definition changing_2 := (hybrid_measured [0; 1]%nat changing_1).2.

Lemma C6_witness :
  Hybrid.get_connection "postgres" "admin" changing_hybrid
  = Hybrid.try_endpoints "postgres" "admin" [1; 0]%nat [] changing_2 ∧
  (Hybrid.rank_key (Hybrid.endpoints (self changing_2)) 0%nat).1
  = default Inf (changing_lats !! 0%nat).
Proof.
  destruct (proj1 C6_latency_used_for_ranking
              changing_hybrid changing_1 changing_2 "postgres" "admin"
              [0; 1]%nat changing_lats) as (Hrun & _ & _ & Hkey);
    [vm_compute; reflexivity|done|vm_compute; reflexivity|].
  split.
  - rewrite Hrun. vm_compute. reflexivity.
  - apply (Hkey 0%nat); vm_compute; reflexivity.
Defined.

(** ** C7 *)

Definition measured (host : string) (prio : option Z) : endpoint :=
  Endpoint host "us-east-1" (Some 5432%Z) (Some ("cluster-" +:+ host))
           prio None (Some (Fin 1)) (Some true).

(** C7, counterexample: at equal latency, the endpoint that declares no
    priority is ranked in front of the one that declares priority 1000. *)
Lemma C7_counterexample :
  let endpoints := [measured "a" (Some 1000%Z); measured "b" None] in
  latency (endpoints !!! 0%nat) = latency (endpoints !!! 1%nat) ∧
  priority (endpoints !!! 0%nat) = Some 1000%Z ∧
  priority (endpoints !!! 1%nat) = None ∧
  Hybrid.rank endpoints [0; 1]%nat = [1; 0]%nat.
Proof. cbv zeta. split_and!; vm_compute; reflexivity. Qed.

Lemma C7_witness :
  let endpoints := [measured "a" (Some 1%Z); measured "b" None] in
  Hybrid.key_ltb (Hybrid.rank_key endpoints 0%nat)
                 (Hybrid.rank_key endpoints 1%nat) = true.
Proof.
  cbv zeta.
  destruct (C7_ranking_is_stable_sort
              [measured "a" (Some 1%Z); measured "b" None] [0; 1]%nat)
    as ((_ & _ & _ & Hprio) & _).
  apply (Hprio 0%nat 1%nat 1%Z); [vm_compute; reflexivity|reflexivity..|lia].
Defined.

(** ** C8 *)

(** Whatever the host, the first connect fails, the second takes 1 s and
    every later one 3 s. *)
Definition flaky (n : nat) (host : string) : option Q :=
  match n with
  | 0%nat => None
  | 1%nat => Some 1%Q
  | _ => Some 3%Q
  end.

Definition flaky_simple : state Sim.world Simple.manager :=
  State (net flaky (λ _, Done []) accept) (Simple.Manager [ep "a" None None] ∅).

Definition flaky_hybrid : state Sim.world Hybrid.manager :=
  State (net flaky (λ _, Done []) accept) (hybrid [ep "a" None None]).

(** The connects take 1 s, 1 s and 2 s. *)
Definition uneven (n : nat) (host : string) : option Q :=
  match n with
  | 2%nat => Some 2%Q
  | _ => Some 1%Q
  end.

Definition uneven_hybrid : state Sim.world Hybrid.manager :=
  State (net uneven (λ _, Done []) accept) (hybrid [ep "a" None None]).

(** Rounding to the nearest number with 53 significant bits, ties to
    even: the rounding of binary64, without its bounds on the exponent.
    The sums of the run below are integers, which no summation rounds. *)
Definition round53 (x : Q) : Q :=
  let n := Qnum x in
  let d := Z.pos (Qden x) in
  if (n =? 0)%Z then 0%Q else
  let a := Z.abs n in
  let scaled (e : Z) : Z * Z :=
    if (0 <=? e)%Z then (a, d * 2 ^ e)%Z else (a * 2 ^ (- e), d)%Z in
  let e0 := (Z.log2 a - Z.log2 d - 52)%Z in
  let e :=
    if ((scaled e0).1 / (scaled e0).2 <? 2 ^ 52)%Z then (e0 - 1)%Z else e0 in
  let num := (scaled e).1 in
  let den := (scaled e).2 in
  let m := (num / den)%Z in
  let r := (num mod den)%Z in
  let m :=
    if (den <? 2 * r)%Z then (m + 1)%Z
    else if ((2 * r =? den)%Z && Z.odd m)%bool then (m + 1)%Z
    else m in
  let v :=
    if (0 <=? e)%Z then inject_Z (m * 2 ^ e)
    else Qred (Qmake m (Z.to_pos (2 ^ (- e)))) in
  if (n <? 0)%Z then Qopp v else v.

Definition binary64 : Float64 := {|
  fsub x y := round53 (x - y);
  fmul x y := round53 (x * y);
  fdiv x y := round53 (x / y);
  fsum := foldl (λ acc x, round53 (acc + x)) 0%Q;
|}.

(** C8, counterexample.  The first connect fails and the next two
    succeed: measured with three attempts the latency is finite (2 s),
    but the simple manager's measurement has no retry count and returns
    the sentinel with [False] after its single connect.  And in binary64
    arithmetic the float returned for the latencies 1, 1 and 2 is not
    their arithmetic mean. *)
Lemma C8_counterexample :
  let three := Hybrid.measure_latency (ep "a" None None) flaky_hybrid in
  let one := Simple._measure_endpoint "a" 5432 flaky_simple in
  let rounded :=
    @Hybrid.measure_latency Sim.world _ binary64 (ep "a" None None)
                            uneven_hybrid in
  omap id (dial_results 3 "a" 5432 2 (world flaky_simple)).1 = [1; 3]%Q ∧
  float_eqb (returned Inf three.1) (Fin 2) = true ∧
  one.1 = Ret (Inf, false) ∧
  Sim.dials (world one.2) = 1%nat ∧
  omap id (@dial_results Sim.world _ binary64 3 "a" 5432 2
             (world uneven_hybrid)).1 = [1; 1; 2]%Q ∧
  ∃ v, rounded.1 = Ret (Fin v) ∧ Qeq_bool v (mean [1; 1; 2]%Q) = false.
Proof.
  cbv zeta. split_and!; [vm_compute; reflexivity..|].
  eexists. split; vm_compute; reflexivity.
Qed.

Lemma C8_witness :
  Hybrid.measure_latency (ep "a" None None) flaky_hybrid
  = (Ret (Fin (Hybrid.average [1; 3]%Q)),
     State (dial_results 3 "a" 5432 2 (world flaky_hybrid)).2
           (self flaky_hybrid)) ∧
  (Hybrid.average [1; 3]%Q == mean [1; 3]%Q)%Q ∧
  Simple._measure_endpoint "a" 5432 tie
  = (Ret (Fin 1000, true),
     State (dial_results 1 "a" 5432 2 (world tie)).2 (self tie)).
Proof.
  split_and!.
  - pose proof (proj1 C8_latency_measurement flaky_hybrid (ep "a" None None))
      as [_ Hrun].
    rewrite Hrun. vm_compute. reflexivity.
  - apply (proj1 (proj2 C8_latency_measurement)).
  - rewrite (proj2 (proj2 C8_latency_measurement)). vm_compute. reflexivity.
Defined.

(** ** C9 *)



(** ** C10 *)


End Examples.

(** * Further properties of the hybrid manager's health evaluation *)

Section HealthEvaluation.
Context `{World W} `{Float64}.
Abbreviation HSt := (state W Hybrid.manager).
Local Open Scope monad_scope.

Lemma cached_result_fresh (self : Hybrid.manager) id cached timestamp now :
  Hybrid.health_check_cache self !! id = Some (cached, timestamp) →
  Qltb (fsub now timestamp) (inject_Z (Hybrid.health_check_ttl self)) = true →
  Hybrid.cached_result self id now = Some cached.
Proof. intros Hc Hage. unfold Hybrid.cached_result. by rewrite Hc, Hage. Qed.

Lemma cached_result_expired (self : Hybrid.manager) id cached timestamp now :
  Hybrid.health_check_cache self !! id = Some (cached, timestamp) →
  (inject_Z (Hybrid.health_check_ttl self) <= fsub now timestamp)%Q →
  Hybrid.cached_result self id now = None.
Proof.
  intros Hc Hage. unfold Hybrid.cached_result, Qltb. rewrite Hc.
  by rewrite (proj2 (Qle_bool_iff _ _) Hage).
Qed.

(** X1.  Two health checks of the same id in a row, the second within the
    TTL of the first: when the first misses the cache and Route 53 answers
    with observations, the second returns the same verdict from the cache.
    Between the two the world is only asked for the time: Route 53 is not
    queried again, and the cached timestamp is still that of the first
    call. *)
Theorem X1_second_check_within_ttl_is_cached
    (st : HSt) id now1 w1 status rest w2 now2 w3 :
  time_time (world st) = (now1, w1) →
  Hybrid.cached_result (self st) id now1 = None →
  get_health_check_status id w1 = (Done (status :: rest), w2) →
  time_time w2 = (now2, w3) →
  Qltb (fsub now2 now1) (inject_Z (Hybrid.health_check_ttl (self st))) = true →
  let verdict := existsb Hybrid.is_success (status :: rest) in
  (first <- Hybrid.check_route53_health id ;;
   second <- Hybrid.check_route53_health id ;;
   ret (first, second)) st
  = (Ret (verdict, verdict),
     State w3 (Hybrid.set_cache <[id := (verdict, now1)]> (self st))).
Proof.
  intros Hnow1 Hmiss Hresp Hnow2 Hage verdict. subst verdict.
  set (verdict := existsb Hybrid.is_success (status :: rest)).
  pose proof (hybrid_route53_miss st id now1 w1 _ w2 Hnow1 Hmiss Hresp) as Hfirst.
  cbv beta iota zeta in Hfirst. fold verdict in Hfirst.
  rewrite (bind_ret_eq _ _ _ _ _ Hfirst).
  pose proof (hybrid_route53_hit
                (State w2 (Hybrid.set_cache <[id := (verdict, now1)]> (self st)))
                id now2 w3 verdict Hnow2
                (cached_result_fresh
                   (Hybrid.set_cache <[id := (verdict, now1)]> (self st))
                   id verdict now1 now2
                   (lookup_insert_eq (Hybrid.health_check_cache (self st)) id
                                     (verdict, now1)) Hage)) as Hsecond.
  by rewrite (bind_ret_eq _ _ _ _ _ Hsecond).
Qed.

(** X2.  A cached verdict whose age has reached the TTL is not used: Route
    53 is queried.  A non-empty answer replaces the entry; on an empty
    answer or an error the verdict is "unhealthy" whatever the expired
    entry said, and the expired entry stays in the cache. *)
Theorem X2_expired_entry_is_not_used
    (st : HSt) id cached timestamp now w1 response w2 :
  Hybrid.health_check_cache (self st) !! id = Some (cached, timestamp) →
  time_time (world st) = (now, w1) →
  (inject_Z (Hybrid.health_check_ttl (self st)) <= fsub now timestamp)%Q →
  get_health_check_status id w1 = (response, w2) →
  Hybrid.check_route53_health id st
  = match response with
    | Done (status :: rest) =>
        let verdict := existsb Hybrid.is_success (status :: rest) in
        (Ret verdict,
         State w2 (Hybrid.set_cache <[id := (verdict, now)]> (self st)))
    | Done [] | Fails _ => (Ret false, State w2 (self st))
    end.
Proof.
  intros Hc Hnow Hage Hresp.
  apply (hybrid_route53_miss st id now w1 response w2); [done| |done].
  by eapply cached_result_expired.
Qed.

(** ** Who is reported healthy *)

Definition same_endpoints (endpoints : list endpoint) (m : Hybrid.manager) : Prop :=
  Hybrid.endpoints m = endpoints.

Lemma same_endpoints_cache_blind endpoints : cache_blind (same_endpoints endpoints).
Proof. by intros m f. Qed.

(** X3.  [get_healthy_endpoints] cannot raise, whatever Route 53 and the
    network do.  It returns references into [self.endpoints] in list
    order, each at most once, and it changes nothing of the manager but
    the health-check cache. *)
Theorem X3_health_evaluation_is_total (st : HSt) :
  ∃ healthy st1,
    Hybrid.get_healthy_endpoints st = (Ret healthy, st1) ∧
    sublist healthy (seq 0 (length (Hybrid.endpoints (self st)))) ∧
    NoDup healthy ∧
    Hybrid.endpoints (self st1) = Hybrid.endpoints (self st) ∧
    settings_of (self st1) = settings_of (self st).
Proof.
  destruct (hybrid_get_healthy_run st) as (healthy & st1 & Hget & Hsub & Hfr).
  exists healthy, st1. split_and!; [done..|by eapply sublist_seq_NoDup| |].
  - eapply (hybrid_get_healthy_stable (same_endpoints _)); [| |exact Hget].
    + apply same_endpoints_cache_blind.
    + done.
  - by destruct Hfr.
Qed.

(** The health checks that the loop of [get_healthy_endpoints] makes for
    the endpoints of [l], one after the other, each with its verdict. *)
Definition hybrid_health_checks (l : list ref) : M HSt (list bool) :=
  map_m (λ i, endpoint <- Hybrid.deref i ;;
              Hybrid.is_endpoint_healthy endpoint) l.

(** The endpoints of [l] whose verdict is [True]. *)
Definition passed (l : list ref) (verdicts : list bool) : list ref :=
  (filter (λ p, p.2 = true) (zip l verdicts)).*1.

Lemma passed_cons i l (v : bool) verdicts :
  passed (i :: l) (v :: verdicts)
  = if v then i :: passed l verdicts else passed l verdicts.
Proof.
  unfold passed. simpl. rewrite filter_cons. simpl.
  destruct v; by case_decide.
Qed.

Lemma passed_members l : ∀ verdicts i, i ∈ passed l verdicts → i ∈ l.
Proof.
  induction l as [|j l IH]; intros [|v verdicts] i Hi;
    try (by apply elem_of_nil in Hi).
  rewrite passed_cons in Hi. destruct v.
  - apply elem_of_cons in Hi as [->|Hi]; [left|right; eauto].
  - right. eauto.
Qed.

(** The loop of [get_healthy_endpoints], cut after the endpoints of
    [l1]. *)
Lemma hybrid_collect_split l1 : ∀ l2 acc (st : HSt),
  ∃ verdicts s,
    hybrid_health_checks l1 st = (Ret verdicts, s) ∧
    Hybrid.endpoints (self s) = Hybrid.endpoints (self st) ∧
    Hybrid.collect_healthy (l1 ++ l2) acc st
    = Hybrid.collect_healthy l2 (acc ++ passed l1 verdicts) s.
Proof.
  induction l1 as [|i l1 IH]; intros l2 acc st.
  - exists [], st. split_and!; [done..|]. simpl. by rewrite app_nil_r.
  - destruct (hybrid_is_healthy_noraise (Hybrid.endpoints (self st) !!! i) st)
      as (h & s1 & Hh).
    assert ((endpoint <- Hybrid.deref i ;;
             Hybrid.is_endpoint_healthy endpoint) st = (Ret h, s1)) as Hone
      by done.
    assert (Hybrid.endpoints (self s1) = Hybrid.endpoints (self st)) as Heps.
    { eapply (hybrid_is_healthy_stable (same_endpoints _)); [| |exact Hh].
      - apply same_endpoints_cache_blind.
      - done. }
    destruct (IH l2 (if h then acc ++ [i] else acc) s1)
      as (verdicts & s & Hrun & Hs & Hrest).
    exists (h :: verdicts), s. split_and!.
    + unfold hybrid_health_checks in *. simpl.
      rewrite (bind_ret_eq _ _ _ _ _ Hone).
      by rewrite (bind_ret_eq _ _ _ _ _ Hrun).
    + by rewrite Hs.
    + rewrite passed_cons.
      assert (Hybrid.collect_healthy ((i :: l1) ++ l2) acc st
              = Hybrid.collect_healthy (l1 ++ l2)
                  (if h then acc ++ [i] else acc) s1) as ->.
      { simpl. unfold Hybrid.deref, get_self. unfold bind at 1 2.
        unfold ret at 1. by rewrite (bind_ret_eq _ _ _ _ _ Hh). }
      rewrite Hrest. destruct h; [|done]. by rewrite <- app_assoc.
Qed.

(** X4.  Every endpoint that [get_healthy_endpoints] returns passed its
    health check in that call.  The call is the loop over [self.endpoints]:
    for a returned endpoint, the loop first checks the endpoints in front
    of it, reaching a state [s]; in [s] the check of the endpoint itself
    returns [True]; and the rest of the loop, run from the state which
    that check left, ends the call with the list returned.  An endpoint
    without a [port] is returned only if it has a non-empty
    [health_check_id]: probed directly, it is unhealthy (the missing key
    is caught in [check_direct_health]). *)
Theorem X4_healthy_endpoints_passed_their_check (st st1 : HSt) healthy i :
  Hybrid.get_healthy_endpoints st = (Ret healthy, st1) →
  i ∈ healthy →
  let endpoints := Hybrid.endpoints (self st) in
  let endpoint := endpoints !!! i in
  (∃ verdicts (s s' : HSt),
     hybrid_health_checks (seq 0 i) st = (Ret verdicts, s) ∧
     Hybrid.endpoints (self s) = endpoints ∧
     Hybrid.is_endpoint_healthy endpoint s = (Ret true, s') ∧
     Hybrid.collect_healthy (seq (S i) (length endpoints - S i))
                            (passed (seq 0 i) verdicts ++ [i]) s'
     = (Ret healthy, st1)) ∧
  (port endpoint = None →
   ∃ id, health_check_id endpoint = Some id ∧ id ≠ "").
Proof.
  intros Hget Hi. cbv zeta.
  set (endpoints := Hybrid.endpoints (self st)).
  assert (i < length endpoints)%nat as Hlt.
  { destruct (hybrid_get_healthy_run st) as (hs & s & Hrun & Hsub & _).
    rewrite Hget in Hrun. injection Hrun as <- <-.
    eapply elem_of_sublist in Hi; [|exact Hsub].
    apply elem_of_seq in Hi. subst endpoints. lia. }
  assert (seq 0 (length endpoints)
          = seq 0 i ++ i :: seq (S i) (length endpoints - S i)) as Hsplit.
  { replace (length endpoints) with (i + S (length endpoints - S i))%nat
      at 1 by lia.
    by rewrite seq_app, <- cons_seq. }
  destruct (hybrid_collect_split (seq 0 i)
              (i :: seq (S i) (length endpoints - S i)) [] st)
    as (verdicts & s & Hbefore & Hs & Hloop).
  fold endpoints in Hs.
  assert (Hybrid.get_healthy_endpoints st
          = (healthy <- Hybrid.is_endpoint_healthy (endpoints !!! i) ;;
             Hybrid.collect_healthy (seq (S i) (length endpoints - S i))
               (if healthy : bool then passed (seq 0 i) verdicts ++ [i]
                else passed (seq 0 i) verdicts)) s) as Heq.
  { unfold Hybrid.get_healthy_endpoints, get_self. unfold bind at 1.
    fold endpoints. rewrite Hsplit, Hloop. simpl.
    unfold Hybrid.deref, get_self. unfold bind at 1 2. unfold ret at 1.
    by rewrite Hs. }
  rewrite Heq in Hget.
  apply bind_inv in Hget as [(h & s' & Hh & Hrest)|(? & _ & ?)]; [|done].
  assert (h = true) as ->.
  { destruct h; [done|]. exfalso.
    destruct (hybrid_collect_run (seq (S i) (length endpoints - S i))
                (passed (seq 0 i) verdicts) s')
      as (hs & s2 & Hrun & Hsub).
    rewrite Hrun in Hrest. injection Hrest as <- _.
    apply elem_of_app in Hi as [Hi|Hi].
    - apply passed_members, elem_of_seq in Hi. lia.
    - eapply elem_of_sublist in Hi; [|exact Hsub].
      apply elem_of_seq in Hi. lia. }
  split; [by exists verdicts, s, s'|]. intros Hport.
  unfold Hybrid.is_endpoint_healthy in Hh.
  assert (∀ s0 : HSt,
            Hybrid.check_direct_health (endpoints !!! i) s0 ≠ (Ret true, s'))
    as Hdirect.
  { intros s0. unfold Hybrid.check_direct_health. rewrite Hport. done. }
  destruct (health_check_id (endpoints !!! i)) as [id|];
    [|by destruct (Hdirect s)].
  exists id. split; [done|]. intros ->. by destruct (Hdirect s).
Qed.
End HealthEvaluation.

(** * Missing keys and the bounds of the retry count *)

Section NoAttempt.
Context `{World W} `{Float64} {Mgr : Type}.

(** No connection attempt at all since [before]. *)
Definition no_attempt (before : list (gmap string pyval))
    : state (Recorded.world W) Mgr → Prop :=
  only_attempts before (λ _, False).

Lemma no_attempt_eq before (s : state (Recorded.world W) Mgr) :
  no_attempt before s → Recorded.attempts (world s) = before.
Proof.
  intros (new & -> & Hall). destruct new as [|p new]; [by rewrite app_nil_r|].
  by apply Forall_cons in Hall as [[] _].
Qed.
End NoAttempt.

Section MeasuringLoop.
Context `{World W} `{Float64}.
Abbreviation HSt := (state W Hybrid.manager).
Local Open Scope monad_scope.

(** One turn of the measuring loop on an endpoint that has a port. *)
Lemma hybrid_measure_endpoint_run (st : HSt) i p :
  port (Hybrid.endpoints (self st) !!! i) = Some p →
  ∃ v w',
    Hybrid.measure_latency (Hybrid.endpoints (self st) !!! i) st
    = (Ret v, State w' (self st)) ∧
    Hybrid.measure_endpoint i st
    = (Ret (), State w' (Hybrid.set_endpoints (alter (set_latency v) i) (self st))) ∧
    hybrid_measure_one i st
    = (Ret v, State w' (Hybrid.set_endpoints (alter (set_latency v) i) (self st))).
Proof.
  intros Hp.
  pose proof (hybrid_measure_latency_run st _ p Hp) as Hrun. simpl in Hrun.
  eexists _, _. split; [exact Hrun|].
  unfold Hybrid.measure_endpoint, hybrid_measure_one, Hybrid.deref,
         Hybrid.update.
  unfold bind, get_self, ret, modify_self. simpl. by rewrite Hrun.
Qed.

Lemma hybrid_measuring_missing_port l : ∀ (st : HSt) i,
  i ∈ l → port (Hybrid.endpoints (self st) !!! i) = None →
  (for_each l Hybrid.measure_endpoint st).1 = Raise (KeyError "port").
Proof.
  induction l as [|j l IH]; intros st i Hi Hport; [by apply elem_of_nil in Hi|].
  simpl. destruct (port (Hybrid.endpoints (self st) !!! j)) as [p|] eqn:Hj.
  - destruct (hybrid_measure_endpoint_run st j p Hj) as (v & w' & _ & Hrun & _).
    rewrite (bind_ret_eq _ _ _ _ _ Hrun).
    apply elem_of_cons in Hi as [->|Hi]; [congruence|].
    apply (IH _ i Hi). simpl.
    destruct (decide (j = i)) as [->|Hne]; [congruence|].
    by rewrite list_lookup_total_alter_ne.
  - assert (Hybrid.measure_endpoint j st = (Raise (KeyError "port"), st)) as Hrun.
    { unfold Hybrid.measure_endpoint, Hybrid.deref.
      unfold bind at 1 2. unfold get_self, ret at 1.
      by rewrite (bind_raise_eq _ _ _ _ _
                    (hybrid_measure_latency_no_port st _ Hj)). }
    by rewrite (bind_raise_eq _ _ _ _ _ Hrun).
Qed.

End MeasuringLoop.

Section MissingKeys.
Context `{World W} `{Float64}.
Abbreviation HSt := (state W Hybrid.manager).
Abbreviation RHSt := (state (Recorded.world W) Hybrid.manager).
Local Open Scope monad_scope.

Lemma hybrid_health_no_attempt before :
  stable (no_attempt (Mgr:=Hybrid.manager) before)
         (Hybrid.get_healthy_endpoints (W:=Recorded.world W)).
Proof.
  assert (∀ l acc,
    stable (no_attempt (Mgr:=Hybrid.manager) before)
           (Hybrid.collect_healthy (W:=Recorded.world W) l acc)) as Hcollect.
  { induction l as [|i l IH]; intros acc; simpl; [apply stable_ret|].
    unfold Hybrid.deref, Hybrid.is_endpoint_healthy,
           Hybrid.check_route53_health, Hybrid.check_direct_health.
    repeat first [apply IH | trace_step]. }
  unfold Hybrid.get_healthy_endpoints. repeat first [apply Hcollect | trace_step].
Qed.

Lemma hybrid_measuring_no_attempt before l :
  stable (no_attempt (Mgr:=Hybrid.manager) before)
         (for_each l (Hybrid.measure_endpoint (W:=Recorded.world W))).
Proof.
  assert (∀ n hostname port timeout latencies,
    stable (no_attempt (Mgr:=Hybrid.manager) before)
           (Hybrid.measure_attempts (W:=Recorded.world W)
              n hostname port timeout latencies)) as Hattempts.
  { induction n as [|n IH]; intros; simpl; [apply stable_ret|].
    repeat first [apply IH | trace_step]. }
  apply stable_for_each. intros i.
  unfold Hybrid.measure_endpoint, Hybrid.measure_latency, Hybrid.deref,
         Hybrid.update.
  repeat first [apply Hattempts | trace_step].
Qed.

(** X6.  A missing [port] is fatal once the endpoint is healthy: when any
    endpoint returned by the health evaluation has no [port],
    [get_connection] raises [KeyError('port')] from the measuring loop.
    The other healthy endpoints are not tried: no connection attempt is
    made at all. *)
Theorem X6_healthy_endpoint_without_port_is_fatal
    (st st1 : RHSt) database username healthy i :
  Hybrid.get_healthy_endpoints st = (Ret healthy, st1) →
  i ∈ healthy →
  port (Hybrid.endpoints (self st) !!! i) = None →
  let r := Hybrid.get_connection database username st in
  r.1 = Raise (KeyError "port") ∧
  Recorded.attempts (world r.2) = Recorded.attempts (world st).
Proof.
  intros Hget Hi Hport r. subst r.
  assert (Hybrid.endpoints (self st1) = Hybrid.endpoints (self st)) as Heps.
  { eapply (hybrid_get_healthy_stable (same_endpoints _)); [| |exact Hget].
    - apply same_endpoints_cache_blind.
    - done. }
  assert (no_attempt (Recorded.attempts (world st)) st1) as Hnone1.
  { eapply hybrid_health_no_attempt; [|exact Hget]. apply only_attempts_init. }
  unfold Hybrid.get_connection. rewrite (bind_ret_eq _ _ _ _ _ Hget).
  destruct healthy as [|j l]; [by apply elem_of_nil in Hi|].
  destruct (for_each (j :: l) Hybrid.measure_endpoint st1) as [o s2] eqn:Hrun.
  assert (o = Raise (KeyError "port")) as ->.
  { change o with (o, s2).1. rewrite <- Hrun.
    apply (hybrid_measuring_missing_port _ _ i Hi). by rewrite Heps. }
  rewrite (bind_raise_eq _ _ _ _ _ Hrun). split; [done|]. simpl.
  apply no_attempt_eq. by eapply hybrid_measuring_no_attempt.
Qed.

(** X7.  A missing [cluster_id] is a failure of that endpoint only: its
    turn in the connection loop records "Failed to connect to <hostname>:
    'cluster_id'" and the loop goes on with the next endpoint in the same
    state, no token having been minted and no connection attempted for
    it. *)
Theorem X7_missing_cluster_id_is_soft
    (st : HSt) database username i rest errors :
  cluster_id (Hybrid.endpoints (self st) !!! i) = None →
  Hybrid.try_endpoints database username (i :: rest) errors st
  = Hybrid.try_endpoints database username rest
      (errors ++ ["Failed to connect to "
                  +:+ hostname (Hybrid.endpoints (self st) !!! i)
                  +:+ ": 'cluster_id'"]) st.
Proof.
  intros Hcid. simpl.
  assert (Hybrid.attempt database username i st
          = (Raise (KeyError "cluster_id"), st)) as Hrun.
  { unfold Hybrid.attempt, Hybrid.deref.
    unfold bind at 1 2. unfold get_self, ret at 1. by rewrite Hcid. }
  rewrite (bind_ret_eq _ _ _ _ _ (catch_raise_eq _ _ _ _ Hrun)).
  unfold Hybrid.deref. unfold bind at 1 2. unfold get_self, ret at 1. done.
Qed.
End MissingKeys.

(** * The exceptions that reach the caller *)

Section RaisesOnly.
Context {Σ : Type}.

(** Whatever [m] raises satisfies [P]. *)
Definition raises_only (P : exn → Prop) {A} (m : M Σ A) : Prop :=
  ∀ s e s', m s = (Raise e, s') → P e.

Lemma raises_only_ret P {A} (a : A) : raises_only P (ret a).
Proof. by intros s e s'. Qed.

Lemma raises_only_raise (P : exn → Prop) {A} e :
  P e → raises_only P (raise (A:=A) e).
Proof. intros He s e' s' [= <- _]. done. Qed.

Lemma raises_only_bind P {A B} (m : M Σ A) (k : A → M Σ B) :
  raises_only P m → (∀ a, raises_only P (k a)) → raises_only P (bind m k).
Proof.
  intros Hm Hk s e s' Hrun.
  apply bind_inv in Hrun as [(a & s1 & _ & Hrun)|(e' & Hrun & [= ->])].
  - by eapply Hk.
  - by eapply Hm.
Qed.

(** The handler of a [try] sees what the body raises only. *)
Lemma raises_only_try_except (Q P : exn → Prop) {A} (m : M Σ A) h :
  raises_only Q m → (∀ e, Q e → raises_only P (h e)) →
  raises_only P (try_except m h).
Proof.
  intros Hm Hh s e s'. unfold try_except.
  destruct (m s) as [[a|e'] s1] eqn:Hrun; [done|].
  apply Hh. by eapply Hm.
Qed.

Lemma raises_only_catch P {A} (m : M Σ A) : raises_only P (catch m).
Proof.
  apply (raises_only_try_except (λ _, True)); [by intros ????|].
  intros e _. apply raises_only_ret.
Qed.

Lemma raises_only_item (P : exn → Prop) {A} key (v : option A) :
  P (KeyError key) → raises_only P (item key v).
Proof. intros Hp. destruct v; [apply raises_only_ret|by apply raises_only_raise]. Qed.

Lemma raises_only_noraise P {A} (m : M Σ A) : noraise m → raises_only P m.
Proof. intros Hm s e s' Hrun. destruct (Hm s) as (a & s1 & Ha). congruence. Qed.
End RaisesOnly.

Section RaisesOnlyState.
Context {W Mgr : Type}.

Lemma raises_only_call_io (P : exn → Prop) {A} (op : W → io A * W) :
  (∀ msg, P (Exception msg)) → raises_only (Σ:=state W Mgr) P (call_io op).
Proof.
  intros Hp. apply raises_only_bind.
  - apply raises_only_noraise, noraise_call.
  - intros [a|msg]; [apply raises_only_ret|by apply raises_only_raise].
Qed.

Lemma raises_only_for_each P {A} (l : list A) (body : A → M (state W Mgr) ()) :
  (∀ x, raises_only P (body x)) → raises_only P (for_each l body).
Proof.
  intros Hb. induction l as [|x l IH]; simpl; [apply raises_only_ret|].
  apply raises_only_bind; [done|]. by intros [].
Qed.
End RaisesOnlyState.

Ltac raises_step :=
  first
    [ apply raises_only_ret | apply raises_only_catch
    | apply raises_only_noraise; first [apply noraise_get_self | apply noraise_call
                                       | apply noraise_modify_self]
    | apply raises_only_call_io; intros ?; simpl; by eauto
    | apply raises_only_raise; simpl; by eauto
    | apply raises_only_item; simpl; by eauto
    | apply raises_only_bind; [|intros ?]
    | match goal with
      | |- raises_only _ (match ?x with _ => _ end) => destruct x
      end ].

Section Outcomes.
Context `{World W} `{Float64}.
Abbreviation HSt := (state W Hybrid.manager).
Abbreviation SSt := (state W Simple.manager).

Definition is_exception (e : exn) : Prop := ∃ msg, e = Exception msg.

Lemma is_exception_intro msg : is_exception (Exception msg).
Proof. by exists msg. Qed.

Lemma simple_attempt_raises database user timeout i :
  raises_only is_exception (Simple.attempt (W:=W) database user timeout i).
Proof.
  unfold Simple.attempt, Simple._generate_auth_token, Simple.deref.
  repeat first
    [ apply (raises_only_try_except is_exception); [|intros ? ?]
    | apply raises_only_call_io; intros ?; apply is_exception_intro
    | apply raises_only_raise; assumption
    | raises_step ].
Qed.

Lemma simple_try_raises database user timeout l :
  ∀ last (st st' : SSt) e,
  Simple.try_endpoints database user timeout l last st = (Raise e, st') →
  l ≠ [] ∨ (∃ e0, last = Some e0 ∧ is_exception e0) →
  ∃ reason,
    e = Exception ("Failed to connect to any endpoint: " +:+ reason).
Proof.
  induction l as [|i l IH]; intros last st st' e Hrun Hlast; simpl in Hrun.
  - destruct Hlast as [?|(e0 & -> & msg & ->)]; [done|].
    injection Hrun as <- _. by exists msg.
  - apply bind_inv in Hrun as [(r & s1 & Hi & Hrun)|(? & Hi & _)].
    + destruct r as [c|e0]; [done|].
      apply catch_inv in Hi as [(? & _ & ?)|(e1 & Hi & [= ->])]; [done|].
      apply (IH _ _ _ _ Hrun). right. exists e1. split; [done|].
      by eapply simple_attempt_raises.
    + by apply catch_inv in Hi as [(? & ? & ?)|(? & ? & ?)].
Qed.

Lemma simple_targets_nonempty endpoints :
  endpoints ≠ [] → Simple.targets_of endpoints ≠ [].
Proof.
  intros Hne. unfold Simple.targets_of.
  destruct (Simple.healthy_of endpoints) as [|h hs] eqn:Hh.
  - destruct endpoints; [done|]. done.
  - intros Hnil. by apply sort_by_nil_inv in Hnil.
Qed.

(** The loop of [get_connection], attempt by attempt: it stops at the
    first attempt that succeeds; otherwise it has tried every target and
    raises with the failure of the last one. *)
Lemma simple_try_cases database user timeout l :
  ∀ last (st : SSt),
  (∃ pre i post errs st1 c st2,
     l = pre ++ i :: post ∧
     simple_attempts database user timeout pre st
       = (Ret (inr <$> errs), st1) ∧
     Simple.attempt database user timeout i st1 = (Ret c, st2) ∧
     Simple.try_endpoints database user timeout l last st = (Ret c, st2)) ∨
  (l = [] ∧
   Simple.try_endpoints database user timeout l last st
   = (Raise (Exception (Simple.error_message last)), st)) ∨
  (∃ pre i errs msg st1 st2,
     l = pre ++ [i] ∧
     simple_attempts database user timeout pre st
       = (Ret (inr <$> errs), st1) ∧
     Simple.attempt database user timeout i st1
       = (Raise (Exception msg), st2) ∧
     Simple.try_endpoints database user timeout l last st
     = (Raise (Exception ("Failed to connect to any endpoint: " +:+ msg)),
        st2)).
Proof.
  induction l as [|i l IH]; intros last st.
  - right. left. done.
  - destruct (Simple.attempt database user timeout i st) as [[c|e] s1] eqn:Hi.
    + left. exists [], i, l, [], st, c, s1. split_and!; [done..|].
      simpl. by rewrite (bind_ret_eq _ _ _ _ _ (catch_ret_eq _ _ _ _ Hi)).
    + assert (is_exception e) as [msg0 ->]
        by (by eapply simple_attempt_raises).
      assert (∀ rest,
        Simple.try_endpoints database user timeout (i :: rest) last st
        = Simple.try_endpoints database user timeout rest
            (Some (Exception msg0)) s1) as Hstep.
      { intros rest. simpl.
        by rewrite (bind_ret_eq _ _ _ _ _ (catch_raise_eq _ _ _ _ Hi)). }
      assert (∀ pre errs s2,
        simple_attempts database user timeout pre s1
          = (Ret (inr <$> errs), s2) →
        simple_attempts database user timeout (i :: pre) st
          = (Ret (inr <$> (Exception msg0 :: errs)), s2)) as Hpre.
      { intros pre errs s2 Hrun. unfold simple_attempts in *. simpl.
        rewrite (bind_ret_eq _ _ _ _ _ (catch_raise_eq _ _ _ _ Hi)).
        by rewrite (bind_ret_eq _ _ _ _ _ Hrun). }
      destruct (IH (Some (Exception msg0)) s1)
        as [(pre & j & post & errs & st1 & c & st2 & -> & Hrun & Hj & Htry)
           |[[-> Htry]
            |(pre & j & errs & msg & st1 & st2 & -> & Hrun & Hj & Htry)]].
      * left. exists (i :: pre), j, post, (Exception msg0 :: errs), st1, c, st2.
        split_and!; [done|by apply Hpre|done|]. by rewrite Hstep.
      * right. right. exists [], i, [], msg0, st, s1.
        split_and!; [done..|]. by rewrite Hstep, Htry.
      * right. right.
        exists (i :: pre), j, (Exception msg0 :: errs), msg, st1, st2.
        split_and!; [done|by apply Hpre|done|]. by rewrite Hstep.
Qed.

(** X8.  What the simple manager's [get_connection] can do with a non-empty
    endpoint list.  After [_check_endpoints] the list of targets is not
    empty, so it makes at least one attempt.  Either some attempt succeeds,
    every attempt in front of it having failed, and the connection of that
    attempt is returned; or every target is attempted, the last attempt
    raises some [Exception(reason)], and [get_connection] raises
    [Exception("Failed to connect to any endpoint: <reason>")] with the
    reason of that last attempt.  So no [KeyError] escapes it, and the bare
    message without a reason does not occur. *)
Theorem X8_simple_get_connection_outcomes (st : SSt) database user timeout :
  Simple.endpoints (self st) ≠ [] →
  ∃ st1,
    Simple._check_endpoints st = (Ret (), st1) ∧
    let targets := Simple.targets_of (Simple.endpoints (self st1)) in
    let attempts := simple_attempts database user timeout in
    let attempt := Simple.attempt database user timeout in
    targets ≠ [] ∧
    ((∃ pre i post errs st2 c st3,
        targets = pre ++ i :: post ∧
        attempts pre st1 = (Ret (inr <$> errs), st2) ∧
        attempt i st2 = (Ret c, st3) ∧
        Simple.get_connection database user timeout st = (Ret c, st3)) ∨
     (∃ pre i errs reason st2 st3,
        targets = pre ++ [i] ∧
        attempts pre st1 = (Ret (inr <$> errs), st2) ∧
        attempt i st2 = (Raise (Exception reason), st3) ∧
        Simple.get_connection database user timeout st
        = (Raise (Exception
                    ("Failed to connect to any endpoint: " +:+ reason)),
           st3))).
Proof.
  intros Hne.
  destruct (simple_check_endpoints_run st)
    as (rs & st1 & _ & Hcheck & Hlen & Heps & _).
  exists st1. split; [done|]. cbv zeta.
  assert (Simple.targets_of (Simple.endpoints (self st1)) ≠ []) as Htargets.
  { apply simple_targets_nonempty. rewrite Heps.
    destruct (Simple.endpoints (self st)) as [|e0 es]; [done|].
    by destruct rs. }
  split; [done|].
  rewrite (simple_get_connection_eq _ _ _ _ _ Hcheck).
  destruct (simple_try_cases database user timeout
              (Simple.targets_of (Simple.endpoints (self st1))) None st1)
    as [(pre & i & post & errs & st2 & c & st3 & Hsplit & Hrun & Hi & Htry)
       |[[Hnil _]
        |(pre & i & errs & msg & st2 & st3 & Hsplit & Hrun & Hi & Htry)]].
  - left. exists pre, i, post, errs, st2, c, st3. done.
  - done.
  - right. exists pre, i, errs, msg, st2, st3. done.
Qed.
Lemma hybrid_measuring_raises l :
  raises_only (λ e, e = KeyError "port")
              (for_each l (Hybrid.measure_endpoint (W:=W))).
Proof.
  assert (∀ n hostname port timeout latencies,
    noraise (Hybrid.measure_attempts (W:=W) n hostname port timeout latencies))
    as Hattempts.
  { induction n as [|n IH]; intros; simpl; [apply noraise_ret|].
    repeat first [apply IH | noraise_step]. }
  apply raises_only_for_each. intros i.
  unfold Hybrid.measure_endpoint, Hybrid.measure_latency, Hybrid.deref,
         Hybrid.update.
  repeat first [apply raises_only_noraise, Hattempts | raises_step].
Qed.

Lemma hybrid_try_raises database username l :
  ∀ errors (st st' : HSt) e,
  Hybrid.try_endpoints database username l errors st = (Raise e, st') →
  ∃ more,
    length more = length l ∧
    e = Exception (Hybrid.all_failed_message (errors ++ more)).
Proof.
  induction l as [|i l IH]; intros errors st st' e Hrun; simpl in Hrun.
  - injection Hrun as <- _. exists []. by rewrite app_nil_r.
  - apply bind_inv in Hrun as [(r & s1 & Hi & Hrun)|(? & Hi & _)].
    + destruct r as [c|e0]; [done|].
      unfold Hybrid.deref in Hrun. unfold bind at 1 2 in Hrun.
      unfold get_self, ret at 1 in Hrun.
      apply IH in Hrun as (more & Hlen & ->).
      eexists (_ :: more). split; [simpl; by rewrite Hlen|].
      by rewrite <- app_assoc.
    + by apply catch_inv in Hi as [(? & ? & ?)|(? & ? & ?)].
Qed.

(** X9.  What the hybrid manager's [get_connection] can raise: "No healthy
    DSQL endpoints available" when the health evaluation returns nothing,
    [KeyError('port')] from the measuring loop, or "Failed to connect to
    any DSQL endpoint:" followed by one line per healthy endpoint (so at
    least one).  Nothing else escapes it; the failures of the attempts
    themselves, a missing [cluster_id] included, are absorbed into those
    lines. *)
Theorem X9_hybrid_get_connection_outcomes (st : HSt) database username :
  ∃ healthy st1,
    Hybrid.get_healthy_endpoints st = (Ret healthy, st1) ∧
    match (Hybrid.get_connection database username st).1 with
    | Ret _ => healthy ≠ []
    | Raise e =>
        (healthy = [] ∧ e = Exception "No healthy DSQL endpoints available") ∨
        (healthy ≠ [] ∧ e = KeyError "port") ∨
        (healthy ≠ [] ∧
         ∃ errors, length errors = length healthy ∧
                   e = Exception (Hybrid.all_failed_message errors))
    end.
Proof.
  destruct (hybrid_get_healthy_run st) as (healthy & st1 & Hget & _ & _).
  exists healthy, st1. split; [done|].
  unfold Hybrid.get_connection. rewrite (bind_ret_eq _ _ _ _ _ Hget).
  destruct healthy as [|i l]; [left; done|].
  destruct (for_each (i :: l) Hybrid.measure_endpoint st1) as [[[]|e] s2] eqn:Hm.
  - rewrite (bind_ret_eq _ _ _ _ _ Hm).
    unfold bind at 1. unfold get_self at 1.
    destruct (Hybrid.try_endpoints _ _ _ _ s2) as [[c|e] s3] eqn:Htry; [done|].
    right; right. split; [done|].
    apply hybrid_try_raises in Htry as (more & Hlen & ->).
    exists more. split; [|done]. rewrite Hlen. unfold Hybrid.rank.
    by rewrite sort_by_perm.
  - rewrite (bind_raise_eq _ _ _ _ _ Hm). right; left. split; [done|].
    by eapply hybrid_measuring_raises.
Qed.
End Outcomes.

(** * The best endpoint, and ranking without measurements *)

Section SortExt.
Context {A K K' : Type} (key : A → K) (ltb : K → K → bool)
        (key' : A → K') (ltb' : K' → K' → bool).

Lemma insert_by_ext x l :
  (∀ y, y ∈ l → ltb (key y) (key x) = ltb' (key' y) (key' x)) →
  insert_by key ltb x l = insert_by key' ltb' x l.
Proof.
  induction l as [|y l IH]; intros Hext; simpl; [done|].
  rewrite <- (Hext y) by left.
  destruct (ltb (key y) (key x)); [|done].
  f_equal. apply IH. intros z Hz. apply Hext. by right.
Qed.

(** Two keys that order the elements of [l] alike sort [l] alike. *)
Lemma sort_by_ext l :
  (∀ x y, x ∈ l → y ∈ l → ltb (key x) (key y) = ltb' (key' x) (key' y)) →
  sort_by key ltb l = sort_by key' ltb' l.
Proof.
  induction l as [|x l IH]; intros Hext; simpl; [done|].
  rewrite <- IH.
  - apply insert_by_ext. intros y Hy. apply Hext; [right|left].
    by rewrite <- (sort_by_perm key ltb l).
  - intros y z Hy Hz. apply Hext; by right.
Qed.
End SortExt.

Section BestEndpoint.
Context `{World W} `{Float64}.
Abbreviation HSt := (state W Hybrid.manager).
Local Open Scope monad_scope.

Lemma key_ltb_irrefl a : Hybrid.key_ltb a a = false.
Proof.
  destruct (Hybrid.key_ltb a a) eqn:Hlt; [|done].
  by rewrite (key_ltb_asym _ _ Hlt) in Hlt.
Qed.

Lemma hybrid_get_best_endpoint_eq (st st1 st2 : HSt) healthy lats :
  Hybrid.get_healthy_endpoints st = (Ret healthy, st1) →
  hybrid_measured healthy st1 = (Ret lats, st2) →
  Hybrid.get_best_endpoint st
  = (Ret (head (Hybrid.rank (Hybrid.endpoints (self st2)) healthy)), st2).
Proof.
  intros Hget Hm. unfold Hybrid.get_best_endpoint.
  rewrite (bind_ret_eq _ _ _ _ _ Hget). destruct healthy as [|i l].
  - by injection Hm as _ <-.
  - assert (for_each (i :: l) Hybrid.measure_endpoint st1 = (Ret (), st2)) as Hf
      by (by rewrite hybrid_for_each_measure_eq, Hm).
    by rewrite (bind_ret_eq _ _ _ _ _ Hf).
Qed.

(** X10.  [get_best_endpoint] returns [None] exactly when the health
    evaluation finds nothing, and otherwise the head of the ranking that
    [get_connection] computes from the same measurements: a healthy
    endpoint whose (latency, priority) key no healthy endpoint beats,
    which is the endpoint [get_connection] tries first. *)
Theorem X10_best_endpoint_heads_the_ranking
    (st st1 st2 : HSt) healthy lats :
  Hybrid.get_healthy_endpoints st = (Ret healthy, st1) →
  hybrid_measured healthy st1 = (Ret lats, st2) →
  let ranked := Hybrid.rank (Hybrid.endpoints (self st2)) healthy in
  Hybrid.get_best_endpoint st = (Ret (head ranked), st2) ∧
  (head ranked = None ↔ healthy = []) ∧
  (∀ i, head ranked = Some i →
     i ∈ healthy ∧
     (∀ j, j ∈ healthy →
        Hybrid.key_ltb (Hybrid.rank_key (Hybrid.endpoints (self st2)) j)
                       (Hybrid.rank_key (Hybrid.endpoints (self st2)) i)
        = false) ∧
     ∀ database username,
       Hybrid.get_connection database username st
       = Hybrid.try_endpoints database username ranked [] st2).
Proof.
  intros Hget Hm ranked. split_and!.
  - by eapply hybrid_get_best_endpoint_eq.
  - subst ranked. unfold Hybrid.rank. split.
    + intros Hnone.
      apply (sort_by_nil_inv
               (Hybrid.rank_key (Hybrid.endpoints (self st2))) Hybrid.key_ltb).
      by destruct (sort_by _ _ _).
    + by intros ->.
  - intros i Hhead. subst ranked. unfold Hybrid.rank in *.
    destruct (sort_by _ _ healthy) as [|i' post] eqn:Hsort; [done|].
    injection Hhead as ->.
    destruct (sort_by_split_le _ _ healthy [] i post
                key_ltb_asym key_ltb_ntrans Hsort) as [Hi Hpost].
    split_and!; [done| |].
    + intros j Hj.
      rewrite <- (sort_by_perm (Hybrid.rank_key (Hybrid.endpoints (self st2)))
                               Hybrid.key_ltb) in Hj.
      rewrite Hsort in Hj. apply elem_of_cons in Hj as [->|Hj].
      * apply key_ltb_irrefl.
      * by apply Hpost.
    + intros database username.
      rewrite (hybrid_get_connection_eq _ _ _ _ _ _ _ Hget ltac:(by intros ->) Hm).
      unfold Hybrid.rank. by rewrite Hsort.
Qed.

(** ** No retries *)

Lemma hybrid_measured_no_retries l : ∀ st : HSt,
  (Hybrid.latency_test_retries (self st) ≤ 0)%Z →
  (∀ i, i ∈ l → is_Some (port (Hybrid.endpoints (self st) !!! i))) →
  ∃ st',
    hybrid_measured l st = (Ret (replicate (length l) Inf), st') ∧
    world st' = world st.
Proof.
  induction l as [|j l IH]; intros st Hretries Hports.
  - by exists st.
  - destruct (Hports j) as [p Hp]; [left|].
    destruct (hybrid_measure_endpoint_run st j p Hp) as (v & w' & Hlat & _ & Hone).
    pose proof (hybrid_measure_latency_run st _ p Hp) as Hrun. simpl in Hrun.
    rewrite Hlat in Hrun.
    replace (Z.to_nat (Hybrid.latency_test_retries (self st))) with 0%nat
      in Hrun by lia.
    simpl in Hrun. injection Hrun as -> ->.
    destruct (IH (State (world st)
                    (Hybrid.set_endpoints (alter (set_latency Inf) j) (self st))))
      as (st' & Hrest & Hworld); [done| |].
    { intros i Hi. simpl. rewrite list_lookup_total_alter.
      case_decide as Hij; [|apply Hports; by right].
      destruct Hij as [<- _]. simpl. by exists p. }
    exists st'. split; [|done]. unfold hybrid_measured in *. simpl.
    by rewrite (bind_ret_eq _ _ _ _ _ Hone), (bind_ret_eq _ _ _ _ _ Hrest).
Qed.

(** X5.  With [latency_test_retries] zero or negative the measuring loop
    connects to nothing: every healthy endpoint gets the infinite latency
    and the world is left as the health evaluation left it.  The ranking
    is then the stable sort of the healthy endpoints on priority alone (a
    missing priority counting as 999), and they are all still tried. *)
Theorem X5_no_retries_ranks_on_priority
    (st st1 : HSt) database username healthy :
  (Hybrid.latency_test_retries (self st) ≤ 0)%Z →
  Hybrid.get_healthy_endpoints st = (Ret healthy, st1) →
  healthy ≠ [] →
  (∀ i, i ∈ healthy → is_Some (port (Hybrid.endpoints (self st) !!! i))) →
  ∃ st2,
    world st2 = world st1 ∧
    (∀ i, i ∈ healthy →
       latency (Hybrid.endpoints (self st2) !!! i) = Some Inf) ∧
    Hybrid.get_connection database username st
    = Hybrid.try_endpoints database username
        (sort_by (λ i, default 999%Z
                         (priority (Hybrid.endpoints (self st2) !!! i)))
                 Z.ltb healthy)
        [] st2.
Proof.
  intros Hretries Hget Hne Hports.
  destruct (hybrid_get_healthy_refs _ _ _ Hget) as (Hnd & Hlt & Hs & _ & _).
  assert (Hybrid.endpoints (self st1) = Hybrid.endpoints (self st)) as Heps.
  { eapply (hybrid_get_healthy_stable (same_endpoints _)); [| |exact Hget].
    - apply same_endpoints_cache_blind.
    - done. }
  destruct (hybrid_measured_no_retries healthy st1) as (st2 & Hm & Hworld).
  { by injection Hs as _ _ _ -> _ _. }
  { by rewrite Heps. }
  assert (∀ i, i ∈ healthy →
            latency (Hybrid.endpoints (self st2) !!! i) = Some Inf) as Hinf.
  { intros i Hi. apply list_elem_of_lookup in Hi as [k Hk].
    apply (hybrid_measured_store _ _ _ _ Hm Hnd Hlt k i Inf Hk).
    rewrite lookup_replicate. split; [done|]. by eapply lookup_lt_Some. }
  exists st2. split_and!; [done..|].
  rewrite (hybrid_get_connection_eq _ _ _ _ _ _ _ Hget Hne Hm).
  f_equal. unfold Hybrid.rank. apply sort_by_ext.
  intros x y Hx Hy. unfold Hybrid.rank_key, Hybrid.key_ltb.
  by rewrite (Hinf x Hx), (Hinf y Hy).
Qed.
End BestEndpoint.

Section BestEndpointTrace.
Context `{World W} `{Float64}.
Abbreviation RHSt := (state (Recorded.world W) Hybrid.manager).

(** X11.  Neither the health evaluation nor [get_best_endpoint] opens a
    database connection: in a world that records them, the list of
    [psycopg2.connect] calls is the same after as before. *)
Theorem X11_selection_makes_no_attempt (st : RHSt) :
  Recorded.attempts (world (Hybrid.get_healthy_endpoints st).2)
  = Recorded.attempts (world st) ∧
  Recorded.attempts (world (Hybrid.get_best_endpoint st).2)
  = Recorded.attempts (world st).
Proof.
  split.
  - apply no_attempt_eq.
    eapply hybrid_health_no_attempt;
      [apply only_attempts_init|apply surjective_pairing].
  - apply no_attempt_eq.
    eapply (stable_bind (no_attempt (Recorded.attempts (world st))));
      [apply hybrid_health_no_attempt| |apply only_attempts_init
      |apply surjective_pairing].
    intros [|i l]; [apply stable_ret|].
    apply stable_bind; [apply hybrid_measuring_no_attempt|].
    intros []. apply stable_bind; [apply stable_get_self|].
    intros self. apply stable_ret.
Qed.
End BestEndpointTrace.

(** * What is passed to the driver, and what is stored *)

Section PassedAndStored.
Context `{World W} `{Float64}.
Abbreviation HSt := (state W Hybrid.manager).
Abbreviation SSt := (state W Simple.manager).
Local Open Scope monad_scope.

(** X12.  The keyword arguments of a connection attempt are a union of
    two dictionaries.  In the simple manager the computed arguments win
    and every configured setting of another name is passed on unchanged
    (a configured [connect_timeout] never is: the argument of
    [get_connection] is used).  In the hybrid manager the configured
    settings win and the computed arguments fill in the other names. *)
Theorem X12_connection_arguments_are_unions :
  (∀ (self : Simple.manager) endpoint database user token timeout,
     Simple.conn_params self endpoint database user token timeout
     = Simple.core_params endpoint database user token timeout
       ∪ Simple.connection_settings self) ∧
  (∀ (self : Hybrid.manager) hostname port database username token,
     Hybrid.conn_params self hostname port database username token
     = Hybrid.connection_settings self
       ∪ Hybrid.core_params hostname port database username token).
Proof.
  split.
  - intros self endpoint database user token timeout. apply map_eq. intros key.
    rewrite simple_conn_params_lookup, lookup_union.
    destruct (Simple.core_params _ _ _ _ _ !! key) as [v|] eqn:Hcore.
    + by destruct (Simple.connection_settings self !! key).
    + case_decide as Hk; [by subst key|].
      by destruct (Simple.connection_settings self !! key).
  - apply hybrid_conn_params_union.
Qed.

(** ** Health and latency agree in the simple manager *)

Definition consistent (r : pyfloat * bool) : Prop :=
  r = (Inf, false) ∨ ∃ q, r = (Fin q, true).

Lemma simple_measure_consistent (st st' : SSt) hostname port r :
  Simple._measure_endpoint hostname port st = (Ret r, st') → consistent r.
Proof.
  rewrite simple_measure_endpoint_run.
  destruct (gethostbyname hostname (world st)) as [[ip|] w1];
    [|intros [= <- _]; by left].
  destruct (time_time w1) as [start_time w2].
  destruct (socket_connect ip port 2 w2) as [[] w3];
    [|intros [= <- _]; by left].
  destruct (time_time w3) as [now w4]. intros [= <- _]. right. by eexists.
Qed.

Lemma simple_check_one_inv i (st st' : SSt) r :
  simple_check_one i st = (Ret r, st') →
  ∃ s1 : SSt,
    Simple._measure_endpoint
      (hostname (Simple.endpoints (self st) !!! i))
      (default 5432%Z (port (Simple.endpoints (self st) !!! i))) st
    = (Ret r, s1).
Proof.
  unfold simple_check_one, Simple.deref.
  unfold bind at 1 2. unfold get_self, ret at 1. intros Hrun.
  apply bind_inv in Hrun as [(r' & s1 & Hm & Hrun)|(? & _ & ?)]; [|done].
  exists s1. unfold bind, Simple.update, modify_self, ret in Hrun.
  simpl in Hrun. by injection Hrun as -> _.
Qed.

Lemma simple_checked_consistent l : ∀ (st st' : SSt) rs,
  map_m simple_check_one l st = (Ret rs, st') → Forall consistent rs.
Proof.
  induction l as [|i l IH]; intros st st' rs Hrun; simpl in Hrun.
  - injection Hrun as <- _. constructor.
  - apply bind_inv in Hrun as [(r & s1 & Hone & Hrun)|(? & _ & ?)]; [|done].
    apply bind_inv in Hrun as [(rs' & s2 & Hrest & Hret)|(? & _ & ?)]; [|done].
    injection Hret as <- _. constructor; [|by eapply IH].
    apply simple_check_one_inv in Hone as (s0 & Hm).
    by eapply simple_measure_consistent.
Qed.

(** X13.  After any call of the simple manager's [get_connection], whether
    it returned or raised, every endpoint of [self.endpoints] is in one of
    two states: unhealthy with the infinite latency, or healthy with a
    finite latency.  An endpoint is never left healthy with an infinite
    latency, nor unhealthy with a measured one. *)
Theorem X13_health_and_latency_agree (st : SSt) database user timeout e :
  e ∈ Simple.endpoints (self (Simple.get_connection database user timeout st).2) →
  (latency e = Some Inf ∧ is_healthy e = Some false) ∨
  (∃ q, latency e = Some (Fin q) ∧ is_healthy e = Some true).
Proof.
  destruct (simple_check_endpoints_run st)
    as (rs & st1 & Hchecked & Hcheck & Hlen & Heps & _).
  rewrite (simple_get_connection_eq _ _ _ _ _ Hcheck).
  assert (self (Simple.try_endpoints database user timeout
                  (Simple.targets_of (Simple.endpoints (self st1))) None st1).2
          = self st1) as ->.
  { eapply stable_self_eq; [|apply surjective_pairing].
    intros. apply simple_try_endpoints_self. }
  rewrite Heps. intros He.
  apply elem_of_zip_with in He as (e0 & r & -> & _ & Hr).
  assert (Forall consistent rs) as Hall.
  { unfold simple_checked in Hchecked.
    unfold bind at 1 in Hchecked. unfold get_self at 1 in Hchecked.
    by eapply simple_checked_consistent. }
  rewrite Forall_forall in Hall.
  destruct (Hall r Hr) as [->|[q ->]]; [by left|right]. by exists q.
Qed.
End PassedAndStored.

(** * The anatomy of an attempt *)

Section AttemptAnatomy.
Context `{World W} `{Float64}.
Abbreviation HSt := (state W Hybrid.manager).
Abbreviation SSt := (state W Simple.manager).
Local Open Scope monad_scope.

(** The attempt of the simple manager, call by call. *)
Lemma simple_attempt_cases database user timeout i (st : SSt) :
  let endpoint := Simple.endpoints (self st) !!! i in
  Simple.attempt database user timeout i st
  = match get_caller_identity (world st) with
    | (Fails msg, w1) => (Raise (Exception msg), State w1 (self st))
    | (Done _, w1) =>
        match generate_db_connect_admin_auth_token
                (hostname endpoint) (region endpoint) w1 with
        | (Fails msg, w2) => (Raise (Exception msg), State w2 (self st))
        | (Done token, w2) =>
            let params := Simple.conn_params (self st) endpoint database user
                                             token timeout in
            match psycopg2_connect params w2 with
            | (Fails msg, w3) => (Raise (Exception msg), State w3 (self st))
            | (Done _, w3) => (Ret (Connection params), State w3 (self st))
            end
        end
    end.
Proof.
  destruct st as [w self]. simpl.
  unfold Simple.attempt, Simple.deref, Simple._generate_auth_token,
         try_except, call_io, call, bind, get_self, ret, raise. simpl.
  destruct (get_caller_identity w) as [[[]|msg] w1]; simpl; [|done].
  destruct (generate_db_connect_admin_auth_token _ _ w1) as [[token|msg] w2];
    simpl; [|done].
  by destruct (psycopg2_connect _ w2) as [[[]|msg] w3].
Qed.

(** The attempt of the hybrid manager, call by call. *)
Lemma hybrid_attempt_cases database username i (st : HSt) :
  let endpoint := Hybrid.endpoints (self st) !!! i in
  let connect token w1 :=
    match port endpoint with
    | None => (Raise (KeyError "port"), State w1 (self st))
    | Some p =>
        let params := Hybrid.conn_params (self st) (hostname endpoint) p
                                         database username token in
        match psycopg2_connect params w1 with
        | (Fails msg, w2) => (Raise (Exception msg), State w2 (self st))
        | (Done _, w2) => (Ret (Connection params), State w2 (self st))
        end
    end in
  Hybrid.attempt database username i st
  = match cluster_id endpoint with
    | None => (Raise (KeyError "cluster_id"), st)
    | Some cluster =>
        if Hybrid.dsql_available (self st) then
          match generate_db_connect_admin_auth_token
                  (cluster +:+ ".dsql." +:+ region endpoint +:+ ".on.aws")
                  (region endpoint) (world st) with
          | (Fails msg, w1) => (Raise (Exception msg), State w1 (self st))
          | (Done token, w1) => connect token w1
          end
        else
          connect ("test-auth-token-" +:+ cluster +:+ "-" +:+ region endpoint)
                  (world st)
    end.
Proof.
  destruct st as [w m]. cbn [world self].
  unfold Hybrid.attempt, Hybrid.deref, Hybrid.generate_auth_token, item,
         try_except, call_io, call, bind, get_self, ret, raise.
  cbv beta iota delta [world self].
  destruct (cluster_id (Hybrid.endpoints m !!! i)) as [cluster|]; [|done].
  destruct (Hybrid.dsql_available m); cbv beta iota delta [world self].
  - destruct (generate_db_connect_admin_auth_token _ _ w) as [[token|msg] w1];
      [|done].
    destruct (port (Hybrid.endpoints m !!! i)) as [p|]; [|done].
    by destruct (psycopg2_connect _ w1) as [[[]|msg] w2].
  - destruct (port (Hybrid.endpoints m !!! i)) as [p|]; [|done].
    by destruct (psycopg2_connect _ w) as [[[]|msg] w2].
Qed.

(** X14.  A connection is opened with a token minted for it.  When an
    attempt of the simple manager succeeds, it has called the identity
    service, then minted a token for the hostname and region of the
    endpoint being tried, then opened the connection with that token as
    password, in this order and with nothing in between; the manager
    object is unchanged.  When an attempt of the hybrid manager succeeds,
    the token was minted in the same way for the hostname
    [<cluster_id>.dsql.<region>.on.aws] (or is the placeholder
    [test-auth-token-<cluster_id>-<region>], without any call, when the
    DSQL client is unavailable), and it is the password unless the
    configured settings have a password of their own. *)
Theorem X14_token_is_minted_for_the_attempt :
  (∀ (st st' : SSt) database user timeout i c,
     Simple.attempt database user timeout i st = (Ret c, st') →
     let endpoint := Simple.endpoints (self st) !!! i in
     ∃ identity w1 token w2 w3,
       get_caller_identity (world st) = (Done identity, w1) ∧
       generate_db_connect_admin_auth_token
         (hostname endpoint) (region endpoint) w1 = (Done token, w2) ∧
       psycopg2_connect (dsn c) w2 = (Done (), w3) ∧
       st' = State w3 (self st) ∧
       dsn c = Simple.conn_params (self st) endpoint database user token
                                  timeout ∧
       dsn c !! "password" = Some (PStr token)) ∧
  (∀ (st st' : HSt) database username i c,
     Hybrid.attempt database username i st = (Ret c, st') →
     let endpoint := Hybrid.endpoints (self st) !!! i in
     ∃ cluster p token w1 w2,
       cluster_id endpoint = Some cluster ∧
       port endpoint = Some p ∧
       (if Hybrid.dsql_available (self st) then
          generate_db_connect_admin_auth_token
            (cluster +:+ ".dsql." +:+ region endpoint +:+ ".on.aws")
            (region endpoint) (world st) = (Done token, w1)
        else
          token = "test-auth-token-" +:+ cluster +:+ "-" +:+ region endpoint ∧
          w1 = world st) ∧
       psycopg2_connect (dsn c) w1 = (Done (), w2) ∧
       st' = State w2 (self st) ∧
       dsn c = Hybrid.conn_params (self st) (hostname endpoint) p
                                  database username token ∧
       (Hybrid.connection_settings (self st) !! "password" = None →
        dsn c !! "password" = Some (PStr token))).
Proof.
  split.
  - intros st st' database user timeout i c. rewrite simple_attempt_cases.
    cbv zeta.
    destruct (get_caller_identity (world st)) as [[identity|msg] w1] eqn:Hid;
      [|done].
    destruct (generate_db_connect_admin_auth_token _ _ w1)
      as [[token|msg] w2] eqn:Hmint; [|done].
    destruct (psycopg2_connect _ w2) as [[[]|msg] w3] eqn:Hopen; [|done].
    intros [= <- <-]. exists identity, w1, token, w2, w3.
    split_and!; simpl; [done..|]. by rewrite simple_conn_params_lookup.
  - intros st st' database username i c. rewrite hybrid_attempt_cases.
    cbv zeta.
    destruct (cluster_id _) as [cluster|] eqn:Hcluster; [|done].
    destruct (Hybrid.dsql_available (self st)).
    + destruct (generate_db_connect_admin_auth_token _ _ (world st))
        as [[token|msg] w1] eqn:Hmint; [|done].
      destruct (port _) as [p|] eqn:Hport; [|done].
      destruct (psycopg2_connect _ w1) as [[[]|msg] w2] eqn:Hopen; [|done].
      intros [= <- <-]. exists cluster, p, token, w1, w2.
      split_and!; simpl; [done..|]. intros Hnone.
      by rewrite hybrid_conn_params_lookup, Hnone.
    + destruct (port _) as [p|] eqn:Hport; [|done].
      destruct (psycopg2_connect _ (world st)) as [[[]|msg] w2] eqn:Hopen;
        [|done].
      intros [= <- <-]. eexists cluster, p, _, (world st), w2.
      split_and!; simpl; [done..|]. intros Hnone.
      by rewrite hybrid_conn_params_lookup, Hnone.
Qed.
End AttemptAnatomy.

(** * The connections dialled, in order *)

Section Dialled.
Context `{World W} `{Float64}.
Abbreviation RSSt := (state (Recorded.world W) Simple.manager).
Abbreviation RHSt := (state (Recorded.world W) Hybrid.manager).
Local Open Scope monad_scope.

(** [params] are the keyword arguments the simple manager builds for the
    endpoint [i], with some token. *)
Definition simple_dial (self : Simple.manager) (database user : string)
    (connect_timeout : Z) (i : ref) (params : gmap string pyval) : Prop :=
  ∃ token,
    params = Simple.conn_params self (Simple.endpoints self !!! i)
                                database user token connect_timeout.

(** [params] are the keyword arguments the hybrid manager builds for the
    endpoint [i], which has a port, with some token. *)
Definition hybrid_dial (self : Hybrid.manager) (database username : string)
    (i : ref) (params : gmap string pyval) : Prop :=
  ∃ token p,
    port (Hybrid.endpoints self !!! i) = Some p ∧
    params = Hybrid.conn_params self (hostname (Hybrid.endpoints self !!! i)) p
                                database username token.

(** An attempt dials at most once, for its own endpoint, and a connection
    it returns is the one dialled. *)
Lemma simple_attempt_dials database user timeout i (st : RSSt) :
  let r := Simple.attempt database user timeout i st in
  self r.2 = self st ∧
  ((Recorded.attempts (world r.2) = Recorded.attempts (world st) ∧
    ∃ e, r.1 = Raise e) ∨
   (∃ params,
      simple_dial (self st) database user timeout i params ∧
      Recorded.attempts (world r.2) = Recorded.attempts (world st) ++ [params] ∧
      ∀ c, r.1 = Ret c → dsn c = params)).
Proof.
  cbv zeta. rewrite simple_attempt_cases. cbv zeta.
  destruct st as [[w log] m]. simpl.
  unfold Recorded.lift, Recorded.connect. simpl.
  destruct (get_caller_identity w) as [[[]|msg] w1]; simpl;
    [|split; [done|left; eauto]].
  destruct (generate_db_connect_admin_auth_token _ _ w1) as [[token|msg] w2];
    simpl; [|split; [done|left; eauto]].
  split; [by destruct (psycopg2_connect _ w2) as [[[]|msg] w3]|].
  right. eexists. split; [by exists token|].
  destruct (psycopg2_connect _ w2) as [[[]|msg] w3]; simpl; split; try done.
  by intros c [= <-].
Qed.

Lemma hybrid_attempt_dials database username i (st : RHSt) :
  let r := Hybrid.attempt database username i st in
  self r.2 = self st ∧
  ((Recorded.attempts (world r.2) = Recorded.attempts (world st) ∧
    ∃ e, r.1 = Raise e) ∨
   (∃ params,
      hybrid_dial (self st) database username i params ∧
      Recorded.attempts (world r.2) = Recorded.attempts (world st) ++ [params] ∧
      ∀ c, r.1 = Ret c → dsn c = params)).
Proof.
  cbv zeta. rewrite hybrid_attempt_cases. cbv zeta.
  destruct st as [[w log] m]. cbv beta iota delta [world self].
  destruct (cluster_id _) as [cluster|]; [|split; [done|left; eauto]].
  assert (∀ token w1,
    let r :=
      match port (Hybrid.endpoints m !!! i) with
      | Some p =>
          match
            psycopg2_connect
              (Hybrid.conn_params m (hostname (Hybrid.endpoints m !!! i)) p
                                  database username token)
              (Recorded.Rec w1 log)
          with
          | (Done _, w2) =>
              (Ret (Connection
                      (Hybrid.conn_params m
                         (hostname (Hybrid.endpoints m !!! i)) p
                         database username token)), State w2 m)
          | (Fails msg, w2) => (Raise (Exception msg), State w2 m)
          end
      | None => (Raise (KeyError "port"), State (Recorded.Rec w1 log) m)
      end in
    self r.2 = m ∧
    ((Recorded.attempts (world r.2) = log ∧ ∃ e, r.1 = Raise e) ∨
     (∃ params,
        hybrid_dial m database username i params ∧
        Recorded.attempts (world r.2) = log ++ [params] ∧
        ∀ c, r.1 = Ret c → dsn c = params))) as Hconnect.
  { intros token w1. cbv zeta.
    destruct (port (Hybrid.endpoints m !!! i)) as [p|] eqn:Hport;
      [|split; [done|left; eauto]].
    simpl. unfold Recorded.connect. simpl.
    split; [by destruct (psycopg2_connect _ w1) as [[[]|msg] w2]|].
    right. eexists. split; [by exists token, p|].
    destruct (psycopg2_connect _ w1) as [[[]|msg] w2]; simpl; split; try done.
    by intros c [= <-]. }
  destruct (Hybrid.dsql_available m).
  - simpl. unfold Recorded.lift. simpl.
    destruct (generate_db_connect_admin_auth_token _ _ w) as [[token|msg] w1];
      simpl; [|split; [done|left; eauto]].
    apply Hconnect.
  - apply Hconnect.
Qed.

(** The connection loops dial a subsequence of the list they are given,
    in its order, and stop at the first connection opened. *)
Lemma simple_try_dials database user timeout l : ∀ last_exception (st : RSSt),
  let r := Simple.try_endpoints database user timeout l last_exception st in
  self r.2 = self st ∧
  ∃ tried new,
    sublist tried l ∧
    Recorded.attempts (world r.2) = Recorded.attempts (world st) ++ new ∧
    Forall2 (simple_dial (self st) database user timeout) tried new ∧
    ∀ c, r.1 = Ret c → last new = Some (dsn c).
Proof.
  induction l as [|i l IH]; intros last_exception st; cbv zeta.
  - split; [done|]. exists [], []. simpl. rewrite app_nil_r.
    split_and!; [done..|constructor|done].
  - simpl.
    destruct (simple_attempt_dials database user timeout i st) as [Hself Hdial].
    destruct (Simple.attempt database user timeout i st) as [[c|e] s1] eqn:Hrun.
    + rewrite (bind_ret_eq _ _ _ _ _ (catch_ret_eq _ _ _ _ Hrun)).
      simpl in *. split; [done|].
      destruct Hdial as [[_ [e [=]]]|(params & Hp & Hlog & Hc)].
      exists [i], [params]. split_and!.
      * apply sublist_skip, sublist_nil_l.
      * done.
      * by repeat constructor.
      * intros c' [= <-]. simpl. by rewrite (Hc c).
    + rewrite (bind_ret_eq _ _ _ _ _ (catch_raise_eq _ _ _ _ Hrun)).
      simpl in Hself, Hdial.
      destruct (IH (Some e) s1) as [Hself' (tried & new & Hsub & Hlog & Hall & Hlast)].
      rewrite Hself in Hall. split; [congruence|].
      destruct Hdial as [[Hsame _]|(params & Hp & Hmore & _)].
      * exists tried, new. split_and!; [by apply sublist_cons| |done..].
        by rewrite Hlog, Hsame.
      * exists (i :: tried), (params :: new).
        split_and!; [by apply sublist_skip| |by constructor|].
        -- by rewrite Hlog, Hmore, <- app_assoc.
        -- intros c Hc. rewrite last_cons. by rewrite (Hlast c Hc).
Qed.

Lemma hybrid_try_dials database username l : ∀ errors (st : RHSt),
  let r := Hybrid.try_endpoints database username l errors st in
  self r.2 = self st ∧
  ∃ tried new,
    sublist tried l ∧
    Recorded.attempts (world r.2) = Recorded.attempts (world st) ++ new ∧
    Forall2 (hybrid_dial (self st) database username) tried new ∧
    ∀ c, r.1 = Ret c → last new = Some (dsn c).
Proof.
  induction l as [|i l IH]; intros errors st; cbv zeta.
  - split; [done|]. exists [], []. simpl. rewrite app_nil_r.
    split_and!; [done..|constructor|done].
  - simpl.
    destruct (hybrid_attempt_dials database username i st) as [Hself Hdial].
    destruct (Hybrid.attempt database username i st) as [[c|e] s1] eqn:Hrun.
    + rewrite (bind_ret_eq _ _ _ _ _ (catch_ret_eq _ _ _ _ Hrun)).
      simpl in *. split; [done|].
      destruct Hdial as [[_ [e [=]]]|(params & Hp & Hlog & Hc)].
      exists [i], [params]. split_and!.
      * apply sublist_skip, sublist_nil_l.
      * done.
      * by repeat constructor.
      * intros c' [= <-]. simpl. by rewrite (Hc c).
    + rewrite (bind_ret_eq _ _ _ _ _ (catch_raise_eq _ _ _ _ Hrun)).
      simpl in Hself, Hdial.
      assert ((endpoint <- Hybrid.deref i ;;
               Hybrid.try_endpoints database username l
                 (errors ++ [Hybrid.failure_message endpoint e])) s1
              = Hybrid.try_endpoints database username l
                  (errors ++ [Hybrid.failure_message
                                (Hybrid.endpoints (self s1) !!! i) e]) s1)
        as -> by done.
      destruct (IH (errors ++ [Hybrid.failure_message
                                 (Hybrid.endpoints (self s1) !!! i) e]) s1)
        as [Hself' (tried & new & Hsub & Hlog & Hall & Hlast)].
      rewrite Hself in Hall. split; [congruence|].
      destruct Hdial as [[Hsame _]|(params & Hp & Hmore & _)].
      * exists tried, new. split_and!; [by apply sublist_cons| |done..].
        by rewrite Hlog, Hsame.
      * exists (i :: tried), (params :: new).
        split_and!; [by apply sublist_skip| |by constructor|].
        -- by rewrite Hlog, Hmore, <- app_assoc.
        -- intros c Hc. rewrite last_cons. by rewrite (Hlast c Hc).
Qed.

Lemma simple_check_no_attempt before :
  stable (no_attempt (Mgr:=Simple.manager) before)
         (Simple._check_endpoints (W:=Recorded.world W)).
Proof.
  unfold Simple._check_endpoints.
  repeat first
    [ apply stable_for_each; intros ?;
      unfold Simple.check_endpoint, Simple._measure_endpoint, Simple.deref,
             Simple.update
    | trace_step ].
Qed.

Lemma simple_targets_NoDup endpoints : NoDup (Simple.targets_of endpoints).
Proof.
  unfold Simple.targets_of.
  assert (NoDup (Simple.healthy_of endpoints)) as Hnd
    by apply NoDup_filter, NoDup_seq.
  destruct (Simple.healthy_of endpoints) as [|i l] eqn:Hh; [apply NoDup_seq|].
  by rewrite sort_by_perm.
Qed.

Lemma simple_targets_healthy endpoints i :
  Simple.healthy_of endpoints ≠ [] →
  i ∈ Simple.targets_of endpoints →
  is_healthy (endpoints !!! i) = Some true.
Proof.
  unfold Simple.targets_of. intros Hne.
  destruct (Simple.healthy_of endpoints) as [|j l] eqn:Hh; [done|].
  rewrite sort_by_perm, <- Hh. unfold Simple.healthy_of.
  rewrite list_elem_of_filter. intros [Hi _].
  by destruct (is_healthy (endpoints !!! i)) as [[]|].
Qed.

(** X15.  The connections a call of [get_connection] dials, read off a
    world that records them.  The simple manager dials endpoints of its
    target list only, in the order of that list and each at most once,
    with the arguments it builds for that endpoint; when the probes found
    some endpoint healthy, every endpoint dialled is a healthy one.  The
    hybrid manager dials only endpoints that its health evaluation
    returned, in the order of the ranking and each at most once.  In both,
    a connection that is returned is the last one dialled: nothing is
    dialled after the first success. *)
Theorem X15_dials_follow_the_ranking :
  (∀ (st : RSSt) database user timeout,
     ∃ st1,
       Simple._check_endpoints st = (Ret (), st1) ∧
       let r := Simple.get_connection database user timeout st in
       let endpoints := Simple.endpoints (self st1) in
       ∃ tried new,
         Recorded.attempts (world r.2) = Recorded.attempts (world st) ++ new ∧
         Forall2 (simple_dial (self st1) database user timeout) tried new ∧
         sublist tried (Simple.targets_of endpoints) ∧
         NoDup tried ∧
         (Simple.healthy_of endpoints ≠ [] →
          ∀ i, i ∈ tried → is_healthy (endpoints !!! i) = Some true) ∧
         ∀ c, r.1 = Ret c → last new = Some (dsn c)) ∧
  (∀ (st : RHSt) database username,
     ∃ healthy st1,
       Hybrid.get_healthy_endpoints st = (Ret healthy, st1) ∧
       let r := Hybrid.get_connection database username st in
       ∃ tried new,
         Recorded.attempts (world r.2) = Recorded.attempts (world st) ++ new ∧
         Forall2 (hybrid_dial (self r.2) database username) tried new ∧
         sublist tried (Hybrid.rank (Hybrid.endpoints (self r.2)) healthy) ∧
         NoDup tried ∧
         (∀ i, i ∈ tried → i ∈ healthy) ∧
         ∀ c, r.1 = Ret c → last new = Some (dsn c)).
Proof.
  split.
  - intros st database user timeout.
    destruct (simple_check_endpoints_run st) as (rs & st1 & _ & Hcheck & _).
    exists st1. split; [done|]. cbv zeta.
    rewrite (simple_get_connection_eq _ _ _ _ _ Hcheck).
    assert (Recorded.attempts (world st1) = Recorded.attempts (world st))
      as Hlog1.
    { apply no_attempt_eq.
      eapply simple_check_no_attempt; [|exact Hcheck]. apply only_attempts_init. }
    destruct (simple_try_dials database user timeout
                (Simple.targets_of (Simple.endpoints (self st1))) None st1)
      as [_ (tried & new & Hsub & Hlog & Hall & Hlast)].
    exists tried, new. split_and!; [by rewrite Hlog, Hlog1|done..| | |done].
    + eapply sublist_NoDup; [apply simple_targets_NoDup|exact Hsub].
    + intros Hne i Hi. apply simple_targets_healthy; [done|].
      by apply (sublist_subseteq _ _ Hsub).
  - intros st database username.
    destruct (hybrid_get_healthy_run st) as (healthy & st1 & Hget & Hrefs & _).
    exists healthy, st1. split; [done|]. cbv zeta.
    assert (Recorded.attempts (world st1) = Recorded.attempts (world st))
      as Hlog1.
    { apply no_attempt_eq.
      eapply hybrid_health_no_attempt; [|exact Hget]. apply only_attempts_init. }
    destruct (decide (healthy = [])) as [->|Hne].
    { rewrite (hybrid_get_connection_none _ _ _ _ Hget). simpl.
      exists [], []. rewrite app_nil_r.
      split_and!; [done|constructor|apply sublist_nil_l|constructor| |done].
      intros i Hi. by apply elem_of_nil in Hi. }
    destruct (hybrid_measured healthy st1) as [[lats|e] st2] eqn:Hm.
    + assert (Recorded.attempts (world st2) = Recorded.attempts (world st1))
        as Hlog2.
      { apply no_attempt_eq.
        pose proof (hybrid_for_each_measure_eq healthy st1) as Hfor.
        rewrite Hm in Hfor. simpl in Hfor.
        eapply hybrid_measuring_no_attempt; [|exact Hfor].
        apply only_attempts_init. }
      rewrite (hybrid_get_connection_eq _ _ _ _ _ _ _ Hget Hne Hm).
      destruct (hybrid_try_dials database username
                  (Hybrid.rank (Hybrid.endpoints (self st2)) healthy) [] st2)
        as [Hself (tried & new & Hsub & Hlog & Hall & Hlast)].
      rewrite Hself. exists tried, new.
      split_and!; [by rewrite Hlog, Hlog2, Hlog1|done..| | |done].
      * eapply sublist_NoDup; [|exact Hsub]. unfold Hybrid.rank.
        rewrite sort_by_perm. by eapply sublist_seq_NoDup.
      * intros i Hi. apply (sublist_subseteq _ _ Hsub) in Hi.
        unfold Hybrid.rank in Hi. by rewrite sort_by_perm in Hi.
    + rewrite (hybrid_get_connection_raise _ _ _ _ _ _ _ Hget Hm). simpl.
      assert (Recorded.attempts (world st2) = Recorded.attempts (world st1))
        as Hlog2.
      { apply no_attempt_eq.
        pose proof (hybrid_for_each_measure_eq healthy st1) as Hfor.
        rewrite Hm in Hfor. simpl in Hfor.
        eapply hybrid_measuring_no_attempt; [|exact Hfor].
        apply only_attempts_init. }
      exists [], []. rewrite app_nil_r.
      split_and!; [by rewrite Hlog2, Hlog1|constructor|apply sublist_nil_l
                  |constructor| |done].
      intros i Hi. by apply elem_of_nil in Hi.
Qed.
End Dialled.

(** * Construction *)

(** A configuration file as [json.load] returns it: an object whose keys
    [endpoints] and [connection_settings] may be absent. *)
Record config : Type := Config {
  config_endpoints : option (list endpoint);
  config_settings : option (gmap string pyval);
}.

(** [DSQLConnectionManager.__init__].  The two files it may read are given
    as read: [None] when no path is given or no file exists there, [inl]
    the exception that opening or parsing raised, [inr] the object parsed.
    [default_config] is the [dsql_config.json] beside the module. *)
Definition simple_init (config_file default_config : option (exn + config))
    (endpoints : list endpoint) : outcome Simple.manager :=
  let self := Simple.Manager endpoints ∅ in
  let loaded :=
    match config_file with
    | Some (inl e) => Raise e
    | Some (inr config) =>
        Ret (Simple.Manager
               (default (Simple.endpoints self) (config_endpoints config))
               (default (Simple.connection_settings self)
                        (config_settings config)))
    | None => Ret self
    end in
  match loaded with
  | Raise e => Raise e
  | Ret self =>
      let self :=
        match Simple.endpoints self, default_config with
        | [], Some (inr config) =>
            Simple.Manager
              (default (Simple.endpoints self) (config_endpoints config))
              (match config_settings config with
               | Some settings =>
                   if decide (Simple.connection_settings self = ∅)
                   then settings else Simple.connection_settings self
               | None => Simple.connection_settings self
               end)
        | _, _ => self
        end in
      match Simple.endpoints self with
      | [] => Raise (ValueError "No endpoints provided. Please specify endpoints via constructor parameter, config file, or ensure dsql_config.json exists.")
      | _ => Ret self
      end
  end.

Section Construction.
Context `{World W} `{Float64}.
Abbreviation HSt := (state W Hybrid.manager).
Abbreviation SSt := (state W Simple.manager).

Lemma simple_get_connection_raises (st : SSt) database user timeout :
  Simple.endpoints (self st) ≠ [] →
  match (Simple.get_connection database user timeout st).1 with
  | Ret _ => True
  | Raise e =>
      ∃ reason,
        e = Exception ("Failed to connect to any endpoint: " +:+ reason)
  end.
Proof.
  intros Hne.
  destruct (simple_check_endpoints_run st)
    as (rs & st1 & _ & Hcheck & Hlen & Heps & _).
  rewrite (simple_get_connection_eq _ _ _ _ _ Hcheck).
  destruct (Simple.try_endpoints _ _ _ _ _ st1) as [[c|e] s2] eqn:Hrun;
    simpl; [done|].
  apply simple_try_raises in Hrun as [reason ->]; [by exists reason|].
  left. apply simple_targets_nonempty. rewrite Heps.
  destruct (Simple.endpoints (self st)) as [|e0 es]; [done|].
  by destruct rs.
Qed.

(** X16.  What the constructor of the simple manager establishes.  A
    manager it returns has a non-empty endpoint list, taken from the first
    of three places that has one: the [endpoints] key of the configuration
    file, the [endpoints] argument when the file has no such key (or there
    is no file), the default configuration file.  A configuration file
    whose [endpoints] key holds an empty list therefore discards the
    [endpoints] argument.  The constructor raises what reading the
    configuration file raised, or else the [ValueError] on an empty list;
    an unreadable default file is not an error.  For every manager it
    returns, [get_connection] returns a connection or raises
    [Exception("Failed to connect to any endpoint: <reason>")]. *)
Theorem X16_simple_constructor config_file default_config endpoints :
  let first :=
    match config_file with
    | Some (inr config) => default endpoints (config_endpoints config)
    | _ => endpoints
    end in
  let fallback :=
    match default_config with
    | Some (inr config) => default [] (config_endpoints config)
    | _ => []
    end in
  match simple_init config_file default_config endpoints with
  | Ret self =>
      Simple.endpoints self ≠ [] ∧
      Simple.endpoints self
      = (match first with [] => fallback | _ => first end) ∧
      ∀ (w : W) database user timeout,
        match (Simple.get_connection database user timeout (State w self)).1
        with
        | Ret _ => True
        | Raise e =>
            ∃ reason,
              e = Exception ("Failed to connect to any endpoint: " +:+ reason)
        end
  | Raise e =>
      config_file = Some (inl e) ∨
      (first = [] ∧ fallback = [] ∧ ∃ msg, e = ValueError msg)
  end.
Proof.
  cbv zeta. unfold simple_init.
  destruct config_file as [[e|[config_eps config_set]]|]; simpl.
  - by left.
  - destruct (default endpoints config_eps) as [|e1 l1] eqn:Hfirst.
    + destruct default_config as [[e|[default_eps default_set]]|]; simpl;
        try (right; eauto; fail).
      destruct (default [] default_eps) as [|e2 l2] eqn:Hfallback.
      * right. split_and!; [done..|eauto].
      * split_and!; [done..|]. intros. by apply simple_get_connection_raises.
    + simpl. split_and!; [done..|]. intros. by apply simple_get_connection_raises.
  - destruct endpoints as [|e1 l1].
    + destruct default_config as [[e|[default_eps default_set]]|]; simpl;
        try (right; eauto; fail).
      destruct (default [] default_eps) as [|e2 l2] eqn:Hfallback.
      * right. split_and!; [done..|eauto].
      * split_and!; [done..|]. intros. by apply simple_get_connection_raises.
    + simpl. split_and!; [done..|]. intros. by apply simple_get_connection_raises.
Qed.

(** X17.  What the constructor of the hybrid manager establishes.  When a
    configuration file is named the [endpoints] argument plays no part,
    even if the file has no endpoint and the constructor raises.  A
    manager it returns has a non-empty endpoint list and an empty
    health-check cache, so the first health check it makes for any id
    asks Route 53: a non-empty answer is cached with the time of the
    call, and an empty answer or an error gives "unhealthy". *)
Theorem X17_hybrid_constructor endpoints config_file health_check_ttl
    latency_test_timeout latency_test_retries connection_timeout available :
  let init endpoints :=
    Hybrid.init endpoints config_file health_check_ttl latency_test_timeout
                latency_test_retries connection_timeout available in
  (∀ endpoints', is_Some config_file → init endpoints' = init endpoints) ∧
  ∀ self,
    init endpoints = Ret self →
    Hybrid.endpoints self ≠ [] ∧
    Hybrid.health_check_cache self = ∅ ∧
    ∀ (w : W) id,
      Hybrid.check_route53_health id (State w self)
      = let '(now, w1) := time_time w in
        match get_health_check_status id w1 with
        | (Done (status :: rest), w2) =>
            let verdict := existsb Hybrid.is_success (status :: rest) in
            (Ret verdict,
             State w2 (Hybrid.set_cache <[id := (verdict, now)]> self))
        | (Done [], w2) | (Fails _, w2) => (Ret false, State w2 self)
        end.
Proof.
  cbv zeta. split.
  - intros endpoints' [[eps settings] ->]. done.
  - intros self Hinit.
    assert (Hybrid.endpoints self ≠ [] ∧ Hybrid.health_check_cache self = ∅)
      as [Hne Hcache].
    { unfold Hybrid.init in Hinit.
      destruct config_file as [[[|e1 l1] settings]|]; [done| |].
      - by injection Hinit as <-.
      - destruct endpoints as [|e1 l1]; [done|]. by injection Hinit as <-. }
    split_and!; [done..|]. intros w id.
    destruct (time_time w) as [now w1] eqn:Hnow.
    destruct (get_health_check_status id w1) as [response w2] eqn:Hstatus.
    rewrite (hybrid_route53_miss (State w self) id now w1 response w2);
      [by destruct response as [[|status rest]|msg]|done| |done].
    unfold Hybrid.cached_result. simpl. by rewrite Hcache, lookup_empty.
Qed.
End Construction.

(** * Setting up the Route 53 health checks *)

(** What the two module-level functions of hybrid_failover_approach.py
    use beside the clock: the Route 53 client and the configuration
    file. *)
Class Setup (W : Type) : Type := {
  (** [boto3.client('route53')] *)
  route53_client : W → io () * W;
  (** [route53.create_health_check(CallerReference=..., HealthCheckConfig=
      {'Port': ..., 'Type': 'TCP', 'FullyQualifiedDomainName': ...,
      'RequestInterval': 30, 'FailureThreshold': 3})], then
      [response['HealthCheck']['Id']] *)
  create_health_check : string → Z → string → W → io string * W;
  (** [route53.change_tags_for_resource(ResourceType='healthcheck',
      ResourceId=..., AddTags=[{'Key': 'Name', 'Value': ...}])] *)
  change_tags_for_resource : string → string → W → io () * W;
  (** [open(config_file, 'r')] and [json.load] *)
  read_config : string → W → io config * W;
  (** [open(config_file, 'w')] and [json.dump] *)
  write_config : string → config → W → io () * W;
}.

(** [int(x)] on a float: truncation towards zero. *)
Definition int_of_float (x : Q) : Z := Z.quot (Qnum x) (Z.pos (Qden x)).

Definition set_health_check_id (id : string) (e : endpoint) : endpoint :=
  Endpoint (hostname e) (region e) (port e) (cluster_id e) (priority e)
           (Some id) (latency e) (is_healthy e).

(** ['health_check_id' not in endpoint or not endpoint['health_check_id']] *)
Definition lacks_health_check (e : endpoint) : bool :=
  match health_check_id e with
  | Some id => bool_decide (id = "")
  | None => true
  end.

Section SetupFunctions.
Context `{World W} `{Float64} `{Setup W}.
Local Open Scope monad_scope.
Abbreviation USt := (state W ()).

Definition create_route53_health_check (endpoint : endpoint) : M USt string :=
  try_except
    (call_io route53_client ;;;
     cluster <- item "cluster_id" (cluster_id endpoint) ;;
     now <- call time_time ;;
     let caller_reference :=
       "dsql-" +:+ cluster +:+ "-" +:+ pretty (int_of_float now) in
     p <- item "port" (port endpoint) ;;
     health_check_id <-
       call_io (create_health_check caller_reference p (hostname endpoint)) ;;
     call_io (change_tags_for_resource health_check_id ("DSQL-" +:+ cluster)) ;;;
     ret health_check_id)
    (λ e, raise e).

(** The loop over [config['endpoints']]; the endpoint objects it updates
    are those of the configuration that is written afterwards. *)
Fixpoint create_missing (endpoints : list endpoint) : M USt (list endpoint) :=
  match endpoints with
  | [] => ret []
  | endpoint :: rest =>
      endpoint <-
        (if lacks_health_check endpoint then
           health_check_id <- create_route53_health_check endpoint ;;
           ret (set_health_check_id health_check_id endpoint)
         else ret endpoint) ;;
      rest <- create_missing rest ;;
      ret (endpoint :: rest)
  end.

Definition setup_endpoints_with_health_checks (config_file : string)
    : M USt bool :=
  try_except
    (config <- call_io (read_config config_file) ;;
     endpoints <- item "endpoints" (config_endpoints config) ;;
     endpoints <- create_missing endpoints ;;
     call_io (write_config config_file
                (Config (Some endpoints) (config_settings config))) ;;;
     ret true)
    (λ _, ret false).

(** The endpoint [e'] written for the endpoint [e] read. *)
Definition set_up (e e' : endpoint) : Prop :=
  if lacks_health_check e
  then ∃ id, e' = set_health_check_id id e
  else e' = e.

Lemma create_missing_set_up endpoints : ∀ (st st' : USt) endpoints',
  create_missing endpoints st = (Ret endpoints', st') →
  Forall2 set_up endpoints endpoints'.
Proof.
  induction endpoints as [|e l IH]; intros st st' endpoints'; simpl.
  - intros [= <- _]. constructor.
  - intros Hrun.
    apply bind_inv in Hrun as [(e' & s1 & He & Hrun)|(? & _ & ?)]; [|done].
    apply bind_inv in Hrun as [(l' & s2 & Hl & Hret)|(? & _ & ?)]; [|done].
    injection Hret as <- _. constructor; [|by eapply IH].
    unfold set_up. destruct (lacks_health_check e).
    + apply bind_inv in He as [(id & s0 & _ & Hret)|(? & _ & ?)]; [|done].
      injection Hret as <- _. by exists id.
    + by injection He as <- _.
Qed.

Lemma create_missing_none endpoints : ∀ (st : USt),
  Forall (λ e, lacks_health_check e = false) endpoints →
  create_missing endpoints st = (Ret endpoints, st).
Proof.
  induction endpoints as [|e l IH]; intros st Hall; simpl; [done|].
  apply Forall_cons in Hall as [He Hl]. rewrite He.
  unfold bind at 1. unfold ret at 1. unfold bind. by rewrite (IH st Hl).
Qed.

(** The function, call by call. *)
Lemma setup_cases config_file (st : USt) :
  setup_endpoints_with_health_checks config_file st
  = match read_config config_file (world st) with
    | (Fails _, w1) => (Ret false, State w1 ())
    | (Done config, w1) =>
        match config_endpoints config with
        | None => (Ret false, State w1 ())
        | Some endpoints =>
            match create_missing endpoints (State w1 ()) with
            | (Raise _, s2) => (Ret false, s2)
            | (Ret endpoints', s2) =>
                match write_config config_file
                        (Config (Some endpoints') (config_settings config))
                        (world s2) with
                | (Done _, w3) => (Ret true, State w3 ())
                | (Fails _, w3) => (Ret false, State w3 ())
                end
            end
        end
    end.
Proof.
  unfold setup_endpoints_with_health_checks, try_except.
  destruct st as [w []].
  unfold call_io at 1, call at 1. unfold bind at 1 2. simpl.
  destruct (read_config config_file w) as [[config|msg] w1]; simpl; [|done].
  unfold bind at 1.
  destruct (config_endpoints config) as [endpoints|]; simpl; [|done].
  unfold bind at 1.
  destruct (create_missing endpoints (State w1 ())) as [[endpoints'|e] s2];
    [|done].
  unfold call_io, call, bind, ret, raise. destruct s2 as [w2 []]. simpl.
  by destruct (write_config _ _ w2) as [[[]|msg] w3].
Qed.

(** X18.  [setup_endpoints_with_health_checks] never raises: it returns a
    boolean.  It returns [True] only after it has read the file, found the
    [endpoints] key, run the creation loop to its end and written the
    file, in this order.  What it writes differs from what it read in the
    [health_check_id] of the endpoints that had none (or an empty one),
    and in nothing else: the endpoints that had an id are written back as
    they were, and so are the connection settings. *)
Theorem X18_setup_writes_what_it_created (st : USt) config_file :
  let r := setup_endpoints_with_health_checks config_file st in
  (∃ b, r.1 = Ret b) ∧
  (r.1 = Ret true →
   ∃ config endpoints endpoints' w1 s2 w3,
     read_config config_file (world st) = (Done config, w1) ∧
     config_endpoints config = Some endpoints ∧
     create_missing endpoints (State w1 ()) = (Ret endpoints', s2) ∧
     write_config config_file
       (Config (Some endpoints') (config_settings config)) (world s2)
     = (Done (), w3) ∧
     world r.2 = w3 ∧
     Forall2 set_up endpoints endpoints').
Proof.
  cbv zeta. rewrite setup_cases.
  destruct (read_config config_file (world st)) as [[config|msg] w1]
    eqn:Hread; [|split; [eauto|done]].
  destruct (config_endpoints config) as [endpoints|] eqn:Heps;
    [|split; [eauto|done]].
  destruct (create_missing endpoints (State w1 ())) as [[endpoints'|e] s2]
    eqn:Hloop; [|split; [eauto|done]].
  destruct (write_config _ _ (world s2)) as [[[]|msg] w3] eqn:Hwrite;
    [|split; [eauto|done]].
  split; [eauto|]. intros _.
  exists config, endpoints, endpoints', w1, s2, w3.
  split_and!; [done..|]. by eapply create_missing_set_up.
Qed.

(** X19.  A second run changes nothing: when every endpoint of the file
    has a non-empty [health_check_id], the function makes no Route 53
    call at all.  It reads the file and writes the same configuration
    back, and its result tells whether that write succeeded. *)
Theorem X19_setup_is_idempotent (st : USt) config_file config endpoints w1 :
  read_config config_file (world st) = (Done config, w1) →
  config_endpoints config = Some endpoints →
  Forall (λ e, ∃ id, health_check_id e = Some id ∧ id ≠ "") endpoints →
  setup_endpoints_with_health_checks config_file st
  = match write_config config_file config w1 with
    | (Done _, w2) => (Ret true, State w2 ())
    | (Fails _, w2) => (Ret false, State w2 ())
    end.
Proof.
  intros Hread Heps Hall. rewrite setup_cases, Hread, Heps.
  rewrite create_missing_none.
  - destruct config as [config_eps config_set]. simpl in *. by subst config_eps.
  - eapply Forall_impl; [exact Hall|]. intros e (id & Hid & Hne).
    unfold lacks_health_check. rewrite Hid. by apply bool_decide_eq_false.
Qed.

(** X20.  No health check can be created for an endpoint that lacks a
    [cluster_id]: the creation raises [KeyError('cluster_id')] once it has
    the client, before the clock is read and before any request to Route
    53.  When the creation loop raises, for this reason or any other,
    [setup_endpoints_with_health_checks] returns [False] in the state the
    loop left: the file is not written, so the ids of the health checks
    created for the endpoints in front are not saved. *)
Theorem X20_failed_setup_writes_nothing :
  (∀ (st : USt) endpoint w1,
     cluster_id endpoint = None →
     route53_client (world st) = (Done (), w1) →
     create_route53_health_check endpoint st
     = (Raise (KeyError "cluster_id"), State w1 ())) ∧
  (∀ (st s2 : USt) config_file config endpoints w1 e,
     read_config config_file (world st) = (Done config, w1) →
     config_endpoints config = Some endpoints →
     create_missing endpoints (State w1 ()) = (Raise e, s2) →
     setup_endpoints_with_health_checks config_file st = (Ret false, s2)).
Proof.
  split.
  - intros [w []] endpoint w1 Hcluster Hclient. simpl in Hclient.
    unfold create_route53_health_check, try_except.
    unfold call_io at 1, call at 1. unfold bind at 1 2. simpl.
    rewrite Hclient. simpl. unfold bind at 1. by rewrite Hcluster.
  - intros st s2 config_file config endpoints w1 e Hread Heps Hloop.
    by rewrite setup_cases, Hread, Heps, Hloop.
Qed.
End SetupFunctions.

(** * Further runs on concrete inputs *)

Module Cases.
Import Examples.
#[local] Existing Instance Sim.exact.
Local Open Scope monad_scope.

(** ** The health-check cache *)

(** The cached verdict for [hc-a] is a hundred seconds old. *)
Definition expired : state Sim.world Hybrid.manager :=
  State (world observed)
        (Hybrid.set_cache <["hc-a" := (false, (-100)%Q)]> (self observed)).

Lemma X1_witness :
  (first <- Hybrid.check_route53_health "hc-a" ;;
   second <- Hybrid.check_route53_health "hc-a" ;;
   ret (first, second)) observed
  = (Ret (true, true),
     State (world observed)
           (Hybrid.set_cache <["hc-a" := (true, 0%Q)]> (self observed))).
Proof.
  rewrite (X1_second_check_within_ttl_is_cached observed "hc-a" 0%Q
             (world observed) "Failure: timeout"
             ["SUCCESS: HTTP Status Code 200"] (world observed) 0%Q
             (world observed)); reflexivity.
Defined.

Lemma X2_witness :
  Hybrid.check_route53_health "hc-a" expired
  = (Ret true,
     State (world expired)
           (Hybrid.set_cache <["hc-a" := (true, 0%Q)]> (self expired))).
Proof.
  rewrite (X2_expired_entry_is_not_used expired "hc-a" false (-100)%Q 0%Q
             (world expired)
             (Done ["Failure: timeout"; "SUCCESS: HTTP Status Code 200"])
             (world expired));
    [reflexivity|vm_compute; reflexivity|reflexivity| |reflexivity].
  unfold Qle. simpl. lia.
Defined.

(** ** The health evaluation *)

(** [a] cannot be reached and [b] can; neither has a Route 53 health
    check. *)
Definition a_unreachable : state Sim.world Hybrid.manager :=
  State (net (λ _ host, if decide (host = "a") then None else Some 1%Q)
             (λ _, Done []) accept)
        (hybrid [ep "a" (Some 1%Z) None; ep "b" (Some 2%Z) None]).

Definition a_unreachable_1 := (Hybrid.get_healthy_endpoints a_unreachable).2.

Lemma X4_witness :
  ∃ verdicts (s s' : state Sim.world Hybrid.manager),
    hybrid_health_checks [0%nat] a_unreachable = (Ret verdicts, s) ∧
    Hybrid.endpoints (self s) = Hybrid.endpoints (self a_unreachable) ∧
    Hybrid.is_endpoint_healthy (ep "b" (Some 2%Z) None) s = (Ret true, s') ∧
    Hybrid.collect_healthy [] (passed [0%nat] verdicts ++ [1%nat]) s'
    = (Ret [1%nat], a_unreachable_1).
Proof.
  destruct (X4_healthy_endpoints_passed_their_check
              a_unreachable a_unreachable_1 [1%nat] 1%nat) as [Hpassed _];
    [vm_compute; reflexivity|left|].
  exact Hpassed.
Defined.

(** ** Missing keys and the retry count *)

(** Two reachable endpoints, and a manager that makes no latency test. *)
Definition no_retries : state Sim.world Hybrid.manager :=
  State (net (λ _ _, Some 1%Q) (λ _, Done []) accept)
        (Hybrid.Manager [ep "a" (Some 2%Z) None; ep "b" (Some 1%Z) None]
                        (Hybrid.default_connection_settings 5)
                        60 2 0 5 ∅ true).

Definition no_retries_1 := (Hybrid.get_healthy_endpoints no_retries).2.

Lemma X5_witness :
  ∃ st2,
    world st2 = world no_retries_1 ∧
    (∀ i, i ∈ [0; 1]%nat →
       latency (Hybrid.endpoints (self st2) !!! i) = Some Inf) ∧
    Hybrid.get_connection "postgres" "admin" no_retries
    = Hybrid.try_endpoints "postgres" "admin"
        (sort_by (λ i, default 999%Z
                         (priority (Hybrid.endpoints (self st2) !!! i)))
                 Z.ltb [0; 1]%nat)
        [] st2.
Proof.
  apply (X5_no_retries_ranks_on_priority
           no_retries no_retries_1 "postgres" "admin" [0; 1]%nat).
  - simpl. lia.
  - vm_compute. reflexivity.
  - discriminate.
  - intros i Hi.
    repeat (apply elem_of_cons in Hi as [->|Hi]; [by eexists|]).
    by apply elem_of_nil in Hi.
Defined.

(** Route 53 reports the endpoint healthy, and it declares no port. *)
Definition portless : state (Recorded.world Sim.world) Hybrid.manager :=
  State (Recorded.Rec (world observed) [])
        (hybrid [Endpoint "a" "us-east-1" None (Some "cluster-a") (Some 1%Z)
                          (Some "hc-a") None None]).

Definition portless_1 := (Hybrid.get_healthy_endpoints portless).2.

Lemma X6_witness :
  let r := Hybrid.get_connection "postgres" "admin" portless in
  r.1 = Raise (KeyError "port") ∧ Recorded.attempts (world r.2) = [].
Proof.
  apply (X6_healthy_endpoint_without_port_is_fatal
           portless portless_1 "postgres" "admin" [0%nat] 0%nat);
    [vm_compute; reflexivity|left|reflexivity].
Defined.

(** An endpoint that declares no cluster id. *)
Definition anonymous : state Sim.world Hybrid.manager :=
  State (net (λ _ _, Some 1%Q) (λ _, Done []) accept)
        (hybrid [Endpoint "a" "us-east-1" (Some 5432%Z) None (Some 1%Z)
                          None None None]).

Lemma X7_witness :
  Hybrid.try_endpoints "postgres" "admin" [0%nat] [] anonymous
  = Hybrid.try_endpoints "postgres" "admin" []
      ["Failed to connect to a: 'cluster_id'"] anonymous.
Proof.
  apply (X7_missing_cluster_id_is_soft anonymous "postgres" "admin"
           0%nat [] []).
  reflexivity.
Defined.

(** ** The exceptions that reach the caller *)

Lemma X8_witness :
  ∃ st1,
    Simple._check_endpoints all_down = (Ret (), st1) ∧
    let targets := Simple.targets_of (Simple.endpoints (self st1)) in
    let attempts := simple_attempts "postgres" "admin" 5 in
    let attempt := Simple.attempt "postgres" "admin" 5 in
    targets ≠ [] ∧
    ((∃ pre i post errs st2 c st3,
        targets = pre ++ i :: post ∧
        attempts pre st1 = (Ret (inr <$> errs), st2) ∧
        attempt i st2 = (Ret c, st3) ∧
        Simple.get_connection "postgres" "admin" 5 all_down = (Ret c, st3)) ∨
     (∃ pre i errs reason st2 st3,
        targets = pre ++ [i] ∧
        attempts pre st1 = (Ret (inr <$> errs), st2) ∧
        attempt i st2 = (Raise (Exception reason), st3) ∧
        Simple.get_connection "postgres" "admin" 5 all_down
        = (Raise (Exception
                    ("Failed to connect to any endpoint: " +:+ reason)),
           st3))).
Proof.
  apply (X8_simple_get_connection_outcomes all_down "postgres" "admin" 5%Z).
  discriminate.
Defined.

(** ** The best endpoint *)

Lemma X10_witness :
  Hybrid.get_best_endpoint b_refused = (Ret (Some 1%nat), b_refused_2).
Proof.
  destruct (X10_best_endpoint_heads_the_ranking
              b_refused b_refused_1 b_refused_2 [0; 1]%nat b_refused_lats)
    as (Hbest & _); [vm_compute; reflexivity..|].
  rewrite Hbest. vm_compute. reflexivity.
Defined.

(** ** What is stored *)

Definition tie_first : endpoint :=
  Simple.endpoints
    (self (Simple.get_connection "postgres" "admin" 5 tie).2) !!! 0%nat.

Lemma X13_witness :
  (latency tie_first = Some Inf ∧ is_healthy tie_first = Some false) ∨
  (∃ q, latency tie_first = Some (Fin q) ∧ is_healthy tie_first = Some true).
Proof.
  apply (X13_health_and_latency_agree tie "postgres" "admin" 5%Z tie_first).
  vm_compute. left.
Defined.

(** ** The anatomy of an attempt *)

Lemma X14_witness :
  (∃ token, dsn tie_c !! "password" = Some (PStr token)) ∧
  (∃ token, dsn b_refused_c !! "password" = Some (PStr token)).
Proof.
  split.
  - destruct (proj1 X14_token_is_minted_for_the_attempt
                tie_1 tie_3 "postgres" "admin" 5%Z 0%nat tie_c)
      as (identity & w1 & token & w2 & w3 & _ & _ & _ & _ & _ & Hpassword);
      [vm_compute; reflexivity|].
    exists token. exact Hpassword.
  - destruct (proj2 X14_token_is_minted_for_the_attempt
                b_refused_3 b_refused_4 "postgres" "admin" 0%nat b_refused_c)
      as (cluster & p & token & w1 & w2 & _ & _ & _ & _ & _ & _ & Hpassword);
      [vm_compute; reflexivity|].
    exists token. apply Hpassword. vm_compute. reflexivity.
Defined.

(** ** The connections dialled *)

Definition tie_recorded : state (Recorded.world Sim.world) Simple.manager :=
  State (Recorded.Rec (world tie) []) (self tie).

Lemma X15_witness :
  let r := Simple.get_connection "postgres" "admin" 5 tie_recorded in
  ∃ new,
    Recorded.attempts (world r.2) = new ∧
    last new = Some (dsn (returned no_connection r.1)).
Proof.
  destruct (proj1 X15_dials_follow_the_ranking
              tie_recorded "postgres" "admin" 5%Z)
    as (st1 & _ & tried & new & Hlog & _ & _ & _ & _ & Hlast).
  exists new. split; [exact Hlog|].
  apply Hlast. vm_compute. reflexivity.
Defined.

(** ** Construction *)

Lemma X17_witness :
  Hybrid.endpoints (hybrid [ep "a" None None]) ≠ [] ∧
  Hybrid.health_check_cache (hybrid [ep "a" None None]) = ∅.
Proof.
  destruct (proj2 (X17_hybrid_constructor (W:=Sim.world)
                     [ep "a" None None] None 60 2 3 5 true)
              (hybrid [ep "a" None None]) eq_refl) as (Hne & Hcache & _).
  split; [exact Hne|exact Hcache].
Defined.

(** ** Setting up the health checks *)

(** A world with one configuration file, whatever its path, and a Route
    53 that answers every creation with a fresh id. *)
Record office : Type := Office {
  network : Sim.world;
  file : option config;
  checks : list string;
}.

Definition outside {A} (op : Sim.world → A * Sim.world) (w : office)
    : A * office :=
  ((op (network w)).1, Office (op (network w)).2 (file w) (checks w)).

#[local] Instance office_world : World office := {
  time_time := outside time_time;
  gethostbyname hostname := outside (gethostbyname hostname);
  socket_connect host port timeout := outside (socket_connect host port timeout);
  get_health_check_status id := outside (get_health_check_status id);
  get_caller_identity := outside get_caller_identity;
  generate_db_connect_admin_auth_token hostname region :=
    outside (generate_db_connect_admin_auth_token hostname region);
  psycopg2_connect params := outside (psycopg2_connect params);
}.

#[local] Instance office_setup : Setup office := {
  route53_client w := (Done (), w);
  create_health_check caller_reference _ _ w :=
    (Done ("hc-for-" +:+ caller_reference),
     Office (network w) (file w) (checks w ++ [caller_reference]));
  change_tags_for_resource _ _ w := (Done (), w);
  read_config _ w :=
    (match file w with
     | Some config => Done config
     | None => Fails "No such file or directory"
     end, w);
  write_config _ config w :=
    (Done (), Office (network w) (Some config) (checks w));
}.

Definition office_with (endpoints : list endpoint) : state office () :=
  State (Office (net (λ _ _, Some 1%Q) (λ _, Done []) accept)
                (Some (Config (Some endpoints) None)) []) ().

(** [a] has no health check yet, [b] has one. *)
Definition half_done : state office () :=
  office_with [ep "a" (Some 1%Z) None; ep "b" (Some 2%Z) (Some "hc-b")].

Definition all_done : state office () :=
  office_with [ep "a" (Some 1%Z) (Some "hc-a"); ep "b" (Some 2%Z) (Some "hc-b")].

(** The second endpoint has neither a health check nor a cluster id. *)
Definition nameless : endpoint :=
  Endpoint "b" "us-east-1" (Some 5432%Z) None (Some 2%Z) None None None.

Definition undoable : state office () :=
  office_with [ep "a" (Some 1%Z) None; nameless].

Definition undoable_2 :=
  (create_missing [ep "a" (Some 1%Z) None; nameless] undoable).2.

Lemma X18_witness :
  ∃ config endpoints endpoints' w1 s2 w3,
    read_config "dsql_config.json" (world half_done) = (Done config, w1) ∧
    config_endpoints config = Some endpoints ∧
    create_missing endpoints (State w1 ()) = (Ret endpoints', s2) ∧
    write_config "dsql_config.json"
      (Config (Some endpoints') (config_settings config)) (world s2)
    = (Done (), w3) ∧
    world (setup_endpoints_with_health_checks "dsql_config.json" half_done).2
    = w3 ∧
    Forall2 set_up endpoints endpoints'.
Proof.
  apply (proj2 (X18_setup_writes_what_it_created half_done "dsql_config.json")).
  vm_compute. reflexivity.
Defined.

Lemma X19_witness :
  setup_endpoints_with_health_checks "dsql_config.json" all_done
  = (Ret true, all_done).
Proof.
  rewrite (X19_setup_is_idempotent all_done "dsql_config.json"
             (Config (Some [ep "a" (Some 1%Z) (Some "hc-a");
                            ep "b" (Some 2%Z) (Some "hc-b")]) None)
             [ep "a" (Some 1%Z) (Some "hc-a"); ep "b" (Some 2%Z) (Some "hc-b")]
             (world all_done)); [reflexivity..|].
  repeat constructor; eexists; (split; [reflexivity|discriminate]).
Defined.

Lemma X20_witness :
  create_route53_health_check nameless undoable
  = (Raise (KeyError "cluster_id"), undoable) ∧
  setup_endpoints_with_health_checks "dsql_config.json" undoable
  = (Ret false, undoable_2) ∧
  checks (world undoable_2) = ["dsql-cluster-a-0"] ∧
  file (world undoable_2) = file (world undoable).
Proof.
  split_and!.
  - apply (proj1 X20_failed_setup_writes_nothing undoable nameless
             (world undoable)); reflexivity.
  - apply (proj2 X20_failed_setup_writes_nothing undoable undoable_2
             "dsql_config.json"
             (Config (Some [ep "a" (Some 1%Z) None; nameless]) None)
             [ep "a" (Some 1%Z) None; nameless] (world undoable)
             (KeyError "cluster_id")); vm_compute; reflexivity.
  - vm_compute. reflexivity.
  - vm_compute. reflexivity.
Defined.
End Cases.
